(** * A retrieval-augmented chatbot: ingestion pipeline and chat loop

    Shallow embedding of [ingest.py] and [chat.py].  Python values the
    scripts handle are modelled directly: strings (as the bytes of their
    UTF-8 encoding), integers, dictionaries as [gmap], lists.  A
    statement is a function from a world to a result and a world; it
    ends normally, by an [Exception], by [SystemExit], or by another
    exception that [except Exception] does not catch.
    The services the scripts call (environment, file system, PDF loader,
    text splitter constructor, embedding gateway, Chroma collection,
    conversational chain, console) are fields of a record of
    collaborators, so that every statement is about what the scripts do
    with whatever those services answer.  A world records, next to the
    store or the conversation memory, the log and the calls made to the
    collaborators, oldest first. *)

From stdpp Require Import base gmap list strings pretty.
From Stdlib Require Import ZArith Lia Ascii.

Open Scope string_scope.

(** ** Python values, exceptions and control flow *)

Module Py.

(** A raised instance of a class that derives from [Exception]: its
    class name and [str(e)].  These are the exceptions that
    [except Exception] catches. *)
Record exn := Exn { exn_class : string; exn_msg : string }.

Definition ValueError (msg : string) : exn := Exn "ValueError" msg.
Definition FileNotFoundError (msg : string) : exn := Exn "FileNotFoundError" msg.
Definition AttributeError (msg : string) : exn := Exn "AttributeError" msg.

(** A raised instance of a class that derives from [BaseException] but
    not from [Exception], such as [KeyboardInterrupt] or
    [GeneratorExit]: [except Exception] lets it through. *)
Record base_exn := BaseExn { base_class : string; base_msg : string }.

Definition keyboard_interrupt : base_exn := BaseExn "KeyboardInterrupt" "".

(** How a statement finishes: normally, by an [Exception], by the
    [SystemExit] of [sys.exit], or by another exception that is no
    [Exception]. *)
Inductive result (A : Type) : Type :=
| Ok (a : A)
| Raise (e : exn)
| Exit (code : Z)
| Escape (b : base_exn).
Global Arguments Ok {A} a.
Global Arguments Raise {A} e.
Global Arguments Exit {A} code.
Global Arguments Escape {A} b.

(** Statements over a world [W]. *)
Definition M (W A : Type) : Type := W → result A * W.

Definition ret {W A} (a : A) : M W A := λ w, (Ok a, w).
Definition raise {W A} (e : exn) : M W A := λ w, (Raise e, w).
Definition sys_exit {W A} (code : Z) : M W A := λ w, (Exit code, w).

(** What a call to a collaborator or a builtin gives back: a value, an
    [Exception], or an exception that is no [Exception] (the call was
    interrupted). *)
Inductive reply (A : Type) : Type :=
| Returns (a : A)
| Throws (e : exn)
| Interrupted (b : base_exn).
Global Arguments Returns {A} a.
Global Arguments Throws {A} e.
Global Arguments Interrupted {A} b.

Definition call {W A} (r : reply A) : M W A := λ w,
  match r with
  | Returns a => (Ok a, w)
  | Throws e => (Raise e, w)
  | Interrupted b => (Escape b, w)
  end.

Definition bind {W A B} (c : M W A) (k : A → M W B) : M W B := λ w,
  match c w with
  | (Ok a, w') => k a w'
  | (Raise e, w') => (Raise e, w')
  | (Exit n, w') => (Exit n, w')
  | (Escape b, w') => (Escape b, w')
  end.

(** [try: body  except Exception as e: handler e]: only an [Exception]
    reaches the handler. *)
Definition try_except {W A} (body : M W A) (handler : exn → M W A) : M W A := λ w,
  match body w with
  | (Raise e, w') => handler e w'
  | r => r
  end.

Definition modify {W} (f : W → W) : M W unit := λ w, (Ok tt, f w).

(** [sep.join(l)] *)
Fixpoint join (sep : string) (l : list string) : string :=
  match l with
  | [] => ""
  | [s] => s
  | s :: rest => s +:+ sep +:+ join sep rest
  end.

Global Instance M_ret {W} : MRet (M W) := λ A a, ret a.
Global Instance M_bind {W} : MBind (M W) := λ A B k c, bind c k.

Global Instance reply_ret : MRet reply := λ A a, Returns a.
Global Instance reply_bind : MBind reply := λ A B k r,
  match r with
  | Returns a => k a
  | Throws e => Throws e
  | Interrupted b => Interrupted b
  end.
Global Instance reply_fmap : FMap reply := λ A B f r,
  match r with
  | Returns a => Returns (f a)
  | Throws e => Throws e
  | Interrupted b => Interrupted b
  end.

(** *** Text *)

(** A [str] is kept as the bytes of its UTF-8 encoding.  [utf8_chars]
    cuts it into its characters: a byte together with the continuation
    bytes (of the form 10xxxxxx) that follow it. *)
Definition is_continuation (b : Ascii.ascii) : bool :=
  let n := Ascii.N_of_ascii b in
  N.leb 128 n && N.ltb n 192.

Fixpoint utf8_chars (s : string) : list string :=
  match s with
  | EmptyString => []
  | String b rest =>
      match utf8_chars rest with
      | String b' c :: cs =>
          if is_continuation b' then String b (String b' c) :: cs
          else String b "" :: String b' c :: cs
      | cs => String b "" :: cs
      end
  end.

(** The code point that the bytes of a character encode (0 when they
    are no UTF-8 encoding, or not the shortest one). *)
Definition code_point (c : string) : N :=
  match Ascii.N_of_ascii <$> String.list_ascii_of_string c with
  | [b0] => if N.ltb b0 128 then b0 else 0
  | [b0; b1] =>
      if N.leb 194 b0 && N.ltb b0 224 then (b0 - 192) * 64 + (b1 - 128) else 0
  | [b0; b1; b2] =>
      let n := (b0 - 224) * 4096 + (b1 - 128) * 64 + (b2 - 128) in
      if N.leb 224 b0 && N.ltb b0 240 && N.leb 2048 n then n else 0
  | [b0; b1; b2; b3] =>
      let n := (b0 - 240) * 262144 + (b1 - 128) * 4096 + (b2 - 128) * 64 + (b3 - 128) in
      if N.leb 240 b0 && N.ltb b0 245 && N.leb 65536 n then n else 0
  | _ => 0
  end%N.

(** The characters that [str.strip()] removes, those for which
    [str.isspace()] holds: U+0009 to U+000D, U+001C to U+0020, U+0085,
    U+00A0, U+1680, U+2000 to U+200A, U+2028, U+2029, U+202F, U+205F and
    U+3000. *)
Definition is_whitespace (n : N) : bool :=
  (N.leb 9 n && N.leb n 13) || (N.leb 28 n && N.leb n 32)
  || N.eqb n 133 || N.eqb n 160 || N.eqb n 5760
  || (N.leb 8192 n && N.leb n 8202)
  || N.eqb n 8232 || N.eqb n 8233 || N.eqb n 8239 || N.eqb n 8287 || N.eqb n 12288.

Definition is_space (c : string) : bool := is_whitespace (code_point c).

(** [str.lstrip()] on the characters of a text, and [str.strip()] *)
Fixpoint lstrip (cs : list string) : list string :=
  match cs with
  | c :: rest => if is_space c then lstrip rest else cs
  | [] => []
  end.
Definition strip (s : string) : string :=
  join "" (reverse (lstrip (reverse (lstrip (utf8_chars s))))).

(** [str.lower()] on the ASCII letters.  The scripts only compare a
    lowered text with the words [exit], [quit] and [q]; no character
    outside ASCII is lowered by Python to letters of these words alone,
    so the comparison comes out the same. *)
Definition lower_char (c : Ascii.ascii) : Ascii.ascii :=
  let n := Ascii.nat_of_ascii c in
  if Nat.leb 65 n && Nat.leb n 90 then Ascii.ascii_of_nat (n + 32) else c.
Fixpoint lower (s : string) : string :=
  match s with
  | String c rest => String (lower_char c) (lower rest)
  | EmptyString => EmptyString
  end.

(** [os.getenv(k, d)] and the truth value of [os.getenv(k)] *)
Definition getenv_default (getenv : string → option string) (k d : string) : string :=
  default d (getenv k).
Definition env_truthy (o : option string) : bool :=
  match o with
  | Some (String _ _) => true
  | _ => false
  end.

(** [repr] of a list of strings that need no escaping *)
Definition repr_str_list (l : list string) : string :=
  "[" +:+ join ", " ((λ s, "'" +:+ s +:+ "'") <$> l) +:+ "]".

(** Values stored in a metadata dictionary. *)
Inductive value := VStr (s : string) | VInt (z : Z).

Global Instance value_eq_dec : EqDecision value.
Proof. solve_decision. Defined.

(** [f"{v}"] *)
Definition format_value (v : value) : string :=
  match v with
  | VStr s => s
  | VInt z => pretty z
  end.

(** [logging] levels used by the scripts. *)
Inductive level := INFO | WARNING | ERROR.

(** A [langchain.schema.Document]. *)
Record Document := { page_content : string; metadata : gmap string value }.

End Py.
Import Py.

(** ** [ingest.py] *)

Module Ingest.

Record Path := { path_str : string; name : string; stem : string }.

Record Config := {
  openai_api_key : string;
  embedding_model : string;
  persist_dir : string;
  chunk_size : Z;
  chunk_overlap : Z;
  batch_size : Z;
}.

(** What the splitter object remembers of its construction. *)
Record TextSplitter := { ts_chunk_size : Z; ts_chunk_overlap : Z }.

(** A stored record: chunk text and its metadata (the vector is the
    gateway's and is opaque to the pipeline). *)
Definition Record_ : Type := string * gmap string value.

(** Calls made to the collaborators, oldest first. *)
Inductive Event :=
| EvLoadPdf (path : string)
| EvMakedirs (dir : string)
| EvOpenCollection (collection dir : string)
| EvEmbed (texts : list string)
| EvAppend (records : list Record_)
| EvPersist.

Record World := {
  store : list Record_;
  trace : list Event;
  log : list (level * string);
}.

Record Externals := {
  (** [os.getenv] once [load_dotenv()] has run *)
  getenv : string → option string;
  (** the builtin [int] applied to a string *)
  py_int : string → reply Z;
  (** [Path(d).exists()] and [list(Path(d).glob("*.pdf"))] *)
  docs_listing : string → option (list Path);
  (** [RecursiveCharacterTextSplitter(chunk_size=, chunk_overlap=, ...)] *)
  splitter_init : Z → Z → reply TextSplitter;
  (** [PyPDFLoader(path).load_and_split(text_splitter)] *)
  pdf_load_and_split : string → TextSplitter → reply (list Document);
  (** [OpenAIEmbeddings(openai_api_key=, model=)] *)
  openai_embeddings : string → string → reply unit;
  (** [os.makedirs(dir, exist_ok=True)] *)
  makedirs : string → reply unit;
  (** the embedding gateway: what the call made after the given history
      on the given texts does *)
  embed_documents : list Event → list string → reply unit;
  (** the collection's write, likewise *)
  collection_upsert : list Event → list Record_ → reply unit;
  (** [vectorstore.persist()], likewise *)
  persist : list Event → reply unit;
}.

Definition logging (lv : level) (msg : string) : M World unit :=
  modify (λ w, {| store := store w; trace := trace w; log := log w ++ [(lv, msg)] |}).

Definition emit (ev : Event) : M World unit :=
  modify (λ w, {| store := store w; trace := trace w ++ [ev]; log := log w |}).

Definition history : M World (list Event) := λ w, (Ok (trace w), w).

Definition store_extend (rs : list Record_) : M World unit :=
  modify (λ w, {| store := store w ++ rs; trace := trace w; log := log w |}).

(** [documents[i : i + batch_size]] for [0 ≤ i] and [0 < batch_size] *)
Definition slice {A} (l : list A) (i b : nat) : list A := take b (drop i l).

(** The loop [for i in range(0, len(documents), batch_size)] with a
    positive step; [fuel] bounds the number of iterations. *)
Fixpoint batches_from {A} (fuel : nat) (documents : list A) (i b : nat) : list (list A) :=
  match fuel with
  | O => []
  | S fuel' =>
      if decide (i < length documents)
      then slice documents i b :: batches_from fuel' documents (i + b) b
      else []
  end.

Definition process_documents_in_batches {A} (documents : list A) (batch_size : Z)
  : reply (list (list A)) :=
  if decide (batch_size = 0)%Z then Throws (ValueError "range() arg 3 must not be zero")
  else if decide (batch_size < 0)%Z then Returns []
  else Returns (batches_from (length documents) documents 0 (Z.to_nat batch_size)).

(** The check that the constructor of the text splitter makes on its
    arguments before it accepts them (the library's
    [TextSplitter.__init__], which [RecursiveCharacterTextSplitter]
    inherits): only an overlap larger than the size is refused. *)
Definition TextSplitter_init (chunk_size chunk_overlap : Z) : reply TextSplitter :=
  if decide (chunk_overlap > chunk_size)%Z then
    Throws (ValueError ("Got a larger chunk overlap (" +:+ pretty chunk_overlap
                        +:+ ") than chunk size (" +:+ pretty chunk_size
                        +:+ "), should be smaller."))
  else Returns {| ts_chunk_size := chunk_size; ts_chunk_overlap := chunk_overlap |}.

(** *** [load_environment] *)

Definition load_environment (E : Externals) : reply Config :=
  let required_vars := ["OPENAI_API_KEY"] in
  let missing_vars := List.filter (λ var, negb (env_truthy (getenv E var))) required_vars in
  match missing_vars with
  | _ :: _ =>
      Throws (ValueError ("Missing required environment variables: "
                         +:+ repr_str_list missing_vars))
  | [] =>
      cs ← py_int E (getenv_default (getenv E) "CHUNK_SIZE" "1000");
      co ← py_int E (getenv_default (getenv E) "CHUNK_OVERLAP" "200");
      bs ← py_int E (getenv_default (getenv E) "BATCH_SIZE" "100");
      mret {| openai_api_key := default "" (getenv E "OPENAI_API_KEY");
              embedding_model :=
                getenv_default (getenv E) "EMBEDDING_MODEL" "text-embedding-3-small";
              persist_dir := getenv_default (getenv E) "PERSIST_DIR" "db";
              chunk_size := cs;
              chunk_overlap := co;
              batch_size := bs |}
  end.

(** *** [find_pdf_files] *)

Definition find_pdf_files (E : Externals) (docs_dir : string) : M World (list Path) :=
  match docs_listing E docs_dir with
  | None => raise (FileNotFoundError ("Documents directory '" +:+ docs_dir +:+ "' not found"))
  | Some pdf_files =>
      logging INFO ("Found " +:+ pretty (length pdf_files) +:+ " PDF files in "
                    +:+ docs_dir +:+ "/");;
      mret pdf_files
  end.

(** *** [load_and_split_pdf] *)

(** The body of [for i, doc in enumerate(pages)]: [doc.metadata.update]
    with the four keys. *)
Definition tag_page (pdf_path : Path) (i : nat) (doc : Document) : Document :=
  {| page_content := page_content doc;
     metadata :=
       <["chunk_id" := VStr (stem pdf_path +:+ "_page_" +:+ pretty (i + 1))]>
       (<["page_number" := VInt (Z.of_nat (i + 1))]>
       (<["filename" := VStr (name pdf_path)]>
       (<["source_path" := VStr (path_str pdf_path)]> (metadata doc)))) |}.

Definition load_and_split_pdf (E : Externals) (pdf_path : Path) (text_splitter : TextSplitter)
  : M World (list Document) :=
  try_except
    (logging INFO ("Processing " +:+ name pdf_path +:+ "...");;
     emit (EvLoadPdf (path_str pdf_path));;
     pages ← call (pdf_load_and_split E (path_str pdf_path) text_splitter);
     let pages := imap (tag_page pdf_path) pages in
     logging INFO ("Split " +:+ name pdf_path +:+ " into " +:+ pretty (length pages)
                   +:+ " chunks");;
     mret pages)
    (λ e,
     logging ERROR ("Error processing " +:+ name pdf_path +:+ ": " +:+ exn_msg e);;
     mret []).

(** *** [ingest_documents] *)

(** [for pdf_path in pdf_files: ...; all_documents.extend(documents)] *)
Fixpoint load_all (E : Externals) (pdf_files : list Path) (text_splitter : TextSplitter)
    (all_documents : list Document) : M World (list Document) :=
  match pdf_files with
  | [] => mret all_documents
  | pdf_path :: rest =>
      documents ← load_and_split_pdf E pdf_path text_splitter;
      load_all E rest text_splitter (all_documents ++ documents)
  end.

Inductive VectorStore := Chroma (collection_name persist_directory : string).

(** [vectorstore.add_texts(texts=, metadatas=)]: one call to the
    embedding gateway on the whole batch, then one write. *)
Definition add_texts (E : Externals) (texts : list string)
    (metadatas : list (gmap string value)) : M World unit :=
  h ← history;
  emit (EvEmbed texts);;
  call (embed_documents E h texts);;
  let records := zip texts metadatas in
  h ← history;
  emit (EvAppend records);;
  call (collection_upsert E h records);;
  store_extend records.

(** [Chroma.from_texts(...)]: create or open the collection, then add. *)
Definition from_texts (E : Externals) (texts : list string)
    (metadatas : list (gmap string value)) (collection_name persist_directory : string)
  : M World VectorStore :=
  emit (EvOpenCollection collection_name persist_directory);;
  add_texts E texts metadatas;;
  mret (Chroma collection_name persist_directory).

(** [for i, batch in enumerate(batches): ...] *)
Fixpoint ingest_batches (E : Externals) (persist_directory : string)
    (batches : list (list Document)) (i total : nat) (vectorstore : option VectorStore)
  : M World (option VectorStore) :=
  match batches with
  | [] => mret vectorstore
  | batch :: rest =>
      logging INFO ("Processing batch " +:+ pretty (i + 1) +:+ "/" +:+ pretty total
                    +:+ " (" +:+ pretty (length batch) +:+ " documents)...");;
      let texts := page_content <$> batch in
      let metadatas := metadata <$> batch in
      vs ← match vectorstore with
           | None => from_texts E texts metadatas "pdf_knowledge" persist_directory
           | Some vs => add_texts E texts metadatas;; mret vs
           end;
      ingest_batches E persist_directory rest (i + 1) total (Some vs)
  end.

(** *** [create_embeddings] *)

Definition create_embeddings (E : Externals) (config : Config) : M World unit :=
  call (openai_embeddings E (openai_api_key config) (embedding_model config)).

(** The part of [ingest_documents] that follows the chunking of the
    corpus. *)
Definition embed_and_store (E : Externals) (config : Config) (all_documents : list Document)
  : M World unit :=
  logging INFO ("Total documents to process: " +:+ pretty (length all_documents));;
  create_embeddings E config;;
  logging INFO "Embeddings model initialized";;
  let persist_directory := persist_dir config in
  emit (EvMakedirs persist_directory);;
  call (makedirs E persist_directory);;
  batches ← call (process_documents_in_batches all_documents (batch_size config));
  logging INFO ("Processing " +:+ pretty (length batches) +:+ " batches...");;
  vectorstore ← ingest_batches E persist_directory batches 0 (length batches) None;
  match vectorstore with
  | None => raise (AttributeError "'NoneType' object has no attribute 'persist'")
  | Some _ =>
      h ← history;
      emit EvPersist;;
      call (persist E h);;
      logging INFO ("Successfully ingested " +:+ pretty (length all_documents)
                    +:+ " documents into ChromaDB");;
      logging INFO ("Database persisted to: " +:+ persist_directory)
  end.

(** The body of the [try] block. *)
Definition ingest_body (E : Externals) : M World unit :=
  config ← call (load_environment E);
  logging INFO "Environment configuration loaded successfully";;
  pdf_files ← find_pdf_files E "docs";
  match pdf_files with
  | [] => logging WARNING "No PDF files found in docs/ directory"
  | _ :: _ =>
      text_splitter ← call (splitter_init E (chunk_size config) (chunk_overlap config));
      all_documents ← load_all E pdf_files text_splitter [];
      match all_documents with
      | [] => logging ERROR "No documents were successfully processed"
      | _ :: _ => embed_and_store E config all_documents
      end
  end.

(** [ingest_documents()], from the point where [setup_logging()] has
    installed the handlers of the log: the [log] of the world is what
    those handlers receive. *)
Definition ingest_documents (E : Externals) : M World unit :=
  logging INFO "Starting document ingestion process...";;
  try_except (ingest_body E)
    (λ e, logging ERROR ("Ingestion failed: " +:+ exn_msg e);; raise e).

(** *** Reading a run *)

(** Calls of each kind in a history. *)
Definition is_embed (ev : Event) : bool := if ev is EvEmbed _ then true else false.
Definition is_append (ev : Event) : bool := if ev is EvAppend _ then true else false.
Definition is_open (ev : Event) : bool := if ev is EvOpenCollection _ _ then true else false.
Definition is_load (ev : Event) : bool := if ev is EvLoadPdf _ then true else false.

Definition embed_calls (h : list Event) : nat := length (List.filter is_embed h).
Definition append_calls (h : list Event) : nat := length (List.filter is_append h).
Definition open_calls (h : list Event) : nat := length (List.filter is_open h).
Definition load_calls (h : list Event) : nat := length (List.filter is_load h).

(** The record written for a chunk, and the two calls made for a batch. *)
Definition record_of (doc : Document) : Record_ := (page_content doc, metadata doc).
Definition batch_events (batch : list Document) : list Event :=
  [EvEmbed (page_content <$> batch); EvAppend (record_of <$> batch)].

(** The chunks a file contributes: its tagged pages, or nothing when the
    loader does not return. *)
Definition chunks_of (E : Externals) (text_splitter : TextSplitter) (pdf_path : Path)
  : list Document :=
  match pdf_load_and_split E (path_str pdf_path) text_splitter with
  | Returns pages => imap (tag_page pdf_path) pages
  | Throws _ | Interrupted _ => []
  end.

(** A world with more lines in its log. *)
Definition logged (lines : list (level * string)) (w : World) : World :=
  {| store := store w; trace := trace w; log := log w ++ lines |}.

(** All chunks of the corpus, in the order of the files. *)
Definition corpus_chunks (E : Externals) (text_splitter : TextSplitter) (pdf_files : list Path)
  : list Document :=
  concat (chunks_of E text_splitter <$> pdf_files).

(** The lines [load_and_split_pdf] logs for a file. *)
Definition load_lines (E : Externals) (text_splitter : TextSplitter) (pdf_path : Path)
  : list (level * string) :=
  (INFO, "Processing " +:+ name pdf_path +:+ "...") ::
  match pdf_load_and_split E (path_str pdf_path) text_splitter with
  | Returns pages =>
      [(INFO, "Split " +:+ name pdf_path +:+ " into "
              +:+ pretty (length (imap (tag_page pdf_path) pages)) +:+ " chunks")]
  | Throws e => [(ERROR, "Error processing " +:+ name pdf_path +:+ ": " +:+ exn_msg e)]
  | Interrupted _ => []
  end.

(** The progress line logged for batch number [i] (from 0) of [total]. *)
Definition batch_line (i total : nat) (batch : list Document) : level * string :=
  (INFO, "Processing batch " +:+ pretty (i + 1) +:+ "/" +:+ pretty total
         +:+ " (" +:+ pretty (length batch) +:+ " documents)...").

Fixpoint batch_lines (i total : nat) (batches : list (list Document))
  : list (level * string) :=
  match batches with
  | [] => []
  | batch :: rest => batch_line i total batch :: batch_lines (i + 1) total rest
  end.

(** The collection is opened by the first batch only. *)
Definition opening (dir : string) (vectorstore : option VectorStore) : list Event :=
  if vectorstore is None then [EvOpenCollection "pdf_knowledge" dir] else [].

Definition opened (dir : string) (vectorstore : option VectorStore) : VectorStore :=
  default (Chroma "pdf_knowledge" dir) vectorstore.

(** The history once [batches] have been sent and written after [h]. *)
Fixpoint history_after (dir : string) (h : list Event) (vectorstore : option VectorStore)
    (batches : list (list Document)) : list Event :=
  match batches with
  | [] => h
  | batch :: rest =>
      history_after dir (h ++ opening dir vectorstore ++ batch_events batch)
        (Some (opened dir vectorstore)) rest
  end.

Definition handle_after (dir : string) (vectorstore : option VectorStore)
    (batches : list (list Document)) : option VectorStore :=
  match batches with
  | [] => vectorstore
  | _ :: _ => Some (opened dir vectorstore)
  end.

(** In a run that has history [h], the embedding call and the write of
    each of [batches] succeed. *)
Fixpoint batches_succeed (E : Externals) (dir : string) (h : list Event)
    (vectorstore : option VectorStore) (batches : list (list Document)) : Prop :=
  match batches with
  | [] => True
  | batch :: rest =>
      let h1 := (h ++ opening dir vectorstore)%list in
      embed_documents E h1 (page_content <$> batch) = Returns tt ∧
      collection_upsert E (h1 ++ [EvEmbed (page_content <$> batch)]) (record_of <$> batch)
        = Returns tt ∧
      batches_succeed E dir (h1 ++ batch_events batch) (Some (opened dir vectorstore)) rest
  end.

(** In a run that has history [h], the embedding call of [batch] fails
    with [e], or it succeeds and the write fails with [e]. *)
Definition batch_fails (E : Externals) (dir : string) (h : list Event)
    (vectorstore : option VectorStore) (batch : list Document) (e : exn) : Prop :=
  let h1 := (h ++ opening dir vectorstore)%list in
  embed_documents E h1 (page_content <$> batch) = Throws e ∨
  (embed_documents E h1 (page_content <$> batch) = Returns tt ∧
   collection_upsert E (h1 ++ [EvEmbed (page_content <$> batch)]) (record_of <$> batch)
     = Throws e).

(** [ceil(m / b)] on naturals *)
Definition ceil_div (m b : nat) : nat := (m + b - 1) / b.

(** What the spec calls a single unbounded call: the whole sequence
    embedded and written at once, with no batching. *)
Definition ingest_unbatched (E : Externals) (dir : string) (documents : list Document)
  : M World VectorStore :=
  from_texts E (page_content <$> documents) (metadata <$> documents) "pdf_knowledge" dir.

(** A backend none of whose calls fails. *)
Definition reliable (E : Externals) : Prop :=
  (∀ h texts, embed_documents E h texts = Returns tt) ∧
  (∀ h records, collection_upsert E h records = Returns tt).

(** No load of [pdf_files] is interrupted. *)
Definition loads_complete (E : Externals) (text_splitter : TextSplitter)
    (pdf_files : list Path) : Prop :=
  ∀ pdf_path b,
    pdf_path ∈ pdf_files →
    pdf_load_and_split E (path_str pdf_path) text_splitter ≠ Interrupted b.

(** The embeddings client can be built and the directory of the database
    made; and the database can be persisted as well. *)
Definition storage_opens (E : Externals) (config : Config) : Prop :=
  openai_embeddings E (openai_api_key config) (embedding_model config) = Returns tt ∧
  makedirs E (persist_dir config) = Returns tt.

Definition storage_ready (E : Externals) (config : Config) : Prop :=
  storage_opens E config ∧ ∀ h, persist E h = Returns tt.

(** In a run that has history [h], the embedding call of [batch] is
    interrupted by [b], or it returns and the write is interrupted. *)
Definition batch_interrupted (E : Externals) (dir : string) (h : list Event)
    (vectorstore : option VectorStore) (batch : list Document) (b : base_exn) : Prop :=
  let h1 := (h ++ opening dir vectorstore)%list in
  embed_documents E h1 (page_content <$> batch) = Interrupted b ∨
  (embed_documents E h1 (page_content <$> batch) = Returns tt ∧
   collection_upsert E (h1 ++ [EvEmbed (page_content <$> batch)]) (record_of <$> batch)
     = Interrupted b).

(** *** Reading more of a run *)

(** One world continues another: nothing stored, recorded or logged is
    lost. *)
Definition grows (w w' : World) : Prop :=
  store w `prefix_of` store w' ∧
  trace w `prefix_of` trace w' ∧
  log w `prefix_of` log w'.

(** A statement that only adds to the world. *)
Definition additive {A} (c : M World A) : Prop := ∀ w, grows w (c w).2.

(** The texts sent to the embedding gateway, call after call. *)
Definition embedded_texts (h : list Event) : list string :=
  concat (omap (λ ev, if ev is EvEmbed texts then Some texts else None) h).

(** The keys that [load_and_split_pdf] writes into the metadata. *)
Definition tag_keys : list string :=
  ["source_path"; "filename"; "page_number"; "chunk_id"].

(** The records handed to the collection, write after write. *)
Definition appended_records (h : list Event) : list Record_ :=
  concat (omap (λ ev, if ev is EvAppend records then Some records else None) h).

(** The identifier that a chunk carries. *)
Definition chunk_id (doc : Document) : option value := metadata doc !! "chunk_id".

(** The calls of a run over [pdf_files] in which every one of [batches]
    is embedded and written. *)
Definition complete_history (dir : string) (pdf_files : list Path)
    (batches : list (list Document)) : list Event :=
  (EvLoadPdf ∘ path_str <$> pdf_files)
  ++ [EvMakedirs dir; EvOpenCollection "pdf_knowledge" dir]
  ++ concat (batch_events <$> batches) ++ [EvPersist].

End Ingest.

(** ** [chat.py] *)

Module Chat.

Record Config := {
  openai_api_key : string;
  embedding_model : string;
  llm_model : string;
  persist_dir : string;
  retrieval_k : Z;
}.

(** One exchange kept by the conversation memory. *)
Definition Turn : Type := string * string.

(** What the chain returns: ["answer"] and ["source_documents"]. *)
Record ChainResult := { answer : string; source_documents : list Document }.

(** What [input()] meets on the console. *)
Inductive Stdin := Line (s : string) | KeyboardInterrupt | EOFError.

Inductive Event :=
| EvOpenCollection (collection dir : string)
| EvCount
| EvPrompt
| EvChain (question : string) (outcome : reply string).

Record World := {
  (** the chain's [ConversationBufferMemory]; [None] until it is built *)
  memory : option (list Turn);
  stdout : list string;
  log : list (level * string);
  trace : list Event;
}.

Record Externals := {
  getenv : string → option string;
  py_int : string → reply Z;
  (** [os.path.exists] *)
  path_exists : string → bool;
  (** [collection.count()] of the collection opened in a directory *)
  collection_count : string → nat;
  (** retrieval and generation by the chain, given the turns its memory
      holds, the calls made so far and the question *)
  chain_run : list Turn → list Event → string → reply ChainResult;
  (** the measured [response_time], rendered by [:.2f] *)
  response_time_2f : list Event → string;
}.

Definition nl : string := String (Ascii.ascii_of_nat 10) "".

(** [c * n] for a one-character string *)
Definition repeat_str (c : string) (n : nat) : string := join "" (replicate n c).

Definition logging (lv : level) (msg : string) : M World unit :=
  modify (λ w, {| memory := memory w; stdout := stdout w;
                  log := log w ++ [(lv, msg)]; trace := trace w |}).

Definition print (line : string) : M World unit :=
  modify (λ w, {| memory := memory w; stdout := stdout w ++ [line];
                  log := log w; trace := trace w |}).

Definition emit (ev : Event) : M World unit :=
  modify (λ w, {| memory := memory w; stdout := stdout w;
                  log := log w; trace := trace w ++ [ev] |}).

Definition set_memory (m : list Turn) : M World unit :=
  modify (λ w, {| memory := Some m; stdout := stdout w;
                  log := log w; trace := trace w |}).

Definition history : M World (list Event) := λ w, (Ok (trace w), w).

Definition get_memory : M World (list Turn) := λ w, (Ok (default [] (memory w)), w).

(** *** [load_environment] *)

Definition load_environment (E : Externals) : reply Config :=
  let required_vars := ["OPENAI_API_KEY"] in
  let missing_vars := List.filter (λ var, negb (env_truthy (getenv E var))) required_vars in
  match missing_vars with
  | _ :: _ =>
      Throws (ValueError ("Missing required environment variables: "
                         +:+ repr_str_list missing_vars))
  | [] =>
      k ← py_int E (getenv_default (getenv E) "RETRIEVAL_K" "4");
      mret {| openai_api_key := default "" (getenv E "OPENAI_API_KEY");
              embedding_model :=
                getenv_default (getenv E) "EMBEDDING_MODEL" "text-embedding-3-small";
              llm_model := getenv_default (getenv E) "LLM_MODEL" "gpt-4o-mini";
              persist_dir := getenv_default (getenv E) "PERSIST_DIR" "db";
              retrieval_k := k |}
  end.

(** *** [initialize_vectorstore] *)

Inductive VectorStore := Chroma (collection_name persist_directory : string).

Definition initialize_vectorstore (E : Externals) (config : Config) : M World VectorStore :=
  let persist_directory := persist_dir config in
  if negb (path_exists E persist_directory) then
    raise (FileNotFoundError
             ("Database directory '" +:+ persist_directory +:+ "' not found. "
              +:+ "Please run ingest.py first to create the knowledge base."))
  else
    emit (EvOpenCollection "pdf_knowledge" persist_directory);;
    let vectorstore := Chroma "pdf_knowledge" persist_directory in
    emit EvCount;;
    let count := collection_count E persist_directory in
    if decide (count = 0) then
      raise (ValueError
               ("No documents found in the knowledge base. "
                +:+ "Please run ingest.py first to populate the database."))
    else
      logging INFO ("Loaded vector store with " +:+ pretty count +:+ " document chunks");;
      mret vectorstore.

(** *** [create_retrieval_chain] *)

(** The chain: the store it retrieves from, the retrieval width, and
    whether it was given a memory ([memory=] of
    [ConversationalRetrievalChain.from_llm]). *)
Inductive Chain :=
  ConversationalRetrievalChain (vectorstore : VectorStore) (k : Z) (memory : bool).

Definition has_memory (chain : Chain) : bool :=
  let (_, _, memory) := chain in memory.

(** Builds the model, the retriever and an empty
    [ConversationBufferMemory], and ties them into the chain. *)
Definition create_retrieval_chain (vectorstore : VectorStore) (config : Config)
  : M World Chain :=
  set_memory [];;
  mret (ConversationalRetrievalChain vectorstore (retrieval_k config) true).

(** [qa_chain({"question": q, "chat_history": []})].  The script hands
    the question to the library and never touches the memory itself;
    what the library's chain does with it is taken from the library
    ([Chain.__call__]): a chain that was given a memory reads the turns
    from it in place of the [chat_history] passed, runs, and saves the
    new turn once the run has returned; a run that does not return saves
    nothing, and a chain without a memory runs on the empty history it
    is passed and saves nothing. *)
Definition qa_chain (E : Externals) (chain : Chain) (question : string)
  : M World ChainResult :=
  turns ← (if has_memory chain then get_memory else mret []);
  h ← history;
  let outcome := chain_run E turns h question in
  emit (EvChain question (answer <$> outcome));;
  result ← call outcome;
  (if has_memory chain then set_memory (turns ++ [(question, answer result)])
   else mret tt);;
  mret result.

(** *** [format_sources] *)

(** [f"{metadata.get('filename', 'Unknown')} (page {metadata.get('page_number', '?')})"] *)
Definition source_info (doc : Document) : string :=
  format_value (default (VStr "Unknown") (metadata doc !! "filename"))
  +:+ " (page "
  +:+ format_value (default (VStr "?") (metadata doc !! "page_number"))
  +:+ ")".

(** The loop over [source_documents]. *)
Fixpoint collect_citations (source_documents : list Document)
    (citations : list string) (seen_sources : gset string) : list string :=
  match source_documents with
  | [] => citations
  | doc :: rest =>
      let info := source_info doc in
      if decide (info ∈ seen_sources)
      then collect_citations rest citations seen_sources
      else collect_citations rest (citations ++ [info]) ({[info]} ∪ seen_sources)
  end.

Definition format_sources (source_documents : list Document) : string :=
  match source_documents with
  | [] => "No sources found."
  | _ :: _ => "Sources: " +:+ join ", " (collect_citations source_documents [] ∅)
  end.

(** The citations that [format_sources] joins. *)
Definition citations (source_documents : list Document) : list string :=
  collect_citations source_documents [] ∅.

(** *** Reading citations *)

(** The pair that identifies the source of a chunk: file name and page. *)
Definition citation_key (doc : Document) : option (string * Z) :=
  match metadata doc !! "filename", metadata doc !! "page_number" with
  | Some (VStr filename), Some (VInt page) => Some (filename, page)
  | _, _ => None
  end.

Definition render_citation (k : string * Z) : string :=
  k.1 +:+ " (page " +:+ pretty k.2 +:+ ")".

(** Chunks that carry a file name and a page number, as ingestion writes
    them. *)
Definition keyed (docs : list Document) : Prop :=
  Forall (λ doc, is_Some (citation_key doc)) docs.

(** The characters of a rendered integer: a sign and digits. *)
Definition numeric (c : Ascii.ascii) : Prop :=
  c ∈ String.list_ascii_of_string "-0123456789".

(** Deduplication in the spec's words: keep an element when its key was
    not seen before, in the order of the sequence. *)
Fixpoint first_seen {A K} `{EqDecision K} (key : A → K) (seen : list K) (l : list A)
  : list A :=
  match l with
  | [] => []
  | x :: rest =>
      if decide (key x ∈ seen)
      then first_seen key seen rest
      else x :: first_seen key (key x :: seen) rest
  end.

Definition dedup_first {A K} `{EqDecision K} (key : A → K) (l : list A) : list A :=
  first_seen key [] l.

(** *** Reading a session *)

(** The exchanges that the calls of a history completed, and the
    questions it submitted, successful or not. *)
Definition turns_of (h : list Event) : list Turn :=
  omap (λ ev, match ev with
              | EvChain question (Returns reply_text) => Some (question, reply_text)
              | _ => None
              end) h.

Definition questions_of (h : list Event) : list string :=
  omap (λ ev, if ev is EvChain question _ then Some question else None) h.

(** What holds of the loop at any point: it ends normally, by the exit
    of an interrupt at the prompt, or by the interrupt of a call of the
    chain, which is then the last call made; and the memory has grown by
    the turns of the successful calls. *)
Definition session_invariant (body : M World unit) : Prop :=
  ∀ w m,
    memory w = Some m →
    ∃ r w' new,
      body w = (r, w') ∧
      (r = Ok tt ∨ r = Exit 0 ∨
       ∃ b question, r = Escape b ∧ last new = Some (EvChain question (Interrupted b))) ∧
      trace w' = (trace w ++ new)%list ∧
      memory w' = Some (m ++ turns_of new)%list.


(** *** Console *)

Definition print_welcome : M World unit :=
  print (repeat_str "=" 60);;
  print "🤖 Welcome to RAG Chatbot!";;
  print "Ask questions about your documents and get AI-powered answers.";;
  print "Type 'exit', 'quit', or 'q' to stop the conversation.";;
  print (repeat_str "=" 60);;
  print "".

(** [input("❓ You: ").strip()], given what the console holds next. *)
Definition get_user_input (next : Stdin) : M World string :=
  emit EvPrompt;;
  match next with
  | Line s => mret (strip s)
  | KeyboardInterrupt => print (nl +:+ nl +:+ "👋 Goodbye!");; sys_exit 0
  | EOFError => mret "exit"
  end.

Definition print_answer (answer sources response_time : string) : M World unit :=
  print (nl +:+ "🤖 RAGbot: " +:+ answer);;
  print (nl +:+ "📚 " +:+ sources);;
  print ("⏱️  Response time: " +:+ response_time +:+ "s");;
  print (repeat_str "-" 60).

(** *** [chat_loop] *)

(** The inner [try] of the loop: one question. *)
Definition process_query (E : Externals) (chain : Chain) (user_input : string)
  : M World unit :=
  try_except
    (result ← qa_chain E chain user_input;
     h ← history;
     let response_time := response_time_2f E h in
     let answer := answer result in
     let source_docs := source_documents result in
     let sources := format_sources source_docs in
     print_answer answer sources response_time;;
     logging INFO ("Query processed in " +:+ response_time +:+ "s"))
    (λ e,
     logging ERROR ("Error processing query: " +:+ exn_msg e);;
     print (nl +:+ "❌ Sorry, I encountered an error: " +:+ exn_msg e);;
     print "Please try rephrasing your question.";;
     print (repeat_str "-" 60)).

Definition is_exit_command (user_input : string) : bool :=
  bool_decide (lower user_input ∈ ["exit"; "quit"; "q"; ""]).

(** One pass through the body of [while True]; [continue] is the rest
    of the loop. *)
Definition iteration (E : Externals) (chain : Chain) (next : Stdin)
    (continue : M World unit) : M World unit :=
  user_input ← get_user_input next;
  if is_exit_command user_input then
    print (nl +:+ "👋 Thanks for using RAG Chatbot! Goodbye!")
  else
    process_query E chain user_input;;
    continue.

(** [while True: ...] over what the console holds; at the end of the
    input [input()] raises [EOFError]. *)
Fixpoint conversation (E : Externals) (chain : Chain) (inputs : list Stdin)
  : M World unit :=
  match inputs with
  | [] => iteration E chain EOFError (mret tt)
  | next :: rest => iteration E chain next (conversation E chain rest)
  end.

(** [chat_loop()], from the point where [setup_logging()] has installed
    the handlers of the log. *)
Definition chat_loop (E : Externals) (inputs : list Stdin) : M World unit :=
  logging INFO "Starting RAG Chatbot...";;
  try_except
    (config ← call (load_environment E);
     logging INFO "Environment configuration loaded";;
     vectorstore ← initialize_vectorstore E config;
     qa_chain ← create_retrieval_chain vectorstore config;
     logging INFO "Conversational retrieval chain initialized";;
     print_welcome;;
     conversation E qa_chain inputs)
    (λ e,
     logging ERROR ("Chat initialization failed: " +:+ exn_msg e);;
     print (nl +:+ "❌ Failed to initialize chatbot: " +:+ exn_msg e);;
     print (nl +:+ "Troubleshooting steps:");;
     print "1. Make sure you've run 'python ingest.py' first";;
     print "2. Check that your .env file contains a valid OPENAI_API_KEY";;
     print "3. Ensure the docs/ folder contains PDF files";;
     sys_exit 1).

(** *** Reading the console *)

(** What [print_welcome] prints, and what the handler of [chat_loop]
    prints for an error at start-up. *)
Definition welcome : list string :=
  [repeat_str "=" 60;
   "🤖 Welcome to RAG Chatbot!";
   "Ask questions about your documents and get AI-powered answers.";
   "Type 'exit', 'quit', or 'q' to stop the conversation.";
   repeat_str "=" 60;
   ""].

Definition troubleshooting (e : exn) : list string :=
  [nl +:+ "❌ Failed to initialize chatbot: " +:+ exn_msg e;
   nl +:+ "Troubleshooting steps:";
   "1. Make sure you've run 'python ingest.py' first";
   "2. Check that your .env file contains a valid OPENAI_API_KEY";
   "3. Ensure the docs/ folder contains PDF files"].

Definition goodbye : string := nl +:+ "👋 Thanks for using RAG Chatbot! Goodbye!".




End Chat.

(** ** Sample collaborators *)

Module Samples.

(** [int()] on the literals the samples use: ASCII decimal digits, with
    single underscores between them, after an optional sign, with white
    space around the whole. *)
Fixpoint digits_value (acc : Z) (after_digit : bool) (s : string) : option Z :=
  match s with
  | EmptyString => if after_digit then Some acc else None
  | String c rest =>
      let n := Ascii.nat_of_ascii c in
      if Nat.leb 48 n && Nat.leb n 57
      then digits_value (10 * acc + Z.of_nat (n - 48)) true rest
      else if Nat.eqb n 95 && after_digit then digits_value acc false rest
      else None
  end.

Definition int_of_decimal (s : string) : reply Z :=
  let signed :=
    match strip s with
    | String "-" digits => Z.opp <$> digits_value 0 false digits
    | String "+" digits => digits_value 0 false digits
    | digits => digits_value 0 false digits
    end%Z in
  match signed with
  | Some z => Returns z
  | None => Throws (ValueError ("invalid literal for int() with base 10: '" +:+ s +:+ "'"))
  end.

Definition env_of (bindings : list (string * string)) (k : string) : option string :=
  (list_to_map bindings : gmap string string) !! k.

Definition page (text : string) : Document := {| page_content := text; metadata := ∅ |}.

Definition fox_pdf : Ingest.Path :=
  {| Ingest.path_str := "docs/fox.pdf"; Ingest.name := "fox.pdf"; Ingest.stem := "fox" |}.
Definition broken_pdf : Ingest.Path :=
  {| Ingest.path_str := "docs/broken.pdf"; Ingest.name := "broken.pdf";
     Ingest.stem := "broken" |}.
Definition notes_pdf : Ingest.Path :=
  {| Ingest.path_str := "docs/notes.pdf"; Ingest.name := "notes.pdf"; Ingest.stem := "notes" |}.

(** A [docs/] folder that holds the given files. *)
Definition listing_of (pdf_files : list Ingest.Path) (docs_dir : string)
  : option (list Ingest.Path) :=
  if decide (docs_dir = "docs") then Some pdf_files else None.

Definition corpus_loader (path : string) (ts : Ingest.TextSplitter) : reply (list Document) :=
  if decide (path = "docs/fox.pdf") then
    Returns [page "The quick brown fox."; page "fox. Jumps over the"; page "the lazy dog."]
  else if decide (path = "docs/notes.pdf") then
    Returns [page "first note"; page "second note"]
  else Throws (Exn "PdfReadError" "EOF marker not found").

Definition rate_limit : exn := Exn "RateLimitError" "rate limit exceeded".
Definition disk_full : exn := Exn "InternalError" "database or disk is full".

(** [os.makedirs(dir, exist_ok=True)] on a disk where every directory
    can be made; the empty path names none. *)
Definition disk_makedirs (dir : string) : reply unit :=
  if decide (dir = "")
  then Throws (FileNotFoundError "[Errno 2] No such file or directory: ''")
  else Returns tt.

(** A given environment, a [docs/] folder with the given files, the
    library's splitter constructor, and a backend whose embedding call
    number [embed_fault] and write number [write_fault] (counted from 0)
    fail, if any. *)
Definition backend (env : list (string * string)) (pdf_files : list Ingest.Path)
    (embed_fault write_fault : option nat) : Ingest.Externals :=
  {| Ingest.getenv := env_of env;
     Ingest.py_int := int_of_decimal;
     Ingest.docs_listing := listing_of pdf_files;
     Ingest.splitter_init := Ingest.TextSplitter_init;
     Ingest.pdf_load_and_split := corpus_loader;
     Ingest.openai_embeddings := λ _ _, Returns tt;
     Ingest.makedirs := disk_makedirs;
     Ingest.embed_documents := λ h _,
       if decide (Some (Ingest.embed_calls h) = embed_fault)
       then Throws rate_limit else Returns tt;
     Ingest.collection_upsert := λ h _,
       if decide (Some (Ingest.append_calls h) = write_fault)
       then Throws disk_full else Returns tt;
     Ingest.persist := λ _, Returns tt |}.

(** The same with other answers from the loader and from the embedding
    gateway. *)
Definition with_calls (E : Ingest.Externals)
    (loader : string → Ingest.TextSplitter → reply (list Document))
    (embed : list Ingest.Event → list string → reply unit) : Ingest.Externals :=
  {| Ingest.getenv := Ingest.getenv E;
     Ingest.py_int := Ingest.py_int E;
     Ingest.docs_listing := Ingest.docs_listing E;
     Ingest.splitter_init := Ingest.splitter_init E;
     Ingest.pdf_load_and_split := loader;
     Ingest.openai_embeddings := Ingest.openai_embeddings E;
     Ingest.makedirs := Ingest.makedirs E;
     Ingest.embed_documents := embed;
     Ingest.collection_upsert := Ingest.collection_upsert E;
     Ingest.persist := Ingest.persist E |}.

Definition env_small : list (string * string) :=
  [("OPENAI_API_KEY", "sk-test"); ("CHUNK_SIZE", "20"); ("CHUNK_OVERLAP", "5");
   ("BATCH_SIZE", "2")].

Definition env_equal_overlap : list (string * string) :=
  [("OPENAI_API_KEY", "sk-test"); ("CHUNK_SIZE", "10"); ("CHUNK_OVERLAP", "10");
   ("BATCH_SIZE", "2")].

Definition env_large_overlap : list (string * string) :=
  [("OPENAI_API_KEY", "sk-test"); ("CHUNK_SIZE", "20"); ("CHUNK_OVERLAP", "30");
   ("BATCH_SIZE", "2")].

Definition corpus : list Ingest.Path := [fox_pdf; broken_pdf; notes_pdf].

Definition sound_backend : Ingest.Externals := backend env_small corpus None None.
Definition equal_overlap_backend : Ingest.Externals :=
  backend env_equal_overlap corpus None None.
Definition large_overlap_backend : Ingest.Externals :=
  backend env_large_overlap corpus None None.
(** The same settings over an empty [docs/] folder. *)
Definition large_overlap_no_files : Ingest.Externals := backend env_large_overlap [] None None.
(** The embedding gateway fails on its first call, or on its second. *)
Definition failing_at_once : Ingest.Externals := backend env_small corpus (Some 0) None.
Definition failing_later : Ingest.Externals := backend env_small corpus (Some 1) None.
(** The second write to the collection fails. *)
Definition write_failing : Ingest.Externals := backend env_small corpus None (Some 1).

(** What [load_environment] reads from [env_small], the splitter built
    from it, the files of the corpus and its five chunks in three batches
    of at most two. *)
Definition small_config : Ingest.Config :=
  {| Ingest.openai_api_key := "sk-test";
     Ingest.embedding_model := "text-embedding-3-small";
     Ingest.persist_dir := "db";
     Ingest.chunk_size := 20;
     Ingest.chunk_overlap := 5;
     Ingest.batch_size := 2 |}.
Definition small_splitter : Ingest.TextSplitter :=
  {| Ingest.ts_chunk_size := 20; Ingest.ts_chunk_overlap := 5 |}.
Definition corpus_documents : list Document :=
  Ingest.corpus_chunks sound_backend small_splitter corpus.
Definition first_batch : list Document := take 2 corpus_documents.
Definition second_batch : list Document := take 2 (drop 2 corpus_documents).
Definition third_batch : list Document := drop 4 corpus_documents.

Definition fresh : Ingest.World :=
  {| Ingest.store := []; Ingest.trace := []; Ingest.log := [] |}.

(** A retrieved chunk with the metadata that ingestion gives it. *)
Definition cited (filename : string) (page_number : Z) : Document :=
  {| page_content := "";
     metadata := <["page_number" := VInt page_number]> (<["filename" := VStr filename]> ∅) |}.

Definition retrieved : list Document := [cited "a.txt" 1; cited "b.txt" 2; cited "a.txt" 1].

(** A chat backend over a collection of [count] records, whose chain
    fails on the question ["boom"], is interrupted on the question
    ["wait"], and answers every other question. *)
Definition assistant (count : nat) : Chat.Externals :=
  {| Chat.getenv := env_of [("OPENAI_API_KEY", "sk-test")];
     Chat.py_int := int_of_decimal;
     Chat.path_exists := λ _, true;
     Chat.collection_count := λ _, count;
     Chat.chain_run := λ turns h question,
       if decide (question = "boom") then Throws (Exn "APIError" "upstream timeout")
       else if decide (question = "wait") then Interrupted keyboard_interrupt
       else Returns {| Chat.answer := "answer to " +:+ question;
                       Chat.source_documents := retrieved |};
     Chat.response_time_2f := λ _, "0.42" |}.

Definition chat_config : Chat.Config :=
  {| Chat.openai_api_key := "sk-test";
     Chat.embedding_model := "text-embedding-3-small";
     Chat.llm_model := "gpt-4o-mini";
     Chat.persist_dir := "db";
     Chat.retrieval_k := 4 |}.

(** Before the script starts, and once the chain is built. *)
Definition offline : Chat.World :=
  {| Chat.memory := None; Chat.stdout := []; Chat.log := []; Chat.trace := [] |}.
Definition ready : Chat.World :=
  {| Chat.memory := Some []; Chat.stdout := []; Chat.log := []; Chat.trace := [] |}.

Definition sample_chain : Chat.Chain :=
  Chat.ConversationalRetrievalChain (Chat.Chroma "pdf_knowledge" "db") 4 true.

(** A no-break space (U+00A0), as UTF-8. *)
Definition nbsp : string :=
  String (Ascii.ascii_of_nat 194) (String (Ascii.ascii_of_nat 160) "").

(** More environments and collaborators: no API key, only the API key,
    a batch size of zero, a chunk size that is no number, a [docs/]
    folder that is missing, and one that holds only the broken file. *)
Definition env_no_key : list (string * string) := [("CHUNK_SIZE", "20")].
Definition env_key_only : list (string * string) := [("OPENAI_API_KEY", "sk-test")].
Definition env_zero_batch : list (string * string) :=
  [("OPENAI_API_KEY", "sk-test"); ("BATCH_SIZE", "0")].
Definition env_bad_size : list (string * string) :=
  [("OPENAI_API_KEY", "sk-test"); ("CHUNK_SIZE", "large")].
Definition env_negative_batch : list (string * string) :=
  [("OPENAI_API_KEY", "sk-test"); ("BATCH_SIZE", "-1")].
Definition env_no_dir : list (string * string) :=
  [("OPENAI_API_KEY", "sk-test"); ("CHUNK_SIZE", "20"); ("CHUNK_OVERLAP", "5");
   ("BATCH_SIZE", "2"); ("PERSIST_DIR", "")].

Definition keyless_backend : Ingest.Externals := backend env_no_key corpus None None.
Definition default_backend : Ingest.Externals := backend env_key_only corpus None None.
Definition zero_batch_backend : Ingest.Externals := backend env_zero_batch corpus None None.
Definition bad_size_backend : Ingest.Externals := backend env_bad_size corpus None None.
Definition negative_batch_backend : Ingest.Externals :=
  backend env_negative_batch corpus None None.
(** An empty [PERSIST_DIR]: the directory cannot be made. *)
Definition no_dir_backend : Ingest.Externals := backend env_no_dir corpus None None.
(** The load of [notes.pdf], or the second embedding call, is
    interrupted from the keyboard. *)
Definition interrupted_load : Ingest.Externals :=
  with_calls sound_backend
    (λ path ts, if decide (path = "docs/notes.pdf") then Interrupted keyboard_interrupt
                else corpus_loader path ts)
    (Ingest.embed_documents sound_backend).
Definition interrupted_embedding : Ingest.Externals :=
  with_calls sound_backend corpus_loader
    (λ h _, if decide (Ingest.embed_calls h = 1) then Interrupted keyboard_interrupt
            else Returns tt).
Definition broken_only_backend : Ingest.Externals :=
  backend env_small [broken_pdf] None None.
Definition no_folder_backend : Ingest.Externals :=
  {| Ingest.getenv := env_of env_small;
     Ingest.py_int := int_of_decimal;
     Ingest.docs_listing := λ _, None;
     Ingest.splitter_init := Ingest.TextSplitter_init;
     Ingest.pdf_load_and_split := corpus_loader;
     Ingest.openai_embeddings := λ _ _, Returns tt;
     Ingest.makedirs := disk_makedirs;
     Ingest.embed_documents := λ _ _, Returns tt;
     Ingest.collection_upsert := λ _ _, Returns tt;
     Ingest.persist := λ _, Returns tt |}.

(** A chat backend with a given environment, with or without the
    database directory. *)
Definition assistant_with (env : list (string * string)) (db_exists : bool) (count : nat)
  : Chat.Externals :=
  {| Chat.getenv := env_of env;
     Chat.py_int := int_of_decimal;
     Chat.path_exists := λ _, db_exists;
     Chat.collection_count := λ _, count;
     Chat.chain_run := Chat.chain_run (assistant count);
     Chat.response_time_2f := λ _, "0.42" |}.

(** A page as the PDF loader returns it, with its own metadata. *)
Definition loader_page (text : string) (page_index : Z) : Document :=
  {| page_content := text;
     metadata := <["page" := VInt page_index]> (<["source" := VStr "docs/fox.pdf"]> ∅) |}.

(** A loader that splits the first page of a file in two pieces. *)
Definition paged_loader (path : string) (ts : Ingest.TextSplitter) : reply (list Document) :=
  Returns [loader_page "The quick brown fox" 0; loader_page "jumps over" 0;
           loader_page "the lazy dog." 1].
Definition paged_backend : Ingest.Externals :=
  {| Ingest.getenv := env_of env_small;
     Ingest.py_int := int_of_decimal;
     Ingest.docs_listing := listing_of [fox_pdf];
     Ingest.splitter_init := Ingest.TextSplitter_init;
     Ingest.pdf_load_and_split := paged_loader;
     Ingest.openai_embeddings := λ _ _, Returns tt;
     Ingest.makedirs := disk_makedirs;
     Ingest.embed_documents := λ _ _, Returns tt;
     Ingest.collection_upsert := λ _ _, Returns tt;
     Ingest.persist := λ _, Returns tt |}.

(** Retrieved chunks that carry no metadata. *)
Definition unlabelled : list Document := [page "one"; page "two"; page "three"].

End Samples.

(** * Properties *)

Open Scope nat_scope.
Open Scope list_scope.

(** ** Running statements *)

Section Running.
Context {W : Type}.

Lemma bind_ok {A B} (c : M W A) (k : A → M W B) w a w' :
  c w = (Ok a, w') → (c ≫= k) w = k a w'.
Proof. intros Hc. unfold mbind, M_bind, bind. by rewrite Hc. Qed.

Lemma bind_raise {A B} (c : M W A) (k : A → M W B) w e w' :
  c w = (Raise e, w') → (c ≫= k) w = (Raise e, w').
Proof. intros Hc. unfold mbind, M_bind, bind. by rewrite Hc. Qed.

Lemma bind_exit {A B} (c : M W A) (k : A → M W B) w n w' :
  c w = (Exit n, w') → (c ≫= k) w = (Exit n, w').
Proof. intros Hc. unfold mbind, M_bind, bind. by rewrite Hc. Qed.

Lemma try_except_ok {A} (body : M W A) handler w a w' :
  body w = (Ok a, w') → try_except body handler w = (Ok a, w').
Proof. intros Hb. unfold try_except. by rewrite Hb. Qed.

Lemma try_except_raise {A} (body : M W A) handler w e w' :
  body w = (Raise e, w') → try_except body handler w = handler e w'.
Proof. intros Hb. unfold try_except. by rewrite Hb. Qed.

Lemma try_except_exit {A} (body : M W A) handler w n w' :
  body w = (Exit n, w') → try_except body handler w = (Exit n, w').
Proof. intros Hb. unfold try_except. by rewrite Hb. Qed.

Lemma bind_escape {A B} (c : M W A) (k : A → M W B) w b w' :
  c w = (Escape b, w') → (c ≫= k) w = (Escape b, w').
Proof. intros Hc. unfold mbind, M_bind, bind. by rewrite Hc. Qed.

Lemma try_except_escape {A} (body : M W A) handler w b w' :
  body w = (Escape b, w') → try_except body handler w = (Escape b, w').
Proof. intros Hb. unfold try_except. by rewrite Hb. Qed.

End Running.

(** ** Batching *)

Section Batching.
Import Ingest.
Context {A : Type}.
Implicit Types (documents : list A) (i b fuel : nat).

Lemma ceil_div_0 b : 0 < b → ceil_div 0 b = 0.
Proof. intros Hb. unfold ceil_div. apply Nat.div_small. lia. Qed.

Lemma ceil_div_step m b : 0 < b → 0 < m → ceil_div m b = S (ceil_div (m - b) b).
Proof.
  intros Hb Hm. unfold ceil_div.
  destruct (decide (b ≤ m)) as [Hle|Hgt].
  - replace (m + b - 1) with ((m - b + b - 1) + 1 * b) by lia.
    rewrite Nat.div_add by lia. lia.
  - replace (m - b) with 0 by lia.
    rewrite (Nat.div_small (0 + b - 1)) by lia.
    replace (m + b - 1) with ((m - 1) + 1 * b) by lia.
    rewrite Nat.div_add by lia. rewrite Nat.div_small by lia. done.
Qed.

(** With fuel for every remaining element, the loop returns the batches
    of the rest of the list: they concatenate to it. *)
Lemma batches_from_concat fuel documents i b :
  0 < b → length documents - i ≤ fuel →
  concat (batches_from fuel documents i b) = drop i documents.
Proof.
  intros Hb. revert i. induction fuel as [|fuel IH]; intros i Hfuel; simpl.
  - rewrite drop_ge; [done | lia].
  - destruct (decide (i < length documents)) as [Hlt|Hge]; simpl.
    + rewrite IH by lia. unfold slice.
      rewrite <- drop_drop. apply take_drop.
    + rewrite drop_ge; [done | lia].
Qed.

Lemma batches_from_length fuel documents i b :
  0 < b → length documents - i ≤ fuel →
  length (batches_from fuel documents i b) = ceil_div (length documents - i) b.
Proof.
  intros Hb. revert i. induction fuel as [|fuel IH]; intros i Hfuel; simpl.
  - replace (length documents - i) with 0 by lia. by rewrite ceil_div_0.
  - destruct (decide (i < length documents)) as [Hlt|Hge]; simpl.
    + rewrite IH by lia. rewrite (ceil_div_step (length documents - i) b) by lia.
      do 2 f_equal. lia.
    + replace (length documents - i) with 0 by lia. by rewrite ceil_div_0.
Qed.

(** Every batch is a non-empty run of at most [b] elements. *)
Lemma batches_from_sizes fuel documents i b :
  0 < b →
  Forall (λ batch, 0 < length batch ≤ b) (batches_from fuel documents i b).
Proof.
  intros Hb. revert i. induction fuel as [|fuel IH]; intros i; simpl; [by constructor|].
  destruct (decide (i < length documents)) as [Hlt|Hge]; [|by constructor].
  constructor; [|apply IH].
  unfold slice. rewrite length_take, length_drop. lia.
Qed.

Lemma process_documents_in_batches_positive documents (batch_size : Z) :
  (0 < batch_size)%Z →
  ∃ batches,
    process_documents_in_batches documents batch_size = Returns batches ∧
    concat batches = documents ∧
    length batches = ceil_div (length documents) (Z.to_nat batch_size) ∧
    Forall (λ batch, 0 < length batch ≤ Z.to_nat batch_size) batches.
Proof.
  intros Hpos. unfold process_documents_in_batches.
  destruct (decide (batch_size = 0)%Z); [lia|].
  destruct (decide (batch_size < 0)%Z); [lia|].
  eexists; split; [done|].
  assert (0 < Z.to_nat batch_size) by lia.
  split; [|split].
  - rewrite batches_from_concat by lia. done.
  - rewrite batches_from_length by lia. by rewrite Nat.sub_0_r.
  - by apply batches_from_sizes.
Qed.

End Batching.

(** ** The ingestion run *)

Section IngestRun.
Import Ingest.
Context (E : Externals).
Implicit Types (w : World) (batch : list Document) (batches : list (list Document)).

Local Arguments String.app : simpl never.
Local Arguments pretty : simpl never.

Lemma zip_texts_metadatas batch :
  zip (page_content <$> batch) (metadata <$> batch) = record_of <$> batch.
Proof.
  induction batch as [|d batch IH]; [done|].
  rewrite !fmap_cons. cbn [zip_with]. by rewrite IH.
Qed.

(** One call of [add_texts], whatever the gateway and the collection
    answer. *)
Lemma add_texts_run batch w :
  add_texts E (page_content <$> batch) (metadata <$> batch) w
  = match embed_documents E (trace w) (page_content <$> batch) with
    | Returns _ =>
        (match collection_upsert E (trace w ++ [EvEmbed (page_content <$> batch)])
                 (record_of <$> batch) with
         | Returns _ => Ok tt
         | Throws e => Raise e
         | Interrupted b => Escape b
         end,
         {| store := match collection_upsert E (trace w ++ [EvEmbed (page_content <$> batch)])
                            (record_of <$> batch) with
                     | Returns _ => store w ++ (record_of <$> batch)
                     | _ => store w
                     end;
            trace := trace w ++ batch_events batch;
            log := log w |})
    | Throws e =>
        (Raise e, {| store := store w;
                     trace := trace w ++ [EvEmbed (page_content <$> batch)];
                     log := log w |})
    | Interrupted b =>
        (Escape b, {| store := store w;
                      trace := trace w ++ [EvEmbed (page_content <$> batch)];
                      log := log w |})
    end.
Proof.
  unfold add_texts, batch_events. rewrite zip_texts_metadatas.
  unfold mbind, M_bind, bind, history, emit, modify, store_extend, call; simpl.
  destruct (embed_documents E (trace w) (page_content <$> batch)) as [[]|e|b]; simpl; [|done..].
  destruct (collection_upsert E _ _) as [[]|e|b]; simpl; by rewrite <- app_assoc.
Qed.

Lemma add_texts_ok batch w :
  embed_documents E (trace w) (page_content <$> batch) = Returns tt →
  collection_upsert E (trace w ++ [EvEmbed (page_content <$> batch)]) (record_of <$> batch)
    = Returns tt →
  add_texts E (page_content <$> batch) (metadata <$> batch) w
  = (Ok tt, {| store := store w ++ (record_of <$> batch);
               trace := trace w ++ batch_events batch;
               log := log w |}).
Proof. intros Hembed Hwrite. by rewrite add_texts_run, Hembed, Hwrite. Qed.

Lemma add_texts_embed_fails batch w e :
  embed_documents E (trace w) (page_content <$> batch) = Throws e →
  add_texts E (page_content <$> batch) (metadata <$> batch) w
  = (Raise e, {| store := store w;
                 trace := trace w ++ [EvEmbed (page_content <$> batch)];
                 log := log w |}).
Proof. intros Hembed. by rewrite add_texts_run, Hembed. Qed.

Lemma add_texts_write_fails batch w e :
  embed_documents E (trace w) (page_content <$> batch) = Returns tt →
  collection_upsert E (trace w ++ [EvEmbed (page_content <$> batch)]) (record_of <$> batch)
    = Throws e →
  add_texts E (page_content <$> batch) (metadata <$> batch) w
  = (Raise e, {| store := store w;
                 trace := trace w ++ batch_events batch;
                 log := log w |}).
Proof. intros Hembed Hwrite. by rewrite add_texts_run, Hembed, Hwrite. Qed.

(** Sending one batch: the branch on [vectorstore is None]. *)
Lemma send_batch_ok dir batch vs w :
  embed_documents E (trace w ++ opening dir vs) (page_content <$> batch) = Returns tt →
  collection_upsert E ((trace w ++ opening dir vs) ++ [EvEmbed (page_content <$> batch)])
    (record_of <$> batch) = Returns tt →
  match vs with
  | None => from_texts E (page_content <$> batch) (metadata <$> batch) "pdf_knowledge" dir
  | Some v => add_texts E (page_content <$> batch) (metadata <$> batch);; mret v
  end w
  = (Ok (opened dir vs),
     {| store := store w ++ (record_of <$> batch);
        trace := trace w ++ opening dir vs ++ batch_events batch;
        log := log w |}).
Proof.
  intros Hembed Hwrite. destruct vs as [v|]; simpl in *.
  - rewrite app_nil_r in Hembed, Hwrite.
    erewrite bind_ok by (by apply add_texts_ok). done.
  - unfold from_texts.
    erewrite bind_ok by reflexivity.
    erewrite bind_ok by (by apply add_texts_ok).
    simpl. by rewrite <- app_assoc.
Qed.

Lemma send_batch_fails dir batch vs w e :
  batch_fails E dir (trace w) vs batch e →
  ∃ w',
    match vs with
    | None => from_texts E (page_content <$> batch) (metadata <$> batch) "pdf_knowledge" dir
    | Some v => add_texts E (page_content <$> batch) (metadata <$> batch);; mret v
    end w = (Raise e, w') ∧
    store w' = store w ∧ log w' = log w ∧
    (trace w' = trace w ++ opening dir vs ++ [EvEmbed (page_content <$> batch)] ∨
     trace w' = trace w ++ opening dir vs ++ batch_events batch).
Proof.
  intros [Hembed|[Hembed Hwrite]]; destruct vs as [v|]; simpl in *;
    rewrite ?app_nil_r in *.
  - eexists. split; [|split; [|split]].
    + erewrite bind_raise by (by apply add_texts_embed_fails). done.
    + done.
    + done.
    + by left.
  - eexists. split; [|split; [|split]].
    + unfold from_texts. erewrite bind_ok by reflexivity.
      erewrite bind_raise by (by apply add_texts_embed_fails). done.
    + done.
    + done.
    + left. simpl. by rewrite <- app_assoc.
  - eexists. split; [|split; [|split]].
    + erewrite bind_raise by (by apply add_texts_write_fails). done.
    + done.
    + done.
    + by right.
  - eexists. split; [|split; [|split]].
    + unfold from_texts. erewrite bind_ok by reflexivity.
      erewrite bind_raise by (by apply add_texts_write_fails). done.
    + done.
    + done.
    + right. simpl. by rewrite <- app_assoc.
Qed.

(** The loop over a list of batches whose calls all succeed. *)
Lemma ingest_batches_ok dir batches i total vs w :
  batches_succeed E dir (trace w) vs batches →
  ingest_batches E dir batches i total vs w
  = (Ok (handle_after dir vs batches),
     {| store := store w ++ (record_of <$> concat batches);
        trace := history_after dir (trace w) vs batches;
        log := log w ++ batch_lines i total batches |}).
Proof.
  revert i vs w. induction batches as [|batch rest IH]; intros i vs w Hok.
  - simpl. destruct w. simpl. by rewrite !app_nil_r.
  - destruct Hok as (Hembed & Hwrite & Hrest).
    cbn [ingest_batches].
    erewrite bind_ok by reflexivity.
    erewrite bind_ok by (by apply send_batch_ok).
    rewrite IH by (simpl; by rewrite <- app_assoc in Hrest).
    cbn [store trace log history_after handle_after batch_lines concat].
    rewrite fmap_app, <- !app_assoc.
    replace (handle_after dir (Some (opened dir vs)) rest) with (Some (opened dir vs))
      by (by destruct rest).
    done.
Qed.

(** The loop stops at the first batch whose call fails. *)
Lemma ingest_batches_fails dir batch rest i total vs w e :
  batch_fails E dir (trace w) vs batch e →
  ∃ w',
    ingest_batches E dir (batch :: rest) i total vs w = (Raise e, w') ∧
    store w' = store w ∧
    log w' = log w ++ [batch_line i total batch] ∧
    (trace w' = trace w ++ opening dir vs ++ [EvEmbed (page_content <$> batch)] ∨
     trace w' = trace w ++ opening dir vs ++ batch_events batch).
Proof.
  intros Hfail.
  set (w1 := {| store := store w; trace := trace w;
                log := log w ++ [batch_line i total batch] |}).
  destruct (send_batch_fails dir batch vs w1 e Hfail) as (w' & Hrun & Hstore & Hlog & Htrace).
  exists w'. split; [|by rewrite Hstore, Hlog].
  cbn [ingest_batches].
  erewrite bind_ok by reflexivity.
  erewrite bind_raise by exact Hrun. done.
Qed.

Lemma ingest_batches_app dir pre post i total vs w :
  ingest_batches E dir (pre ++ post) i total vs w
  = match ingest_batches E dir pre i total vs w with
    | (Ok vs', w1) => ingest_batches E dir post (i + length pre) total vs' w1
    | other => other
    end.
Proof.
  revert i vs w. induction pre as [|batch pre IH]; intros i vs w.
  - simpl. by rewrite Nat.add_0_r.
  - rewrite <- app_comm_cons. cbn [ingest_batches].
    rewrite !(bind_ok (logging _ _) _ w tt _ eq_refl).
    match goal with
    | |- (?m ≫= _) ?w1 = _ => destruct (m w1) as [[v2|e2|n2|b2] w2] eqn:Hm
    end.
    + rewrite !(bind_ok _ _ _ _ _ Hm), IH. simpl length.
      by replace (i + 1 + length pre) with (i + S (length pre)) by lia.
    + by rewrite !(bind_raise _ _ _ _ _ Hm).
    + by rewrite !(bind_exit _ _ _ _ _ Hm).
    + by rewrite !(bind_escape _ _ _ _ _ Hm).
Qed.

(** *** Loading the corpus *)

(** One file, whatever the loader answers: an [Exception] is logged and
    gives no chunk, an interrupt passes through the handler. *)
Lemma load_and_split_pdf_run pdf_path ts w :
  load_and_split_pdf E pdf_path ts w
  = (match pdf_load_and_split E (path_str pdf_path) ts with
     | Interrupted b => Escape b
     | _ => Ok (chunks_of E ts pdf_path)
     end,
     {| store := store w;
        trace := trace w ++ [EvLoadPdf (path_str pdf_path)];
        log := log w ++ load_lines E ts pdf_path |}).
Proof.
  unfold load_and_split_pdf, chunks_of, load_lines.
  destruct (pdf_load_and_split E (path_str pdf_path) ts) as [pages|e|b] eqn:Hload.
  - erewrite try_except_ok; [done|].
    erewrite bind_ok by reflexivity. erewrite bind_ok by reflexivity.
    erewrite bind_ok by reflexivity. erewrite bind_ok by reflexivity.
    simpl. by rewrite <- app_assoc.
  - erewrite try_except_raise.
    2:{ erewrite bind_ok by reflexivity. erewrite bind_ok by reflexivity.
        erewrite bind_raise by reflexivity. done. }
    erewrite bind_ok by reflexivity. simpl. by rewrite <- app_assoc.
  - erewrite try_except_escape; [done|].
    erewrite bind_ok by reflexivity. erewrite bind_ok by reflexivity.
    erewrite bind_escape by reflexivity. done.
Qed.

Lemma loads_complete_cons ts pdf_path rest :
  loads_complete E ts (pdf_path :: rest) →
  (∀ b, pdf_load_and_split E (path_str pdf_path) ts ≠ Interrupted b) ∧
  loads_complete E ts rest.
Proof.
  intros Hall. split.
  - intros b. apply Hall, list_elem_of_here.
  - intros p b Hp. by apply Hall, list_elem_of_further.
Qed.

Lemma load_all_run pdf_files ts acc w :
  loads_complete E ts pdf_files →
  load_all E pdf_files ts acc w
  = (Ok (acc ++ corpus_chunks E ts pdf_files),
     {| store := store w;
        trace := trace w ++ (EvLoadPdf ∘ path_str <$> pdf_files);
        log := log w ++ concat (load_lines E ts <$> pdf_files) |}).
Proof.
  revert acc w. induction pdf_files as [|pdf_path rest IH]; intros acc w Hall.
  - destruct w. unfold corpus_chunks. simpl. by rewrite !app_nil_r.
  - apply loads_complete_cons in Hall as [Hfirst Hrest].
    cbn [load_all].
    erewrite bind_ok.
    2:{ rewrite load_and_split_pdf_run.
        destruct (pdf_load_and_split E (path_str pdf_path) ts) as [pages|e|b];
          [reflexivity | reflexivity | by destruct (Hfirst b)]. }
    rewrite IH by done. unfold corpus_chunks. rewrite !fmap_cons. simpl.
    by rewrite <- !app_assoc.
Qed.

(** *** Counting calls *)

Lemma embed_calls_app h1 h2 : embed_calls (h1 ++ h2) = embed_calls h1 + embed_calls h2.
Proof. unfold embed_calls. by rewrite List.filter_app, length_app. Qed.
Lemma append_calls_app h1 h2 : append_calls (h1 ++ h2) = append_calls h1 + append_calls h2.
Proof. unfold append_calls. by rewrite List.filter_app, length_app. Qed.
Lemma open_calls_app h1 h2 : open_calls (h1 ++ h2) = open_calls h1 + open_calls h2.
Proof. unfold open_calls. by rewrite List.filter_app, length_app. Qed.
Lemma load_calls_app h1 h2 : load_calls (h1 ++ h2) = load_calls h1 + load_calls h2.
Proof. unfold load_calls. by rewrite List.filter_app, length_app. Qed.

Lemma calls_of_loads pdf_files :
  let h := EvLoadPdf ∘ path_str <$> pdf_files in
  embed_calls h = 0 ∧ append_calls h = 0 ∧ open_calls h = 0 ∧
  load_calls h = length pdf_files.
Proof.
  induction pdf_files as [|p rest IH]; [done|].
  destruct IH as (? & ? & ? & ?). cbn. unfold load_calls in *. cbn. auto.
Qed.

Lemma history_after_opened dir h v batches :
  history_after dir h (Some v) batches = h ++ concat (batch_events <$> batches).
Proof.
  revert h. induction batches as [|batch rest IH]; intros h; simpl.
  - by rewrite app_nil_r.
  - rewrite IH. by rewrite <- !app_assoc.
Qed.

Lemma history_after_unfold dir h vs batches :
  history_after dir h vs batches
  = h ++ (if batches is [] then [] else opening dir vs) ++ concat (batch_events <$> batches).
Proof.
  destruct batches as [|batch rest]; simpl.
  - by rewrite app_nil_r.
  - rewrite history_after_opened. by rewrite <- !app_assoc.
Qed.

Lemma calls_of_batches batches :
  let h := concat (batch_events <$> batches) in
  embed_calls h = length batches ∧ append_calls h = length batches ∧
  open_calls h = 0 ∧ load_calls h = 0.
Proof.
  induction batches as [|batch rest IH]; [done|].
  destruct IH as (? & ? & ? & ?).
  cbn. unfold embed_calls, append_calls, open_calls, load_calls in *. cbn. auto.
Qed.

Lemma reliable_batches_succeed dir h vs batches :
  reliable E → batches_succeed E dir h vs batches.
Proof.
  intros [Hembed Hwrite]. revert h vs.
  induction batches as [|batch rest IH]; intros h vs; simpl; auto.
Qed.

(** *** The stages of [ingest_documents] *)

Lemma logging_run lv msg w : logging lv msg w = (Ok tt, logged [(lv, msg)] w).
Proof. done. Qed.

Lemma logged_logged l1 l2 w : logged l2 (logged l1 w) = logged (l1 ++ l2) w.
Proof. unfold logged. simpl. by rewrite <- app_assoc. Qed.

(** The [try] wrapper: a normal end is passed on, an exception is logged
    and raised again. *)
Lemma ingest_documents_unfold w :
  ingest_documents E w
  = match ingest_body E (logged [(INFO, "Starting document ingestion process...")] w) with
    | (Raise e, w') => (Raise e, logged [(ERROR, "Ingestion failed: " +:+ exn_msg e)] w')
    | other => other
    end.
Proof.
  unfold ingest_documents. erewrite bind_ok by apply logging_run.
  unfold try_except. destruct (ingest_body E _) as [[[]|e|n|b] w']; try done.
Qed.

(** Up to the batching: with a configuration, a listing, a splitter and
    at least one chunk, the body reaches [embed_and_store] with every file
    loaded. *)
Lemma ingest_body_loads cfg pdf_files ts w :
  load_environment E = Returns cfg →
  docs_listing E "docs" = Some pdf_files →
  splitter_init E (chunk_size cfg) (chunk_overlap cfg) = Returns ts →
  loads_complete E ts pdf_files →
  corpus_chunks E ts pdf_files ≠ [] →
  ∃ lines,
    ingest_body E w
    = embed_and_store E cfg (corpus_chunks E ts pdf_files)
        {| store := store w;
           trace := trace w ++ (EvLoadPdf ∘ path_str <$> pdf_files);
           log := log w ++ lines |}.
Proof.
  intros Henv Hls Hts Hloads Hchunks. unfold ingest_body. rewrite Henv.
  erewrite bind_ok by reflexivity. erewrite bind_ok by apply logging_run.
  unfold find_pdf_files. rewrite Hls.
  erewrite bind_ok.
  2:{ erewrite bind_ok by apply logging_run. reflexivity. }
  destruct pdf_files as [|p rest]; [done|].
  rewrite Hts. erewrite bind_ok by reflexivity.
  erewrite bind_ok by (by apply load_all_run).
  simpl app at 1.
  destruct (corpus_chunks E ts (p :: rest)) as [|d ds] eqn:Hc; [done|].
  eexists. unfold logged. cbn [store trace log]. rewrite <- !app_assoc. reflexivity.
Qed.

Lemma batches_nonempty {A} (documents : list A) (batch_size : Z) (bs : list (list A)) :
  process_documents_in_batches documents batch_size = Returns bs →
  bs ≠ [] → documents ≠ [].
Proof.
  unfold process_documents_in_batches. intros Hb Hne ->.
  repeat case_decide; simplify_eq/=; done.
Qed.

Lemma embed_and_store_ok cfg documents batches w :
  storage_ready E cfg →
  process_documents_in_batches documents (batch_size cfg) = Returns batches →
  batches ≠ [] →
  batches_succeed E (persist_dir cfg) (trace w ++ [EvMakedirs (persist_dir cfg)]) None batches →
  ∃ lines,
    embed_and_store E cfg documents w
    = (Ok tt,
       {| store := store w ++ (record_of <$> concat batches);
          trace := history_after (persist_dir cfg)
                     (trace w ++ [EvMakedirs (persist_dir cfg)]) None batches ++ [EvPersist];
          log := log w ++ lines |}).
Proof.
  intros [[Hclient Hdir] Hpersist] Hb Hne Hok. unfold embed_and_store, create_embeddings.
  erewrite bind_ok by apply logging_run.
  rewrite Hclient. erewrite bind_ok by reflexivity.
  erewrite bind_ok by apply logging_run.
  erewrite bind_ok by reflexivity.
  rewrite Hdir. erewrite bind_ok by reflexivity.
  rewrite Hb. erewrite bind_ok by reflexivity. erewrite bind_ok by apply logging_run.
  erewrite bind_ok by (apply ingest_batches_ok; exact Hok).
  destruct batches as [|batch rest]; [done|]. cbn [handle_after].
  erewrite bind_ok by reflexivity. erewrite bind_ok by reflexivity.
  rewrite Hpersist. erewrite bind_ok by reflexivity.
  erewrite bind_ok by apply logging_run.
  eexists. unfold logging, modify, logged. simpl. rewrite <- !app_assoc. reflexivity.
Qed.

Lemma embed_and_store_fails cfg documents pre batch post e w :
  let dir := persist_dir cfg in
  let h0 := trace w ++ [EvMakedirs dir] in
  storage_opens E cfg →
  process_documents_in_batches documents (batch_size cfg) = Returns (pre ++ batch :: post) →
  batches_succeed E dir h0 None pre →
  batch_fails E dir (history_after dir h0 None pre) (handle_after dir None pre) batch e →
  ∃ lines w',
    embed_and_store E cfg documents w = (Raise e, w') ∧
    store w' = store w ++ (record_of <$> concat pre) ∧
    log w' = log w ++ lines ++ [batch_line (length pre) (length (pre ++ batch :: post)) batch] ∧
    (trace w' = history_after dir h0 None pre ++ opening dir (handle_after dir None pre)
                ++ [EvEmbed (page_content <$> batch)] ∨
     trace w' = history_after dir h0 None pre ++ opening dir (handle_after dir None pre)
                ++ batch_events batch).
Proof.
  intros dir h0 [Hclient Hdir] Hb Hok Hfail. unfold embed_and_store, create_embeddings.
  erewrite bind_ok by apply logging_run.
  rewrite Hclient. erewrite bind_ok by reflexivity.
  erewrite bind_ok by apply logging_run.
  erewrite bind_ok by reflexivity.
  rewrite Hdir. erewrite bind_ok by reflexivity.
  rewrite Hb. erewrite bind_ok by reflexivity. erewrite bind_ok by apply logging_run.
  set (total := length (pre ++ batch :: post)).
  match goal with
  | |- ∃ lines w', (ingest_batches _ _ _ _ _ _ ≫= _) ?w1 = _ ∧ _ => set (wb := w1)
  end.
  pose proof (ingest_batches_ok dir pre 0 total None wb Hok) as Hpre.
  match type of Hpre with _ = (_, ?w2) => set (wp := w2) in * end.
  destruct (ingest_batches_fails dir batch post (0 + length pre) total
              (handle_after dir None pre) wp e Hfail)
    as (w' & Hrun & Hstore & Hlog & Htrace).
  exists ([(INFO, "Total documents to process: " +:+ pretty (length documents));
           (INFO, "Embeddings model initialized");
           (INFO, "Processing " +:+ pretty total +:+ " batches...")]
          ++ batch_lines 0 total pre), w'.
  split; [|split; [|split]].
  - erewrite bind_raise; [done|].
    rewrite ingest_batches_app. fold dir. rewrite Hpre. exact Hrun.
  - rewrite Hstore. done.
  - rewrite Hlog. subst wp wb. unfold logged. simpl. by rewrite <- !app_assoc.
  - exact Htrace.
Qed.

Lemma ingest_body_no_chunks cfg pdf_files ts w :
  load_environment E = Returns cfg →
  docs_listing E "docs" = Some pdf_files →
  splitter_init E (chunk_size cfg) (chunk_overlap cfg) = Returns ts →
  loads_complete E ts pdf_files →
  corpus_chunks E ts pdf_files = [] →
  ∃ lines,
    ingest_body E w
    = (Ok tt, {| store := store w;
                 trace := trace w ++ (EvLoadPdf ∘ path_str <$> pdf_files);
                 log := log w ++ lines |}).
Proof.
  intros Henv Hls Hts Hloads Hchunks. unfold ingest_body. rewrite Henv.
  erewrite bind_ok by reflexivity. erewrite bind_ok by apply logging_run.
  unfold find_pdf_files. rewrite Hls.
  erewrite bind_ok.
  2:{ erewrite bind_ok by apply logging_run. reflexivity. }
  destruct pdf_files as [|p rest].
  - eexists. unfold logging, modify, logged. simpl.
    rewrite app_nil_r, <- !app_assoc. reflexivity.
  - rewrite Hts. erewrite bind_ok by reflexivity.
    erewrite bind_ok by (by apply load_all_run).
    rewrite Hchunks. simpl app at 1.
    eexists. unfold logging, modify, logged. simpl. rewrite <- !app_assoc. reflexivity.
Qed.

End IngestRun.

(** ** Claims about ingestion *)

Section IngestClaims.
Import Ingest.
Context (E : Externals).

Local Arguments String.app : simpl never.
Local Arguments pretty : simpl never.

(** [ceil_div m b] is the least number of batches of [b] that hold [m]
    chunks. *)
Lemma ceil_div_least m b :
  0 < b → m ≤ ceil_div m b * b ∧ ∀ k, m ≤ k * b → ceil_div m b ≤ k.
Proof.
  intros Hb. unfold ceil_div. split.
  - pose proof (Nat.div_mod (m + b - 1) b ltac:(lia)) as Hdm.
    pose proof (Nat.mod_upper_bound (m + b - 1) b ltac:(lia)). nia.
  - intros k Hk. apply Nat.lt_succ_r, Nat.Div0.div_lt_upper_bound. nia.
Qed.

Ltac count_calls :=
  repeat first
    [ rewrite embed_calls_app | rewrite append_calls_app
    | rewrite open_calls_app | rewrite load_calls_app ].

(** A whole run against a backend that answers every call. *)
Lemma ingest_documents_reliable w cfg pdf_files ts :
  load_environment E = Returns cfg →
  (0 < batch_size cfg)%Z →
  docs_listing E "docs" = Some pdf_files →
  splitter_init E (chunk_size cfg) (chunk_overlap cfg) = Returns ts →
  loads_complete E ts pdf_files →
  storage_ready E cfg →
  reliable E →
  ∃ w' batches,
    process_documents_in_batches (corpus_chunks E ts pdf_files) (batch_size cfg)
    = Returns batches ∧
    length batches
    = ceil_div (length (corpus_chunks E ts pdf_files)) (Z.to_nat (batch_size cfg)) ∧
    ingest_documents E w = (Ok tt, w') ∧
    store w' = store w ++ (record_of <$> corpus_chunks E ts pdf_files) ∧
    trace w'
    = trace w ++ (EvLoadPdf ∘ path_str <$> pdf_files)
      ++ (if batches is [] then []
          else [EvMakedirs (persist_dir cfg);
                EvOpenCollection "pdf_knowledge" (persist_dir cfg)]
               ++ concat (batch_events <$> batches) ++ [EvPersist]).
Proof.
  intros Henv Hpos Hls Hts Hloads Hready Hrel.
  rewrite ingest_documents_unfold.
  destruct (process_documents_in_batches_positive (corpus_chunks E ts pdf_files)
              (batch_size cfg) Hpos) as (batches & Hbatches & Hconcat & Hlen & _).
  destruct (corpus_chunks E ts pdf_files) as [|d ds] eqn:Hchunks.
  - edestruct ingest_body_no_chunks as [lines ->]; try done.
    cbn [length] in Hlen. rewrite ceil_div_0 in Hlen by lia.
    destruct batches as [|batch rest]; [|done].
    eexists _, []. repeat split; try done; cbn [trace store logged fmap list_fmap length].
    + rewrite ceil_div_0; [done | lia].
    + by rewrite app_nil_r.
    + by rewrite app_nil_r.
  - edestruct ingest_body_loads as [lines ->]; try done; [by rewrite Hchunks|].
    rewrite Hchunks.
    assert (batches ≠ []) as Hne by (intros ->; done).
    edestruct embed_and_store_ok as [lines' ->]; try done.
    { by apply reliable_batches_succeed. }
    eexists _, batches. repeat split; try done; cbn [trace store logged].
    + by rewrite Hconcat.
    + rewrite history_after_unfold.
      destruct batches as [|batch rest]; [done|]. cbn [opening].
      by rewrite <- !app_assoc.
Qed.

(** C1. With a positive batch size B, when no load is interrupted, the
    embeddings client can be built, the directory of the database made
    and the database persisted, and the gateway and the collection answer
    every call, ingesting a corpus whose files give M chunks in all makes
    ceil(M/B) calls to the embedding gateway and ceil(M/B) writes to the
    collection, one of each per batch: the collection is opened once,
    before the first batch, and each batch is embedded and then written,
    in order.  The store ends with M more records than it held. *)
Theorem ingestion_call_counts w cfg pdf_files ts :
  load_environment E = Returns cfg →
  (0 < batch_size cfg)%Z →
  docs_listing E "docs" = Some pdf_files →
  splitter_init E (chunk_size cfg) (chunk_overlap cfg) = Returns ts →
  loads_complete E ts pdf_files →
  storage_ready E cfg →
  reliable E →
  ∃ w' batches,
    ingest_documents E w = (Ok tt, w') ∧
    process_documents_in_batches (corpus_chunks E ts pdf_files) (batch_size cfg)
    = Returns batches ∧
    length batches
    = ceil_div (length (corpus_chunks E ts pdf_files)) (Z.to_nat (batch_size cfg)) ∧
    embed_calls (trace w') = embed_calls (trace w) + length batches ∧
    append_calls (trace w') = append_calls (trace w) + length batches ∧
    open_calls (trace w') = open_calls (trace w) + (if batches is [] then 0 else 1) ∧
    trace w'
    = trace w ++ (EvLoadPdf ∘ path_str <$> pdf_files)
      ++ (if batches is [] then []
          else [EvMakedirs (persist_dir cfg);
                EvOpenCollection "pdf_knowledge" (persist_dir cfg)]
               ++ concat (batch_events <$> batches) ++ [EvPersist]) ∧
    length (store w') = length (corpus_chunks E ts pdf_files) + length (store w).
Proof.
  intros Henv Hpos Hls Hts Hloads Hready Hrel.
  destruct (ingest_documents_reliable w cfg pdf_files ts)
    as (w' & batches & Hbatches & Hlen & Hrun & Hstore & Htrace); try done.
  exists w', batches. do 3 (split; [done|]).
  destruct (calls_of_loads pdf_files) as (Hl1 & Hl2 & Hl3 & _).
  destruct (calls_of_batches batches) as (Hb1 & Hb2 & Hb3 & _).
  rewrite Hstore, length_app, length_fmap.
  split; [|split; [|split; [|split; [done | lia]]]]; rewrite Htrace.
  - destruct batches as [|batch rest].
    + rewrite app_nil_r. count_calls. rewrite Hl1. simpl. lia.
    + count_calls. rewrite Hl1, Hb1. cbn. lia.
  - destruct batches as [|batch rest].
    + rewrite app_nil_r. count_calls. rewrite Hl2. simpl. lia.
    + count_calls. rewrite Hl2, Hb2. cbn. lia.
  - destruct batches as [|batch rest].
    + rewrite app_nil_r. count_calls. rewrite Hl3. simpl. lia.
    + count_calls. rewrite Hl3, Hb3. cbn. lia.
Qed.

(** C2. For a positive batch size and a backend that answers every call,
    the batches concatenate to the chunk sequence, and writing them in
    order leaves the store with the same records, in the same order, as
    one call on the whole sequence: the records found, then one record
    per chunk. *)
Theorem batching_preserves_content dir documents (B : Z) w :
  (0 < B)%Z →
  reliable E →
  ∃ batches vs w_batched vs1 w_single,
    process_documents_in_batches documents B = Returns batches ∧
    concat batches = documents ∧
    ingest_batches E dir batches 0 (length batches) None w = (Ok vs, w_batched) ∧
    ingest_unbatched E dir documents w = (Ok vs1, w_single) ∧
    store w_batched = store w_single ∧
    store w_single = store w ++ (record_of <$> documents).
Proof.
  intros Hpos Hrel.
  destruct (process_documents_in_batches_positive documents B Hpos)
    as (batches & Hbatches & Hconcat & _).
  exists batches. do 4 eexists. split; [done|]. split; [done|].
  split; [|split; [|split]].
  - apply ingest_batches_ok. by apply reliable_batches_succeed.
  - unfold ingest_unbatched.
    apply (send_batch_ok E dir documents None w); apply Hrel.
  - cbn [store]. by rewrite Hconcat.
  - done.
Qed.

(** C4. A file whose loading fails with an [Exception] contributes no
    chunk and stops nothing: [load_and_split_pdf] returns the empty list
    for it and logs the error; the loop over the files still loads every
    file after it and collects the chunks of all the others; and a run in
    which nothing else fails ends normally with the chunks of the other
    files stored.  Only what is no [Exception], such as an interrupt from
    the keyboard, passes through the handler and ends the run. *)
Theorem failed_document_is_skipped ts before bad after e acc w :
  pdf_load_and_split E (path_str bad) ts = Throws e →
  loads_complete E ts (before ++ after) →
  (∃ w1,
     load_and_split_pdf E bad ts w = (Ok [], w1) ∧
     store w1 = store w ∧
     log w1 = log w ++ [(INFO, "Processing " +:+ name bad +:+ "...");
                        (ERROR, "Error processing " +:+ name bad +:+ ": " +:+ exn_msg e)]) ∧
  (∃ w',
     load_all E (before ++ bad :: after) ts acc w
     = (Ok (acc ++ corpus_chunks E ts before ++ corpus_chunks E ts after), w') ∧
     store w' = store w ∧
     trace w' = trace w ++ (EvLoadPdf ∘ path_str <$> before)
                ++ [EvLoadPdf (path_str bad)] ++ (EvLoadPdf ∘ path_str <$> after)) ∧
  (∀ cfg,
     load_environment E = Returns cfg →
     (0 < batch_size cfg)%Z →
     docs_listing E "docs" = Some (before ++ bad :: after) →
     splitter_init E (chunk_size cfg) (chunk_overlap cfg) = Returns ts →
     storage_ready E cfg →
     reliable E →
     ∃ w',
       ingest_documents E w = (Ok tt, w') ∧
       store w'
       = store w ++ (record_of <$> corpus_chunks E ts before ++ corpus_chunks E ts after)) ∧
  (∀ pdf_path b,
     pdf_load_and_split E (path_str pdf_path) ts = Interrupted b →
     (load_and_split_pdf E pdf_path ts w).1 = Escape b).
Proof.
  intros Hbad Hothers.
  assert (chunks_of E ts bad = []) as Hnone by (unfold chunks_of; by rewrite Hbad).
  assert (corpus_chunks E ts (before ++ bad :: after)
          = corpus_chunks E ts before ++ corpus_chunks E ts after) as Hchunks.
  { unfold corpus_chunks. rewrite fmap_app, fmap_cons, concat_app. simpl.
    by rewrite Hnone. }
  assert (loads_complete E ts (before ++ bad :: after)) as Hloads.
  { intros p b [Hp|[->|Hp]%elem_of_cons]%elem_of_app.
    - apply Hothers, elem_of_app. by left.
    - by rewrite Hbad.
    - apply Hothers, elem_of_app. by right. }
  split; [|split; [|split]].
  - eexists. rewrite load_and_split_pdf_run, Hnone, Hbad. split; [reflexivity|].
    split; [done|]. unfold load_lines. by rewrite Hbad.
  - eexists. rewrite load_all_run by done. split; [|split].
    + rewrite Hchunks. reflexivity.
    + done.
    + cbn [trace]. by rewrite fmap_app, fmap_cons.
  - intros cfg Henv Hpos Hls Hts Hready Hrel.
    destruct (ingest_documents_reliable w cfg (before ++ bad :: after) ts)
      as (w' & batches & _ & _ & Hrun & Hstore & _); try done.
    exists w'. split; [done|]. by rewrite Hstore, Hchunks.
  - intros pdf_path b Hint. by rewrite load_and_split_pdf_run, Hint.
Qed.

(** C3 (as amended). When the files were loaded, the embeddings client
    built and the directory made, the prior batches succeeded, and the
    embedding call or the write of the next batch fails with an
    [Exception] [e], the run stops there: [ingest_documents] raises that same [e], no call is made for
    any later batch, the records of the prior batches stay in the store,
    and the log ends with the progress line of the failing batch
    ("Processing batch k/n ...") followed by "Ingestion failed: ...".
    Nothing else is reported: the function yields no value. *)
Theorem batch_failure_aborts_run w cfg pdf_files ts pre batch post e :
  load_environment E = Returns cfg →
  docs_listing E "docs" = Some pdf_files →
  splitter_init E (chunk_size cfg) (chunk_overlap cfg) = Returns ts →
  loads_complete E ts pdf_files →
  storage_opens E cfg →
  process_documents_in_batches (corpus_chunks E ts pdf_files) (batch_size cfg)
  = Returns (pre ++ batch :: post) →
  batches_succeed E (persist_dir cfg)
    (trace w ++ (EvLoadPdf ∘ path_str <$> pdf_files) ++ [EvMakedirs (persist_dir cfg)])
    None pre →
  batch_fails E (persist_dir cfg)
    (history_after (persist_dir cfg)
       (trace w ++ (EvLoadPdf ∘ path_str <$> pdf_files) ++ [EvMakedirs (persist_dir cfg)])
       None pre)
    (handle_after (persist_dir cfg) None pre) batch e →
  ∃ w' lines,
    ingest_documents E w = (Raise e, w') ∧
    store w' = store w ++ (record_of <$> concat pre) ∧
    embed_calls (trace w') = embed_calls (trace w) + length pre + 1 ∧
    append_calls (trace w) + length pre ≤ append_calls (trace w')
      ≤ append_calls (trace w) + length pre + 1 ∧
    log w' = log w ++ lines
             ++ [batch_line (length pre) (length (pre ++ batch :: post)) batch;
                 (ERROR, "Ingestion failed: " +:+ exn_msg e)].
Proof.
  intros Henv Hls Hts Hloads Hopens Hbatches Hok Hfail.
  assert (corpus_chunks E ts pdf_files ≠ []) as Hchunks.
  { eapply batches_nonempty; [exact Hbatches|]. by destruct pre. }
  rewrite ingest_documents_unfold.
  edestruct ingest_body_loads as [lines ->]; try done.
  rewrite app_assoc in Hok, Hfail.
  match goal with
  | |- context [embed_and_store E cfg _ ?w1] =>
      destruct (embed_and_store_fails E cfg (corpus_chunks E ts pdf_files)
                  pre batch post e w1 Hopens Hbatches Hok Hfail)
        as (lines' & w' & -> & Hstore & Hlog & Htrace)
  end.
  cbn [store trace log logged] in *.
  eexists _, ([(INFO, "Starting document ingestion process...")] ++ lines ++ lines').
  split; [reflexivity|].
  cbn [store trace log logged].
  destruct (calls_of_loads pdf_files) as (Hl1 & Hl2 & _).
  destruct (calls_of_batches pre) as (Hb1 & Hb2 & _).
  rewrite history_after_unfold in Htrace.
  split; [done|]. split; [|split].
  - destruct Htrace as [-> | ->]; destruct pre; cbn [handle_after opening batch_events];
      count_calls; rewrite ?Hl1, ?Hb1; cbn; lia.
  - destruct Htrace as [-> | ->]; destruct pre; cbn [handle_after opening batch_events];
      count_calls; rewrite ?Hl2, ?Hb2; cbn; lia.
  - rewrite Hlog. by rewrite <- !app_assoc.
Qed.

(** C5 (as amended). The scripts make no check of their own; the one
    check is the splitter constructor's, which refuses an overlap larger
    than the size.  With such a configuration and at least one PDF in
    [docs/], the run raises the constructor's [ValueError] before any file
    is loaded: the store and the history of calls are as they were. *)
Theorem oversized_overlap_fails_fast w cfg pdf_files :
  load_environment E = Returns cfg →
  docs_listing E "docs" = Some pdf_files →
  pdf_files ≠ [] →
  (∀ cs co, splitter_init E cs co = TextSplitter_init cs co) →
  (chunk_overlap cfg > chunk_size cfg)%Z →
  ∃ w' msg,
    ingest_documents E w = (Raise (ValueError msg), w') ∧
    store w' = store w ∧
    trace w' = trace w ∧
    last (log w') = Some (ERROR, "Ingestion failed: " +:+ msg).
Proof.
  intros Henv Hls Hne Hinit Hgt.
  rewrite ingest_documents_unfold. unfold ingest_body. rewrite Henv.
  erewrite bind_ok by reflexivity. erewrite bind_ok by apply logging_run.
  unfold find_pdf_files. rewrite Hls.
  erewrite bind_ok.
  2:{ erewrite bind_ok by apply logging_run. reflexivity. }
  destruct pdf_files as [|p rest]; [done|].
  rewrite Hinit. unfold TextSplitter_init.
  destruct (decide (chunk_overlap cfg > chunk_size cfg)%Z); [|done].
  erewrite bind_raise by reflexivity.
  eexists _, _. split; [reflexivity|]. cbn [store trace log logged].
  split; [done|]. split; [done|]. by rewrite last_snoc.
Qed.

(** C6 (as amended). Every chunk that [load_and_split_pdf] returns for a
    file carries its 1-based position under ["page_number"], the
    identifier [<stem>_page_<position>] under ["chunk_id"], and the file's
    name and path. *)
Theorem chunk_identifier_format pdf_path ts w chunks w' i doc :
  load_and_split_pdf E pdf_path ts w = (Ok chunks, w') →
  chunks !! i = Some doc →
  metadata doc !! "page_number" = Some (VInt (Z.of_nat (i + 1))) ∧
  metadata doc !! "chunk_id"
  = Some (VStr (stem pdf_path +:+ "_page_" +:+ pretty (i + 1))) ∧
  metadata doc !! "filename" = Some (VStr (name pdf_path)) ∧
  metadata doc !! "source_path" = Some (VStr (path_str pdf_path)).
Proof.
  rewrite load_and_split_pdf_run. unfold chunks_of.
  destruct (pdf_load_and_split E (path_str pdf_path) ts) as [pages|e|b];
    intros [= <- _]; [|done].
  rewrite list_lookup_imap. destruct (pages !! i) as [page|]; [|done].
  intros [= <-]. unfold tag_page. cbn [metadata].
  repeat split; by simplify_map_eq.
Qed.

End IngestClaims.

(** ** First-seen deduplication *)

Section FirstSeen.
Import Chat.
Context {A K : Type} `{EqDecision K} (key : A → K).
Implicit Types (l : list A) (seen : list K).

Lemma first_seen_sublist seen l : first_seen key seen l `sublist_of` l.
Proof.
  revert seen. induction l as [|x l IH]; intros seen; simpl; [done|].
  case_decide; [apply sublist_cons | apply sublist_skip]; apply IH.
Qed.

Lemma first_seen_Forall (P : A → Prop) seen l :
  Forall P l → Forall P (first_seen key seen l).
Proof.
  intros Hl. revert seen. induction Hl as [|x l Hx Hl IH]; intros seen; simpl; [done|].
  case_decide; [apply IH | constructor; [done | apply IH]].
Qed.

Lemma first_seen_keys seen l x :
  x ∈ l → key x ∈ seen ∨ key x ∈ key <$> first_seen key seen l.
Proof.
  revert seen. induction l as [|y l IH]; intros seen Hx; [by apply elem_of_nil in Hx|].
  apply elem_of_cons in Hx as [->|Hx]; simpl.
  - case_decide; [by left|]. right. rewrite fmap_cons. apply elem_of_cons. by left.
  - case_decide; [by apply IH|].
    destruct (IH (key y :: seen) Hx) as [Hin|Hin].
    + apply elem_of_cons in Hin as [Heq|Hin]; [|by left].
      right. rewrite fmap_cons, Heq. apply elem_of_cons. by left.
    + right. rewrite fmap_cons. apply elem_of_cons. by right.
Qed.

Lemma first_seen_fresh seen l x : x ∈ first_seen key seen l → key x ∉ seen.
Proof.
  revert seen. induction l as [|y l IH]; intros seen; simpl; [by intros ?%elem_of_nil|].
  case_decide as Hy; [apply IH|].
  intros [->|Hx]%elem_of_cons; [done|].
  apply IH in Hx. intros Hin. apply Hx, elem_of_cons. by right.
Qed.

Lemma first_seen_NoDup seen l : NoDup (key <$> first_seen key seen l).
Proof.
  revert seen. induction l as [|x l IH]; intros seen; simpl; [constructor|].
  case_decide; [apply IH|]. rewrite fmap_cons. constructor; [|apply IH].
  intros (y & Heq & Hy)%list_elem_of_fmap.
  apply first_seen_fresh in Hy. apply Hy. rewrite <- Heq. apply elem_of_cons. by left.
Qed.

(** A sequence with no repeated key and no key seen before is kept as it
    is. *)
Lemma first_seen_id seen l :
  NoDup (key <$> l) → (∀ x, x ∈ l → key x ∉ seen) → first_seen key seen l = l.
Proof.
  revert seen. induction l as [|x l IH]; intros seen Hnd Hfresh; simpl; [done|].
  rewrite fmap_cons in Hnd. apply NoDup_cons in Hnd as [Hx Hnd].
  case_decide as Hin.
  - exfalso. eapply Hfresh; [|exact Hin]. apply elem_of_cons. by left.
  - f_equal. apply IH; [done|].
    intros y Hy [Heq|Hseen]%elem_of_cons.
    + apply Hx. rewrite <- Heq. by apply list_elem_of_fmap_2.
    + eapply Hfresh; [|exact Hseen]. apply elem_of_cons. by right.
Qed.

Lemma first_seen_idemp seen l :
  first_seen key seen (first_seen key seen l) = first_seen key seen l.
Proof.
  apply first_seen_id; [apply first_seen_NoDup|].
  intros x Hx. by eapply first_seen_fresh.
Qed.

(** Two keys that tell the same elements apart deduplicate alike. *)
Lemma first_seen_ext {K'} `{EqDecision K'} (key' : A → K') seen (seen' : list K') l :
  (∀ x y, x ∈ l → y ∈ l → key x = key y ↔ key' x = key' y) →
  (∀ x, x ∈ l → key x ∈ seen ↔ key' x ∈ seen') →
  first_seen key seen l = first_seen key' seen' l.
Proof.
  revert seen seen'. induction l as [|x l IH]; intros seen seen' Hkeys Hseen; simpl; [done|].
  assert (x ∈ x :: l) as Hx by (apply elem_of_cons; by left).
  assert (∀ y, y ∈ l → y ∈ x :: l) as Htl by (intros y ?; apply elem_of_cons; by right).
  destruct (decide (key x ∈ seen)) as [Hin|Hin], (decide (key' x ∈ seen')) as [Hin'|Hin'].
  - apply IH; auto.
  - by apply Hseen in Hin.
  - by apply Hseen in Hin'.
  - f_equal. apply IH; [auto|].
    intros y Hy. rewrite !elem_of_cons, (Hkeys y x), (Hseen y); auto.
Qed.

End FirstSeen.

(** ** Rendering a citation *)

Section Rendering.
Import Chat.

Local Abbreviation chars := String.list_ascii_of_string.

Lemma chars_app s1 s2 : chars (s1 +:+ s2) = chars s1 ++ chars s2.
Proof.
  induction s1 as [|a s1 IH]; [done|].
  change (String a s1 +:+ s2) with (String a (s1 +:+ s2)). simpl. by rewrite IH.
Qed.

Lemma chars_inj s1 s2 : chars s1 = chars s2 → s1 = s2.
Proof.
  intros Heq. rewrite <- (String.string_of_list_ascii_of_string s1),
    <- (String.string_of_list_ascii_of_string s2). by rewrite Heq.
Qed.

Lemma pretty_N_char_numeric x : numeric (pretty_N_char x).
Proof.
  unfold numeric, pretty_N_char.
  repeat case_match; simpl; repeat (first [by apply list_elem_of_here | apply list_elem_of_further]).
Qed.

Lemma pretty_N_go_numeric x s :
  Forall numeric (chars s) → Forall numeric (chars (pretty_N_go x s)).
Proof.
  revert s. induction (N.lt_wf_0 x) as [x _ IH]; intros s Hs.
  assert (x = 0 ∨ 0 < x)%N as [->|Hpos] by lia.
  - by rewrite pretty_N_go_0.
  - rewrite pretty_N_go_step by done. apply IH; [by apply N.div_lt|].
    simpl. constructor; [apply pretty_N_char_numeric | done].
Qed.

Lemma pretty_N_numeric (x : N) : Forall numeric (chars (pretty x)).
Proof.
  unfold pretty, pretty_N. case_decide.
  - repeat constructor.
  - apply pretty_N_go_numeric. constructor.
Qed.

Lemma pretty_Z_numeric (z : Z) : Forall numeric (chars (pretty z)).
Proof.
  destruct z as [|p|p]; unfold pretty, pretty_Z.
  - apply (pretty_N_numeric 0).
  - apply (pretty_N_numeric (Npos p)).
  - rewrite chars_app. apply Forall_app. split.
    + repeat constructor.
    + apply (pretty_N_numeric (Npos p)).
Qed.

(** A run of numeric characters ends at the first character that is not
    numeric: two such decompositions of one text agree. *)
Lemma numeric_run_unique (d1 d2 : list Ascii.ascii) x y r1 r2 :
  Forall numeric d1 → Forall numeric d2 → ¬ numeric x → ¬ numeric y →
  d1 ++ x :: r1 = d2 ++ y :: r2 → d1 = d2 ∧ r1 = r2.
Proof.
  intros H1. revert d2. induction H1 as [|c d1 Hc H1 IH]; intros d2 H2 Hx Hy Heq.
  - destruct H2 as [|c' d2 Hc' H2]; simplify_eq/=; done.
  - destruct H2 as [|c' d2 Hc' H2]; simplify_eq/=; [done|].
    destruct (IH d2 H2 Hx Hy) as [-> ->]; done.
Qed.

Lemma space_not_numeric : ¬ numeric " "%char.
Proof. unfold numeric. simpl. intros Hin. repeat (apply elem_of_cons in Hin as [?|Hin]; [done|]). by apply elem_of_nil in Hin. Qed.

(** Different (file name, page) pairs render differently. *)
Lemma render_citation_inj k1 k2 : render_citation k1 = render_citation k2 → k1 = k2.
Proof.
  destruct k1 as [f1 p1], k2 as [f2 p2]. unfold render_citation. simpl.
  intros Heq%(f_equal chars)%(f_equal reverse).
  rewrite !chars_app, !reverse_app in Heq. simpl in Heq.
  rewrite <- !app_assoc in Heq. simpl in Heq.
  injection Heq as Heq.
  apply numeric_run_unique in Heq as [Hp Hf];
    [| apply Forall_reverse, pretty_Z_numeric | apply Forall_reverse, pretty_Z_numeric
     | apply space_not_numeric | apply space_not_numeric].
  apply (inj reverse), chars_inj, (inj pretty) in Hp.
  injection Hf as Hf. apply (inj reverse), chars_inj in Hf.
  by subst.
Qed.

(** On a chunk that has a file name and a page number, the text that
    [format_sources] builds is the rendering of that pair. *)
Lemma source_info_render doc k :
  citation_key doc = Some k → source_info doc = render_citation k.
Proof.
  unfold citation_key, source_info, render_citation.
  destruct (metadata doc !! "filename") as [[f|]|]; try done.
  destruct (metadata doc !! "page_number") as [[|p]|]; try done.
  by intros [= <-].
Qed.

End Rendering.

(** ** Claims about citations *)

Section CitationClaims.
Import Chat Samples.

(** The loop of [format_sources], with its list and its set, computes
    the first-seen deduplication by the rendered text. *)
Lemma collect_citations_first_seen docs acc (seen : gset string) (seen_list : list string) :
  (∀ x, x ∈ seen_list ↔ x ∈ seen) →
  collect_citations docs acc seen
  = acc ++ (source_info <$> first_seen source_info seen_list docs).
Proof.
  revert acc seen seen_list.
  induction docs as [|doc docs IH]; intros acc seen seen_list Hseen; simpl.
  - by rewrite app_nil_r.
  - destruct (decide (source_info doc ∈ seen)) as [Hin|Hin],
      (decide (source_info doc ∈ seen_list)) as [Hin'|Hin'].
    + by apply IH.
    + by apply Hseen in Hin.
    + by apply Hseen in Hin'.
    + rewrite (IH _ _ (source_info doc :: seen_list)).
      * rewrite fmap_cons, <- app_assoc. done.
      * intros x. rewrite elem_of_cons, elem_of_union, elem_of_singleton, Hseen. done.
Qed.

Lemma keyed_same_source docs x y :
  keyed docs → x ∈ docs → y ∈ docs →
  source_info x = source_info y ↔ citation_key x = citation_key y.
Proof.
  intros Hkeyed Hx Hy.
  destruct (proj1 (Forall_forall _ _) Hkeyed x Hx) as [kx Hkx].
  destruct (proj1 (Forall_forall _ _) Hkeyed y Hy) as [ky Hky].
  rewrite (source_info_render x kx), (source_info_render y ky), Hkx, Hky by done.
  split; [by intros ->%render_citation_inj | by intros [= ->]].
Qed.

Lemma citations_by_key docs :
  keyed docs → citations docs = source_info <$> dedup_first citation_key docs.
Proof.
  intros Hkeyed. unfold citations, dedup_first.
  rewrite (collect_citations_first_seen docs [] ∅ []) by set_solver.
  simpl. f_equal. apply first_seen_ext; [|set_solver].
  intros x y Hx Hy. by apply (keyed_same_source docs).
Qed.

Lemma keyed_dedup_first docs : keyed docs → keyed (dedup_first citation_key docs).
Proof. unfold keyed, dedup_first. apply first_seen_Forall. Qed.

(** C8. The citations are the chunks deduplicated by their rendered
    text, first occurrence kept, in order; on retrieved chunks that carry
    a file name and a page number this is deduplication by the pair (file
    name, page), and no citation comes twice;
    formatting is idempotent (formatting the deduplicated sequence gives
    the same text, and a sequence without repeated pair loses nothing);
    and the chunks of [a.txt] page 1, [b.txt] page 2, [a.txt] page 1 are
    formatted as "a.txt (page 1), b.txt (page 2)" after the prefix. *)
Theorem citations_deduplicated docs :
  keyed docs →
  citations docs = source_info <$> dedup_first source_info docs ∧
  citations docs = source_info <$> dedup_first citation_key docs ∧
  NoDup (citations docs) ∧
  format_sources (dedup_first citation_key docs) = format_sources docs ∧
  (NoDup (citation_key <$> docs) → citations docs = source_info <$> docs) ∧
  format_sources [cited "a.txt" 1; cited "b.txt" 2; cited "a.txt" 1]
  = "Sources: " +:+ "a.txt (page 1), b.txt (page 2)".
Proof.
  intros Hkeyed.
  split; [unfold citations; by rewrite (collect_citations_first_seen docs [] ∅ []) by set_solver|].
  split; [by apply citations_by_key|]. split; [|split; [|split]].
  - unfold citations.
    rewrite (collect_citations_first_seen docs [] ∅ []) by set_solver. simpl.
    apply first_seen_NoDup.
  - destruct docs as [|doc docs]; [done|].
    unfold dedup_first at 1, format_sources. cbn [first_seen].
    destruct (decide (citation_key doc ∈ [])) as [Hin|_]; [by apply elem_of_nil in Hin|].
    fold (citations (doc :: docs)).
    change (collect_citations ?l [] ∅) with (citations l).
    rewrite (citations_by_key (doc :: docs)) by done.
    change (doc :: first_seen citation_key [citation_key doc] docs)
      with (dedup_first citation_key (doc :: docs)).
    rewrite citations_by_key by by apply keyed_dedup_first.
    unfold dedup_first. by rewrite first_seen_idemp.
  - intros Hnd. rewrite citations_by_key by done. unfold dedup_first.
    rewrite first_seen_id; [done | done |]. intros x _ Hin. by apply elem_of_nil in Hin.
  - vm_compute. reflexivity.
Qed.

(** C10. With no retrieved chunk the result is the fixed text
    "No sources found." (and not an empty list after the prefix); with at
    least one chunk the result starts with "Sources: ", followed by the
    citations joined by commas. *)
Theorem format_sources_prefix :
  format_sources [] = "No sources found." ∧
  format_sources [] ≠ "Sources: " ∧
  ∀ doc docs,
    format_sources (doc :: docs) = "Sources: " +:+ join ", " (citations (doc :: docs)) ∧
    citations (doc :: docs) ≠ [].
Proof.
  split; [done|]. split; [done|]. intros doc docs. split; [done|].
  unfold citations. cbn [collect_citations].
  destruct (decide (source_info doc ∈ (∅ : gset string))) as [Hin|_]; [set_solver|].
  rewrite (collect_citations_first_seen docs _ _ [source_info doc]) by set_solver.
  simpl. done.
Qed.

End CitationClaims.

(** ** Claims about the chat loop *)

Section ChatClaims.
Import Chat.
Context (E : Externals).
Implicit Types (w : World) (m : list Turn).

Lemma logging_run_chat lv msg w :
  logging lv msg w
  = (Ok tt, {| memory := memory w; stdout := stdout w;
               log := log w ++ [(lv, msg)]; trace := trace w |}).
Proof. done. Qed.

(** A query never looks at the collection: what [process_query] does
    depends on the chain and on the clock alone. *)
Lemma process_query_ignores_count (E' : Externals) chain question w :
  chain_run E' = chain_run E →
  response_time_2f E' = response_time_2f E →
  process_query E' chain question w = process_query E chain question w.
Proof.
  intros Hchain Hclock. unfold process_query, qa_chain. by rewrite Hchain, Hclock.
Qed.

(** C7 (as amended). The collection is counted once, when the chat
    starts.  When it then counts no record, [initialize_vectorstore]
    raises the error whose message tells to run [ingest.py] first;
    [chat_loop] prints it with the troubleshooting steps and exits with
    status 1 before the chain and its memory exist, so that whatever the
    console holds no question is read, the chain is never called and the
    memory is untouched.  A query itself makes no such check: what it
    does is the same whatever the collection counts. *)
Theorem empty_index_stops_startup inputs w cfg :
  load_environment E = Returns cfg →
  path_exists E (persist_dir cfg) = true →
  collection_count E (persist_dir cfg) = 0 →
  (∃ w1,
     initialize_vectorstore E cfg w
     = (Raise (ValueError ("No documents found in the knowledge base. "
                           +:+ "Please run ingest.py first to populate the database.")),
        w1)) ∧
  (∃ w',
     chat_loop E inputs w = (Exit 1, w') ∧
     memory w' = memory w ∧
     trace w' = trace w ++ [EvOpenCollection "pdf_knowledge" (persist_dir cfg); EvCount] ∧
     stdout w'
     = stdout w
       ++ [nl +:+ "❌ Failed to initialize chatbot: "
              +:+ ("No documents found in the knowledge base. "
                   +:+ "Please run ingest.py first to populate the database.");
           nl +:+ "Troubleshooting steps:";
           "1. Make sure you've run 'python ingest.py' first";
           "2. Check that your .env file contains a valid OPENAI_API_KEY";
           "3. Ensure the docs/ folder contains PDF files"]) ∧
  (∀ (E' : Externals) chain question w0,
     chain_run E' = chain_run E →
     response_time_2f E' = response_time_2f E →
     process_query E' chain question w0 = process_query E chain question w0).
Proof.
  intros Henv Hdir Hcount.
  assert (∀ w0, initialize_vectorstore E cfg w0
          = (Raise (ValueError ("No documents found in the knowledge base. "
                                +:+ "Please run ingest.py first to populate the database.")),
             {| memory := memory w0; stdout := stdout w0; log := log w0;
                trace := trace w0
                         ++ [EvOpenCollection "pdf_knowledge" (persist_dir cfg); EvCount] |}))
    as Hinit.
  { intros w0. unfold initialize_vectorstore. rewrite Hdir, Hcount. simpl.
    erewrite bind_ok by reflexivity. erewrite bind_ok by reflexivity.
    unfold raise. simpl. by rewrite <- app_assoc. }
  split; [eexists; apply Hinit|].
  split; [|intros E' chain question w0; apply process_query_ignores_count].
  unfold chat_loop. erewrite bind_ok by apply logging_run_chat.
  erewrite try_except_raise.
  2:{ rewrite Henv. erewrite bind_ok by reflexivity.
      erewrite bind_ok by apply logging_run_chat.
      erewrite bind_raise by apply Hinit. reflexivity. }
  cbv beta.
  do 6 (erewrite bind_ok by reflexivity; cbn [memory stdout log trace]).
  eexists. split; [reflexivity|]. cbn [memory trace stdout exn_msg ValueError].
  by rewrite <- !app_assoc.
Qed.

(** One call of a chain that has a memory: the turn is saved when the
    run returns, and nothing is saved when it does not. *)
Lemma qa_chain_run chain question w m :
  has_memory chain = true →
  memory w = Some m →
  qa_chain E chain question w
  = match chain_run E m (trace w) question with
    | Returns r =>
        (Ok r, {| memory := Some (m ++ [(question, answer r)]);
                  stdout := stdout w; log := log w;
                  trace := trace w ++ [EvChain question (Returns (answer r))] |})
    | Throws e =>
        (Raise e, {| memory := Some m; stdout := stdout w; log := log w;
                     trace := trace w ++ [EvChain question (Throws e)] |})
    | Interrupted b =>
        (Escape b, {| memory := Some m; stdout := stdout w; log := log w;
                      trace := trace w ++ [EvChain question (Interrupted b)] |})
    end.
Proof.
  intros Hchain Hm. unfold qa_chain. rewrite Hchain.
  unfold mbind, M_bind, bind, get_memory, history, emit, modify, set_memory, call.
  rewrite Hm. simpl.
  destruct (chain_run E m (trace w) question) as [r|e|b]; simpl; done.
Qed.

(** One question: when the chain returns or raises an [Exception] the
    query ends normally, and an interrupt of the chain passes through
    the handler; the call is recorded in the history, and the memory
    grows by the turn of a successful call only. *)
Lemma process_query_run chain question w m :
  has_memory chain = true →
  memory w = Some m →
  ∃ w',
    process_query E chain question w
    = (match chain_run E m (trace w) question with
       | Interrupted b => Escape b
       | _ => Ok tt
       end, w') ∧
    trace w' = trace w ++ [EvChain question (answer <$> chain_run E m (trace w) question)] ∧
    memory w' = match chain_run E m (trace w) question with
                | Returns r => Some (m ++ [(question, answer r)])
                | _ => Some m
                end.
Proof.
  intros Hchain Hm. unfold process_query.
  pose proof (qa_chain_run chain question w m Hchain Hm) as Hrun.
  destruct (chain_run E m (trace w) question) as [r|e|b].
  - erewrite try_except_ok.
    2:{ erewrite bind_ok by exact Hrun. erewrite bind_ok by reflexivity.
        erewrite bind_ok by reflexivity. reflexivity. }
    eexists. split; [reflexivity|]. done.
  - erewrite try_except_raise by (erewrite bind_raise by exact Hrun; reflexivity).
    do 3 (erewrite bind_ok by reflexivity).
    eexists. split; [reflexivity|]. done.
  - erewrite try_except_escape by (erewrite bind_escape by exact Hrun; reflexivity).
    eexists. split; [reflexivity|]. done.
Qed.

Lemma turns_of_app h1 h2 : turns_of (h1 ++ h2) = turns_of h1 ++ turns_of h2.
Proof. unfold turns_of. apply omap_app. Qed.

Lemma turns_of_call question m h :
  Some (m ++ turns_of [EvChain question (answer <$> chain_run E m h question)])
  = match chain_run E m h question with
    | Returns r => Some (m ++ [(question, answer r)])
    | _ => Some m
    end.
Proof. destruct (chain_run E m h question); simpl; by rewrite ?app_nil_r. Qed.

Lemma iteration_invariant chain next continue :
  has_memory chain = true →
  session_invariant continue → session_invariant (iteration E chain next continue).
Proof.
  intros Hchain Hcontinue w m Hm. unfold iteration.
  assert (∀ user_input,
    ∃ r w' new,
      (if is_exit_command user_input
       then print (nl +:+ "👋 Thanks for using RAG Chatbot! Goodbye!")
       else process_query E chain user_input;; continue)
        {| memory := memory w; stdout := stdout w; log := log w;
           trace := trace w ++ [EvPrompt] |} = (r, w') ∧
      (r = Ok tt ∨ r = Exit 0 ∨
       ∃ b question, r = Escape b ∧ last new = Some (EvChain question (Interrupted b))) ∧
      trace w' = trace w ++ new ∧
      memory w' = Some (m ++ turns_of new)) as Hbody.
  { intros user_input. destruct (is_exit_command user_input).
    - eexists _, _, [EvPrompt]. split; [reflexivity|]. split; [by left|].
      simpl. by rewrite app_nil_r.
    - match goal with
      | |- ∃ r w' new, (process_query _ _ _ ≫= _) ?w1 = _ ∧ _ =>
          destruct (process_query_run chain user_input w1 m Hchain Hm)
            as (w2 & Hrun & Htrace & Hmem)
      end.
      cbn [trace memory] in Hrun, Htrace, Hmem.
      rewrite <- turns_of_call in Hmem.
      set (ev := EvChain user_input
                   (answer <$> chain_run E m (trace w ++ [EvPrompt]) user_input)) in *.
      destruct (chain_run E m (trace w ++ [EvPrompt]) user_input) as [r0|e0|b0] eqn:Hcall.
      + erewrite bind_ok by exact Hrun.
        destruct (Hcontinue w2 _ Hmem) as (r & w' & new & Hloop & Hr & Htrace' & Hfinal).
        exists r, w', ([EvPrompt; ev] ++ new). split; [exact Hloop|]. split; [|split].
        * destruct Hr as [->|[->|(b & q & -> & Hlast)]]; [by left | by right; left |].
          right; right. exists b, q. split; [done|]. by rewrite last_app, Hlast.
        * rewrite Htrace', Htrace. by rewrite <- !app_assoc.
        * rewrite Hfinal, turns_of_app, <- app_assoc. done.
      + erewrite bind_ok by exact Hrun.
        destruct (Hcontinue w2 _ Hmem) as (r & w' & new & Hloop & Hr & Htrace' & Hfinal).
        exists r, w', ([EvPrompt; ev] ++ new). split; [exact Hloop|]. split; [|split].
        * destruct Hr as [->|[->|(b & q & -> & Hlast)]]; [by left | by right; left |].
          right; right. exists b, q. split; [done|]. by rewrite last_app, Hlast.
        * rewrite Htrace', Htrace. by rewrite <- !app_assoc.
        * rewrite Hfinal, turns_of_app, <- app_assoc. done.
      + erewrite bind_escape by exact Hrun.
        exists (Escape b0), w2, [EvPrompt; ev]. split; [done|]. split; [|split].
        * right; right. by exists b0, user_input.
        * rewrite Htrace. by rewrite <- !app_assoc.
        * rewrite Hmem. change (turns_of [EvPrompt; ev]) with (turns_of [ev]). done. }
  unfold get_user_input. destruct next as [s| |].
  - erewrite bind_ok.
    2:{ erewrite bind_ok by reflexivity. reflexivity. }
    apply Hbody.
  - erewrite bind_exit.
    2:{ erewrite bind_ok by reflexivity. erewrite bind_ok by reflexivity. reflexivity. }
    eexists _, _, [EvPrompt]. split; [reflexivity|]. split; [by right; left|].
    simpl. by rewrite app_nil_r.
  - erewrite bind_ok.
    2:{ erewrite bind_ok by reflexivity. reflexivity. }
    apply Hbody.
Qed.

Lemma conversation_invariant chain inputs :
  has_memory chain = true → session_invariant (conversation E chain inputs).
Proof.
  intros Hchain.
  induction inputs as [|next rest IH]; cbn [conversation]; apply iteration_invariant;
    [done| |done|done].
  intros w m Hm. eexists _, _, []. split; [reflexivity|]. split; [by left|].
  by rewrite !app_nil_r.
Qed.


End ChatClaims.

(** ** The claims on the sample corpus *)

Module IngestSamples.
Import Ingest Samples.

(** The sample loader is never interrupted, and the sample disk takes
    the directory [db]. *)
Lemma corpus_loads env pdf_files embed_fault write_fault ts files :
  loads_complete (backend env pdf_files embed_fault write_fault) ts files.
Proof.
  intros pdf_path b _. cbn [pdf_load_and_split backend]. unfold corpus_loader.
  repeat case_decide; done.
Qed.

Lemma disk_ready env pdf_files embed_fault write_fault cfg :
  persist_dir cfg ≠ "" →
  storage_ready (backend env pdf_files embed_fault write_fault) cfg.
Proof.
  intros Hdir. split; [split|]; [done | | done].
  cbn [makedirs backend]. unfold disk_makedirs. by case_decide.
Qed.

Lemma ingestion_call_counts_witness :
  (load_environment sound_backend = Returns small_config ∧
   (0 < batch_size small_config)%Z ∧
   docs_listing sound_backend "docs" = Some corpus ∧
   loads_complete sound_backend small_splitter corpus ∧
   storage_ready sound_backend small_config ∧
   reliable sound_backend) ∧
  ∃ w',
    ingest_documents sound_backend fresh = (Ok tt, w') ∧
    embed_calls (trace w') = 3 ∧
    append_calls (trace w') = 3 ∧
    open_calls (trace w') = 1 ∧
    length (store w') = 5.
Proof.
  assert (reliable sound_backend) as Hrel by (split; intros; reflexivity).
  assert (loads_complete sound_backend small_splitter corpus) as Hloads
    by apply corpus_loads.
  assert (storage_ready sound_backend small_config) as Hready by (by apply disk_ready).
  split; [by split; [vm_compute|]|].
  destruct (ingestion_call_counts sound_backend fresh small_config corpus small_splitter)
    as (w' & batches & Hrun & Hbatches & Hlen & H1 & H2 & H3 & _ & H4);
    [reflexivity | reflexivity | reflexivity | reflexivity | exact Hloads | exact Hready
    | exact Hrel |].
  exists w'.
  assert (length batches = 3) as Hthree by (rewrite Hlen; vm_compute; reflexivity).
  destruct batches as [|batch rest]; [discriminate|].
  rewrite Hthree in H1, H2. vm_compute in H4.
  split; [exact Hrun|]. split; [exact H1|]. split; [exact H2|]. split; [exact H3 | exact H4].
Defined.

Lemma batching_preserves_content_witness :
  ((0 < 2)%Z ∧ reliable sound_backend) ∧
  ∃ batches vs w_batched vs1 w_single,
    process_documents_in_batches corpus_documents 2 = Returns batches ∧
    concat batches = corpus_documents ∧
    ingest_batches sound_backend "db" batches 0 (length batches) None fresh
    = (Ok vs, w_batched) ∧
    ingest_unbatched sound_backend "db" corpus_documents fresh = (Ok vs1, w_single) ∧
    store w_batched = store w_single ∧
    store w_single = store fresh ++ (record_of <$> corpus_documents).
Proof.
  assert (reliable sound_backend) as Hrel by (split; intros; reflexivity).
  split; [by split|].
  apply (batching_preserves_content sound_backend "db" corpus_documents 2 fresh);
    [reflexivity | exact Hrel].
Defined.

(** On the sample corpus the three batches are the chunks two by two. *)
Example sample_batches :
  process_documents_in_batches corpus_documents 2
  = Returns [first_batch; second_batch; third_batch].
Proof. vm_compute. reflexivity. Qed.

Lemma batch_failure_aborts_run_witness :
  (∃ w',
     ingest_documents failing_later fresh = (Raise rate_limit, w') ∧
     store w' = record_of <$> first_batch ∧
     embed_calls (trace w') = 2 ∧
     1 ≤ append_calls (trace w') ≤ 2 ∧
     last (log w') = Some (ERROR, "Ingestion failed: rate limit exceeded")) ∧
  (∃ w',
     ingest_documents write_failing fresh = (Raise disk_full, w') ∧
     store w' = record_of <$> first_batch ∧
     embed_calls (trace w') = 2 ∧
     1 ≤ append_calls (trace w') ≤ 2 ∧
     last (log w') = Some (ERROR, "Ingestion failed: database or disk is full")).
Proof.
  split.
  - destruct (batch_failure_aborts_run failing_later fresh small_config corpus small_splitter
                [first_batch] second_batch [third_batch] rate_limit)
      as (w' & lines & Hrun & Hstore & Hembed & Happend & Hlog).
    + vm_compute; reflexivity.
    + reflexivity.
    + reflexivity.
    + apply corpus_loads.
    + by split.
    + vm_compute; reflexivity.
    + vm_compute. by repeat split.
    + left. vm_compute; reflexivity.
    + exists w'. split; [exact Hrun|]. split; [|split; [|split]].
      * rewrite Hstore. cbn [concat]. by rewrite app_nil_r.
      * exact Hembed.
      * exact Happend.
      * rewrite Hlog, !last_app. reflexivity.
  - destruct (batch_failure_aborts_run write_failing fresh small_config corpus small_splitter
                [first_batch] second_batch [third_batch] disk_full)
      as (w' & lines & Hrun & Hstore & Hembed & Happend & Hlog).
    + vm_compute; reflexivity.
    + reflexivity.
    + reflexivity.
    + apply corpus_loads.
    + by split.
    + vm_compute; reflexivity.
    + vm_compute. by repeat split.
    + right. vm_compute. by split.
    + exists w'. split; [exact Hrun|]. split; [|split; [|split]].
      * rewrite Hstore. cbn [concat]. by rewrite app_nil_r.
      * exact Hembed.
      * exact Happend.
      * rewrite Hlog, !last_app. reflexivity.
Defined.

(** C3, as stated, fails: a run whose first embedding call fails and a
    run whose second one fails, with nothing and with one batch written,
    end in the very same exception, and a run that completes returns
    nothing.  So no reading of what [ingest_documents] returns or raises
    tells how much work was completed. *)
Lemma ingest_result_carries_no_count :
  (ingest_documents failing_at_once fresh).1 = Raise rate_limit ∧
  (ingest_documents failing_later fresh).1 = Raise rate_limit ∧
  length (store (ingest_documents failing_at_once fresh).2) = 0 ∧
  length (store (ingest_documents failing_later fresh).2) = 2 ∧
  (ingest_documents sound_backend fresh).1 = Ok tt ∧
  ¬ ∃ processed_count : result unit → nat,
      ∀ E, processed_count (ingest_documents E fresh).1
           = length (store (ingest_documents E fresh).2).
Proof.
  do 5 (split; [vm_compute; reflexivity|]).
  intros [processed_count Hcount].
  pose proof (Hcount failing_at_once) as H0.
  pose proof (Hcount failing_later) as H1.
  vm_compute in H0, H1. congruence.
Qed.

Lemma failed_document_is_skipped_witness :
  pdf_load_and_split sound_backend (path_str broken_pdf) small_splitter
  = Throws (Exn "PdfReadError" "EOF marker not found") ∧
  (∃ w',
     load_all sound_backend [fox_pdf; broken_pdf; notes_pdf] small_splitter [] fresh
     = (Ok (corpus_chunks sound_backend small_splitter [fox_pdf]
            ++ corpus_chunks sound_backend small_splitter [notes_pdf]), w') ∧
     trace w' = [EvLoadPdf "docs/fox.pdf"; EvLoadPdf "docs/broken.pdf";
                 EvLoadPdf "docs/notes.pdf"]) ∧
  (∃ w',
     ingest_documents sound_backend fresh = (Ok tt, w') ∧
     length (store w') = 5).
Proof.
  split; [reflexivity|].
  destruct (failed_document_is_skipped sound_backend small_splitter [fox_pdf] broken_pdf
              [notes_pdf] (Exn "PdfReadError" "EOF marker not found") [] fresh)
    as (_ & (w' & Hrun & _ & Htrace) & Hfull & _); [reflexivity | apply corpus_loads |].
  split; [exists w'; split; [exact Hrun | exact Htrace]|].
  destruct (Hfull small_config) as (w2 & Hrun2 & Hstore);
    [reflexivity | reflexivity | reflexivity | reflexivity | by apply disk_ready
    | split; intros; reflexivity |].
  exists w2. split; [exact Hrun2|]. rewrite Hstore. vm_compute. reflexivity.
Defined.

Lemma oversized_overlap_fails_fast_witness :
  ∃ w' msg,
    ingest_documents large_overlap_backend fresh = (Raise (ValueError msg), w') ∧
    store w' = [] ∧ trace w' = [].
Proof.
  destruct (oversized_overlap_fails_fast large_overlap_backend fresh
              {| openai_api_key := "sk-test";
                 embedding_model := "text-embedding-3-small";
                 persist_dir := "db";
                 chunk_size := 20; chunk_overlap := 30; batch_size := 2 |} corpus)
    as (w' & msg & Hrun & Hstore & Htrace & _).
  - vm_compute; reflexivity.
  - reflexivity.
  - done.
  - reflexivity.
  - reflexivity.
  - by exists w', msg.
Defined.

(** C5, as stated, fails twice over.  With an overlap larger than the
    size and no PDF in [docs/], the run ends normally with a warning and
    no error at all: the splitter is never built.  And an overlap equal
    to the size is accepted: all three files are loaded and the five
    chunks are embedded and written. *)
Lemma equal_overlap_is_accepted :
  (∃ cfg,
     load_environment large_overlap_no_files = Returns cfg ∧
     (chunk_overlap cfg >= chunk_size cfg)%Z ∧
     (ingest_documents large_overlap_no_files fresh).1 = Ok tt ∧
     last (log (ingest_documents large_overlap_no_files fresh).2)
     = Some (WARNING, "No PDF files found in docs/ directory")) ∧
  (∃ cfg,
     load_environment equal_overlap_backend = Returns cfg ∧
     (chunk_overlap cfg >= chunk_size cfg)%Z ∧
     (ingest_documents equal_overlap_backend fresh).1 = Ok tt ∧
     load_calls (trace (ingest_documents equal_overlap_backend fresh).2) = 3 ∧
     embed_calls (trace (ingest_documents equal_overlap_backend fresh).2) = 3 ∧
     length (store (ingest_documents equal_overlap_backend fresh).2) = 5).
Proof. split; eexists; vm_compute; by repeat split. Qed.

Lemma chunk_identifier_format_witness :
  load_and_split_pdf sound_backend fox_pdf small_splitter fresh
  = (Ok (chunks_of sound_backend small_splitter fox_pdf),
     (load_and_split_pdf sound_backend fox_pdf small_splitter fresh).2) ∧
  chunks_of sound_backend small_splitter fox_pdf !! 2
  = Some (tag_page fox_pdf 2 (page "the lazy dog.")) ∧
  metadata (tag_page fox_pdf 2 (page "the lazy dog.")) !! "page_number" = Some (VInt 3) ∧
  metadata (tag_page fox_pdf 2 (page "the lazy dog.")) !! "chunk_id"
  = Some (VStr ("fox" +:+ "_page_" +:+ pretty 3)).
Proof.
  assert (load_and_split_pdf sound_backend fox_pdf small_splitter fresh
          = (Ok (chunks_of sound_backend small_splitter fox_pdf),
             (load_and_split_pdf sound_backend fox_pdf small_splitter fresh).2)) as Hrun
    by (by rewrite load_and_split_pdf_run).
  assert (chunks_of sound_backend small_splitter fox_pdf !! 2
          = Some (tag_page fox_pdf 2 (page "the lazy dog."))) as Hdoc by reflexivity.
  destruct (chunk_identifier_format sound_backend fox_pdf small_splitter fresh _ _ 2 _
              Hrun Hdoc) as (Hpage & Hid & _).
  split; [exact Hrun|]. split; [exact Hdoc|]. split; [exact Hpage | exact Hid].
Defined.

(** C6, as stated, fails: the identifier of the first chunk of [fox.pdf]
    is ["fox_page_1"], not the stem, an underscore and the ordinal. *)
Lemma chunk_id_is_not_stem_ordinal :
  ∃ doc,
    chunks_of sound_backend small_splitter fox_pdf !! 0 = Some doc ∧
    (load_and_split_pdf sound_backend fox_pdf small_splitter fresh).1
    = Ok (chunks_of sound_backend small_splitter fox_pdf) ∧
    metadata doc !! "chunk_id" = Some (VStr "fox_page_1") ∧
    metadata doc !! "chunk_id" ≠ Some (VStr (stem fox_pdf +:+ "_" +:+ pretty 1)).
Proof.
  exists (tag_page fox_pdf 0 (page "The quick brown fox.")).
  split; [reflexivity|]. split; [by rewrite load_and_split_pdf_run|].
  split; vm_compute; [reflexivity | discriminate].
Qed.

End IngestSamples.

(** ** The claims on a sample session *)

Module ChatSamples.
Import Chat Samples.

Lemma empty_index_stops_startup_witness :
  (load_environment (assistant 0) = Returns chat_config ∧
   path_exists (assistant 0) (persist_dir chat_config) = true ∧
   collection_count (assistant 0) (persist_dir chat_config) = 0) ∧
  ∃ w',
    chat_loop (assistant 0) [Line "What does the fox jump over?"] offline = (Exit 1, w') ∧
    memory w' = None ∧
    trace w' = [EvOpenCollection "pdf_knowledge" "db"; EvCount].
Proof.
  assert (load_environment (assistant 0) = Returns chat_config) as Henv
    by (vm_compute; reflexivity).
  split; [by repeat split|].
  destruct (empty_index_stops_startup (assistant 0)
              [Line "What does the fox jump over?"] offline chat_config Henv eq_refl eq_refl)
    as (_ & (w' & Hrun & Hmem & Htrace & _) & _).
  exists w'. split; [exact Hrun|]. split; [exact Hmem | exact Htrace].
Defined.

(** C7, as stated, fails: a query is not rejected because the
    collection counts no record.  Over a collection that counts 0, a
    question put to the chain is handed to it, the query ends normally
    with the answer printed, and its turn is appended to the memory: no
    error is raised and the count is not looked at. *)
Lemma query_on_empty_index_is_answered :
  collection_count (assistant 0) "db" = 0 ∧
  (process_query (assistant 0) sample_chain "What does the fox jump over?" ready).1
  = Ok tt ∧
  memory (process_query (assistant 0) sample_chain "What does the fox jump over?" ready).2
  = Some [("What does the fox jump over?", "answer to What does the fox jump over?")] ∧
  trace (process_query (assistant 0) sample_chain "What does the fox jump over?" ready).2
  = [EvChain "What does the fox jump over?"
       (Returns "answer to What does the fox jump over?")] ∧
  log (process_query (assistant 0) sample_chain "What does the fox jump over?" ready).2
  = [(INFO, "Query processed in 0.42s")].
Proof. vm_compute. by repeat split. Qed.

Lemma citations_deduplicated_witness :
  keyed retrieved ∧
  citations retrieved = ["a.txt (page 1)"; "b.txt (page 2)"] ∧
  NoDup (citations retrieved) ∧
  format_sources (dedup_first citation_key retrieved) = format_sources retrieved.
Proof.
  assert (keyed retrieved) as Hkeyed.
  { repeat constructor; eexists; vm_compute; reflexivity. }
  destruct (citations_deduplicated retrieved Hkeyed) as (_ & Hcit & Hnd & Hidem & _).
  split; [exact Hkeyed|]. split; [|split; [exact Hnd | exact Hidem]].
  rewrite Hcit. vm_compute. reflexivity.
Defined.


(** The session of the spec: two answered questions, a failed one, and a
    fourth that is answered all the same. *)
Example session_survives_failed_query :
  memory (conversation (assistant 7) sample_chain
            (Line <$> ["first"; "second"; "boom"]) ready).2
  = Some [("first", "answer to first"); ("second", "answer to second")] ∧
  memory (conversation (assistant 7) sample_chain
            (Line <$> ["first"; "second"; "boom"; "third"]) ready).2
  = Some [("first", "answer to first"); ("second", "answer to second");
          ("third", "answer to third")] ∧
  questions_of (trace (conversation (assistant 7) sample_chain
                         (Line <$> ["first"; "second"; "boom"; "third"]) ready).2)
  = ["first"; "second"; "boom"; "third"] ∧
  (chat_loop (assistant 7) (Line <$> ["first"; "second"; "boom"; "third"]) offline).1
  = Ok tt ∧
  memory (chat_loop (assistant 7) (Line <$> ["first"; "second"; "boom"; "third"]) offline).2
  = Some [("first", "answer to first"); ("second", "answer to second");
          ("third", "answer to third")].
Proof. vm_compute. by repeat split. Qed.

(** A line padded with no-break spaces is taken as it is once stripped:
    a padded question is asked, a padded exit command ends the loop. *)
Example padded_lines_are_stripped :
  strip (nbsp +:+ "first" +:+ nbsp) = "first" ∧
  is_exit_command (strip (nbsp +:+ "first")) = false ∧
  is_exit_command (strip (nbsp +:+ "Quit" +:+ nbsp)) = true ∧
  is_exit_command (strip nbsp) = true ∧
  questions_of (trace (conversation (assistant 7) sample_chain
                         [Line nbsp; Line "first"] ready).2) = [].
Proof. vm_compute. by repeat split. Qed.

End ChatSamples.

(** * More about ingestion *)

Section BatchingMore.
Import Ingest.
Context {A : Type}.
Implicit Types (documents : list A) (i b k fuel : nat).

Lemma batches_from_lookup fuel documents i b k :
  0 < b → length documents - i ≤ fuel →
  batches_from fuel documents i b !! k
  = if decide (i + k * b < length documents)
    then Some (slice documents (i + k * b) b) else None.
Proof.
  intros Hb. revert i k. induction fuel as [|fuel IH]; intros i k Hfuel; simpl.
  - case_decide; [nia | done].
  - destruct (decide (i < length documents)) as [Hlt|Hge].
    + destruct k as [|k]; simpl.
      * rewrite Nat.add_0_r. by case_decide.
      * rewrite IH by lia.
        replace (i + b + k * b) with (i + (b + k * b)) by lia. done.
    + rewrite lookup_nil. case_decide; [nia | done].
Qed.

(** X1. For a positive batch size B, batch number k (from 0) exists
    exactly when k·B is below the number of documents, and it is then the
    slice [documents[k·B : k·B + B]]: B elements, or what is left for the
    last one. *)
Theorem batch_is_slice documents (B : Z) batches k :
  (0 < B)%Z →
  process_documents_in_batches documents B = Returns batches →
  batches !! k
  = (if decide (k * Z.to_nat B < length documents)
     then Some (take (Z.to_nat B) (drop (k * Z.to_nat B) documents)) else None) ∧
  (∀ batch, batches !! k = Some batch →
            length batch = Z.to_nat B `min` (length documents - k * Z.to_nat B)).
Proof.
  intros Hpos. unfold process_documents_in_batches.
  destruct (decide (B = 0)%Z); [lia|]. destruct (decide (B < 0)%Z); [lia|].
  intros [= <-].
  assert (batches_from (length documents) documents 0 (Z.to_nat B) !! k
          = (if decide (k * Z.to_nat B < length documents)
             then Some (take (Z.to_nat B) (drop (k * Z.to_nat B) documents)) else None))
    as Hlookup by (rewrite batches_from_lookup by lia; done).
  split; [exact Hlookup|].
  intros batch. rewrite Hlookup. case_decide; [|done].
  intros [= <-]. by rewrite length_take, length_drop.
Qed.

End BatchingMore.

Section IngestMore.
Import Ingest.
Context (E : Externals).
Implicit Types (w : World).

Local Arguments String.app : simpl never.
Local Arguments pretty : simpl never.

(** *** Runs that stop before the corpus *)

Lemma ingest_documents_env_fails w e :
  load_environment E = Throws e →
  ingest_documents E w
  = (Raise e, logged [(INFO, "Starting document ingestion process...");
                      (ERROR, "Ingestion failed: " +:+ exn_msg e)] w).
Proof.
  intros Henv. rewrite ingest_documents_unfold. unfold ingest_body. rewrite Henv.
  erewrite bind_raise by reflexivity. by rewrite logged_logged.
Qed.

(** X2. Without [OPENAI_API_KEY] (unset or empty) ingestion raises the
    [ValueError] that names the variable, logs it, and touches nothing:
    no file is looked for, no call is made, the store is as it was. *)
Theorem missing_key_aborts_ingestion w :
  env_truthy (getenv E "OPENAI_API_KEY") = false →
  ∃ w',
    ingest_documents E w
    = (Raise (ValueError "Missing required environment variables: ['OPENAI_API_KEY']"), w') ∧
    store w' = store w ∧
    trace w' = trace w ∧
    log w' = log w
             ++ [(INFO, "Starting document ingestion process...");
                 (ERROR, "Ingestion failed: "
                         +:+ "Missing required environment variables: ['OPENAI_API_KEY']")].
Proof.
  intros Hkey. eexists. split.
  - apply ingest_documents_env_fails. unfold load_environment. simpl. by rewrite Hkey.
  - done.
Qed.

(** X3. A setting that [int] refuses aborts ingestion in the same way:
    the first of CHUNK_SIZE, CHUNK_OVERLAP and BATCH_SIZE (or of their
    defaults "1000", "200", "100") that fails to parse gives the error
    that is raised, and nothing is touched. *)
Theorem unparsable_setting_aborts_ingestion w e :
  env_truthy (getenv E "OPENAI_API_KEY") = true →
  (py_int E (getenv_default (getenv E) "CHUNK_SIZE" "1000") = Throws e ∨
   (∃ cs, py_int E (getenv_default (getenv E) "CHUNK_SIZE" "1000") = Returns cs ∧
          py_int E (getenv_default (getenv E) "CHUNK_OVERLAP" "200") = Throws e) ∨
   (∃ cs co, py_int E (getenv_default (getenv E) "CHUNK_SIZE" "1000") = Returns cs ∧
             py_int E (getenv_default (getenv E) "CHUNK_OVERLAP" "200") = Returns co ∧
             py_int E (getenv_default (getenv E) "BATCH_SIZE" "100") = Throws e)) →
  ∃ w',
    ingest_documents E w = (Raise e, w') ∧
    store w' = store w ∧
    trace w' = trace w ∧
    last (log w') = Some (ERROR, "Ingestion failed: " +:+ exn_msg e).
Proof.
  intros Hkey Hints. eexists. split.
  - apply ingest_documents_env_fails. unfold load_environment. simpl. rewrite Hkey. simpl.
    destruct Hints as [H1|[(cs & H1 & H2)|(cs & co & H1 & H2 & H3)]].
    + by rewrite H1.
    + rewrite H1. simpl. by rewrite H2.
    + rewrite H1. simpl. rewrite H2. simpl. by rewrite H3.
  - cbn [store trace log logged]. split; [done|]. split; [done|].
    by rewrite !last_app.
Qed.

(** X4. With the key set and the optional variables unset, the settings
    are the documented defaults: chunk size, overlap and batch size are
    what [int] reads from "1000", "200" and "100", the model is
    "text-embedding-3-small" and the directory is "db". *)
Theorem settings_default cs co bs :
  env_truthy (getenv E "OPENAI_API_KEY") = true →
  getenv E "EMBEDDING_MODEL" = None →
  getenv E "PERSIST_DIR" = None →
  getenv E "CHUNK_SIZE" = None →
  getenv E "CHUNK_OVERLAP" = None →
  getenv E "BATCH_SIZE" = None →
  py_int E "1000" = Returns cs →
  py_int E "200" = Returns co →
  py_int E "100" = Returns bs →
  ∃ key,
    getenv E "OPENAI_API_KEY" = Some key ∧
    load_environment E
    = Returns {| openai_api_key := key;
                 embedding_model := "text-embedding-3-small";
                 persist_dir := "db";
                 chunk_size := cs;
                 chunk_overlap := co;
                 batch_size := bs |}.
Proof.
  intros Hkey Hmodel Hdir Hcs Hco Hbs Hi1 Hi2 Hi3.
  destruct (getenv E "OPENAI_API_KEY") as [key|] eqn:Hget; [|done].
  exists key. split; [done|].
  unfold load_environment, getenv_default. simpl.
  rewrite Hget, Hkey, Hmodel, Hdir, Hcs, Hco, Hbs. simpl.
  rewrite Hi1. simpl. rewrite Hi2. simpl. rewrite Hi3. done.
Qed.

(** X5. When the [docs] directory does not exist, ingestion raises
    [FileNotFoundError] for it and touches nothing. *)
Theorem missing_folder_aborts_ingestion w cfg :
  load_environment E = Returns cfg →
  docs_listing E "docs" = None →
  ∃ w',
    ingest_documents E w
    = (Raise (FileNotFoundError "Documents directory 'docs' not found"), w') ∧
    store w' = store w ∧
    trace w' = trace w ∧
    last (log w')
    = Some (ERROR, "Ingestion failed: " +:+ "Documents directory 'docs' not found").
Proof.
  intros Henv Hls. rewrite ingest_documents_unfold. unfold ingest_body. rewrite Henv.
  erewrite bind_ok by reflexivity. erewrite bind_ok by apply logging_run.
  unfold find_pdf_files. rewrite Hls.
  erewrite bind_raise by reflexivity.
  eexists. split; [reflexivity|]. cbn [store trace log logged].
  split; [done|]. split; [done|]. by rewrite !last_app.
Qed.

(** X6. When there is nothing to ingest (no PDF in the folder, or no
    chunk from any of the files, each of them loaded to its end or
    failed with an [Exception]) the run ends normally after a warning or
    an error line: the files are tried, but the persist directory is not
    made, the collection is not opened, and nothing is embedded or
    written. *)
Theorem nothing_to_ingest w cfg pdf_files :
  load_environment E = Returns cfg →
  docs_listing E "docs" = Some pdf_files →
  pdf_files = [] ∨
    (∃ ts, splitter_init E (chunk_size cfg) (chunk_overlap cfg) = Returns ts ∧
           loads_complete E ts pdf_files ∧
           corpus_chunks E ts pdf_files = []) →
  ∃ w',
    ingest_documents E w = (Ok tt, w') ∧
    store w' = store w ∧
    trace w' = trace w ++ (EvLoadPdf ∘ path_str <$> pdf_files) ∧
    last (log w')
    = Some (if pdf_files is [] then (WARNING, "No PDF files found in docs/ directory")
            else (ERROR, "No documents were successfully processed")).
Proof.
  intros Henv Hls Hnone. rewrite ingest_documents_unfold. unfold ingest_body. rewrite Henv.
  erewrite bind_ok by reflexivity. erewrite bind_ok by apply logging_run.
  unfold find_pdf_files. rewrite Hls.
  erewrite bind_ok.
  2:{ erewrite bind_ok by apply logging_run. reflexivity. }
  destruct pdf_files as [|p rest].
  - eexists. split; [reflexivity|]. cbn [store trace log logged fmap list_fmap].
    rewrite app_nil_r. split; [done|]. split; [done|]. by rewrite !last_app.
  - destruct Hnone as [|(ts & Hts & Hloads & Hchunks)]; [done|].
    rewrite Hts. erewrite bind_ok by reflexivity.
    erewrite bind_ok by (by apply load_all_run).
    rewrite Hchunks. cbn [app].
    eexists. split; [reflexivity|]. cbn [store trace log logged].
    split; [done|]. split; [done|]. by rewrite !last_app.
Qed.

(** X7. A batch size that is not positive never reaches the gateway.
    With chunks to ingest, once the files are loaded, the embeddings
    client built and the directory made, a size of zero makes the
    batching raise [ValueError] ("range() arg 3 must not be zero"), and a
    negative size gives no batch at all, so that persisting fails on
    [None] with [AttributeError]; either way nothing is embedded or
    written. *)
Theorem nonpositive_batch_size_aborts w cfg pdf_files ts :
  load_environment E = Returns cfg →
  docs_listing E "docs" = Some pdf_files →
  splitter_init E (chunk_size cfg) (chunk_overlap cfg) = Returns ts →
  loads_complete E ts pdf_files →
  storage_opens E cfg →
  corpus_chunks E ts pdf_files ≠ [] →
  (batch_size cfg ≤ 0)%Z →
  ∃ w',
    ingest_documents E w
    = (Raise (if decide (batch_size cfg = 0)%Z
              then ValueError "range() arg 3 must not be zero"
              else AttributeError "'NoneType' object has no attribute 'persist'"), w') ∧
    store w' = store w ∧
    trace w' = trace w ++ (EvLoadPdf ∘ path_str <$> pdf_files)
               ++ [EvMakedirs (persist_dir cfg)].
Proof.
  intros Henv Hls Hts Hloads [Hclient Hdir] Hchunks Hsize. rewrite ingest_documents_unfold.
  edestruct ingest_body_loads as [lines ->]; try done.
  unfold embed_and_store, create_embeddings.
  erewrite bind_ok by apply logging_run.
  rewrite Hclient. erewrite bind_ok by reflexivity.
  erewrite bind_ok by apply logging_run.
  erewrite bind_ok by reflexivity.
  rewrite Hdir. erewrite bind_ok by reflexivity.
  unfold process_documents_in_batches.
  destruct (decide (batch_size cfg = 0)%Z) as [Hzero|Hnonzero].
  - erewrite bind_raise by reflexivity.
    eexists. split; [reflexivity|]. cbn [store trace log logged].
    split; [done|]. by rewrite <- app_assoc.
  - destruct (decide (batch_size cfg < 0)%Z); [|lia].
    erewrite bind_ok by reflexivity. erewrite bind_ok by apply logging_run.
    erewrite bind_ok by reflexivity.
    eexists. split; [reflexivity|]. cbn [store trace log logged].
    split; [done|]. by rewrite <- app_assoc.
Qed.

End IngestMore.

Section IngestAdditive.
Import Ingest.
Context (E : Externals).

Lemma grows_refl w : grows w w.
Proof. by repeat split. Qed.

Lemma grows_trans w1 w2 w3 : grows w1 w2 → grows w2 w3 → grows w1 w3.
Proof. intros (?&?&?) (?&?&?). repeat split; by etrans. Qed.

Lemma additive_ret {A} (a : A) : additive (mret a : M World A).
Proof. intros w. apply grows_refl. Qed.

Lemma additive_call {A} (r : reply A) : additive (call r : M World A).
Proof. intros w. destruct r; apply grows_refl. Qed.

Lemma additive_history : additive history.
Proof. intros w. apply grows_refl. Qed.

Lemma additive_logging lv msg : additive (logging lv msg).
Proof. intros w. repeat split; simpl; try done. by apply prefix_app_r. Qed.

Lemma additive_emit ev : additive (emit ev).
Proof. intros w. repeat split; simpl; try done. by apply prefix_app_r. Qed.

Lemma additive_store_extend rs : additive (store_extend rs).
Proof. intros w. repeat split; simpl; try done. by apply prefix_app_r. Qed.

Lemma additive_bind {A B} (c : M World A) (k : A → M World B) :
  additive c → (∀ a, additive (k a)) → additive (c ≫= k).
Proof.
  intros Hc Hk w. unfold mbind, M_bind, bind. specialize (Hc w).
  destruct (c w) as [[a|e|n|b] w1]; simpl in *; [|done..].
  eapply grows_trans; [exact Hc | apply Hk].
Qed.

Ltac additive_step :=
  first [ apply additive_logging | apply additive_emit | apply additive_store_extend
        | apply additive_history | apply additive_call | apply additive_ret
        | apply additive_bind; [|intros ?]
        | match goal with
          | |- additive (match ?x with _ => _ end) => destruct x
          end ].

Lemma additive_add_texts texts metadatas : additive (add_texts E texts metadatas).
Proof. unfold add_texts. repeat additive_step. Qed.

Lemma additive_ingest_batches dir batches i total vs :
  additive (ingest_batches E dir batches i total vs).
Proof.
  revert i vs. induction batches as [|batch rest IH]; intros i vs; simpl.
  - apply additive_ret.
  - unfold from_texts.
    repeat first [apply additive_add_texts | apply IH | additive_step].
Qed.

End IngestAdditive.

Section IngestChunks.
Import Ingest.
Context (E : Externals).
Implicit Types (w : World) (pdf_path : Path).

Local Arguments String.app : simpl never.
Local Arguments pretty : simpl never.

Local Abbreviation chars := String.list_ascii_of_string.

Lemma tag_page_other_keys pdf_path i doc key :
  key ∉ tag_keys → metadata (tag_page pdf_path i doc) !! key = metadata doc !! key.
Proof.
  intros Hkey. unfold tag_page. cbn [metadata].
  rewrite !lookup_insert_ne; [done|..];
    intros <-; apply Hkey; unfold tag_keys;
    repeat first [apply list_elem_of_here | apply list_elem_of_further].
Qed.

(** X9. A file that loads gives one chunk per piece that the loader
    returns, in the same order and with the same text; [update] writes
    the four keys and leaves every other key of the piece (the loader's
    own ["source"] and ["page"], say) as it was.  Loading never raises and
    stores nothing. *)
Theorem tagging_keeps_pages pdf_path ts pages w :
  pdf_load_and_split E (path_str pdf_path) ts = Returns pages →
  ∃ chunks w',
    load_and_split_pdf E pdf_path ts w = (Ok chunks, w') ∧
    store w' = store w ∧
    length chunks = length pages ∧
    page_content <$> chunks = page_content <$> pages ∧
    (∀ i chunk, chunks !! i = Some chunk →
       ∃ page, pages !! i = Some page ∧
         dom (metadata chunk) = dom (metadata page) ∪ list_to_set tag_keys ∧
         ∀ key, key ∉ tag_keys → metadata chunk !! key = metadata page !! key) ∧
    last (log w')
    = Some (INFO, "Split " +:+ name pdf_path +:+ " into " +:+ pretty (length pages)
                  +:+ " chunks").
Proof.
  intros Hload. eexists _, _.
  split; [by rewrite load_and_split_pdf_run, Hload|].
  cbn [store log]. unfold chunks_of, load_lines. rewrite Hload.
  split; [done|]. split; [by rewrite length_imap|]. split; [|split].
  - apply list_eq. intros i. rewrite !list_lookup_fmap, list_lookup_imap.
    by destruct (pages !! i).
  - intros i chunk. rewrite list_lookup_imap.
    destruct (pages !! i) as [page|]; [|done]. intros [= <-].
    exists page. split; [done|]. split; [|intros key; apply tag_page_other_keys].
    unfold tag_page, tag_keys. cbn [metadata]. rewrite !dom_insert_L. cbn [list_to_set foldr].
    apply set_eq. intros key.
    rewrite !elem_of_union, !elem_of_singleton, elem_of_empty. tauto.
  - rewrite length_imap. by rewrite last_app.
Qed.

(** *** Chunk identifiers *)

Lemma elem_of_concat {A} (x : A) (ls : list (list A)) :
  x ∈ concat ls → ∃ l, x ∈ l ∧ l ∈ ls.
Proof.
  induction ls as [|l ls IH]; simpl; [by intros ?%elem_of_nil|].
  intros [Hx|Hx]%elem_of_app.
  - exists l. split; [done | apply list_elem_of_here].
  - destruct (IH Hx) as (l' & ? & ?). exists l'. split; [done | by apply list_elem_of_further].
Qed.

Lemma underscore_not_numeric : ¬ Chat.numeric "_"%char.
Proof.
  unfold Chat.numeric. simpl. intros Hin.
  repeat (apply elem_of_cons in Hin as [?|Hin]; [done|]). by apply elem_of_nil in Hin.
Qed.

Lemma pretty_Z_of_nat (n : nat) : pretty (Z.of_nat n) = pretty n.
Proof. by destruct n. Qed.

(** The text of an identifier tells the stem and the position apart. *)
Lemma chunk_id_text_inj stem1 stem2 (i j : nat) :
  stem1 +:+ "_page_" +:+ pretty i = stem2 +:+ "_page_" +:+ pretty j →
  stem1 = stem2 ∧ i = j.
Proof.
  intros Heq%(f_equal chars)%(f_equal reverse).
  rewrite !chars_app, !reverse_app in Heq. rewrite <- !app_assoc in Heq.
  simpl in Heq.
  apply numeric_run_unique in Heq as [Hpos Hstem];
    [| apply Forall_reverse, (pretty_N_numeric (N.of_nat i))
     | apply Forall_reverse, (pretty_N_numeric (N.of_nat j))
     | apply underscore_not_numeric | apply underscore_not_numeric].
  apply (inj reverse), chars_inj, (inj pretty) in Hpos.
  injection Hstem as Hstem. apply (inj reverse), chars_inj in Hstem.
  done.
Qed.

Lemma chunks_of_lookup ts pdf_path i doc :
  chunks_of E ts pdf_path !! i = Some doc →
  ∃ page, doc = tag_page pdf_path i page.
Proof.
  unfold chunks_of.
  destruct (pdf_load_and_split E (path_str pdf_path) ts) as [pages|e|b]; [|done..].
  rewrite list_lookup_imap. destruct (pages !! i) as [page|]; [|done].
  intros [= <-]. by exists page.
Qed.

Lemma tag_page_chunk_id pdf_path i page :
  chunk_id (tag_page pdf_path i page)
  = Some (VStr (stem pdf_path +:+ "_page_" +:+ pretty (i + 1))).
Proof. unfold chunk_id, tag_page. cbn [metadata]. by simplify_map_eq. Qed.

Lemma same_chunk_id ts p q i j d1 d2 :
  chunks_of E ts p !! i = Some d1 →
  chunks_of E ts q !! j = Some d2 →
  chunk_id d1 = chunk_id d2 →
  stem p = stem q ∧ i = j.
Proof.
  intros [page1 ->]%chunks_of_lookup [page2 ->]%chunks_of_lookup.
  rewrite !tag_page_chunk_id. intros [= Heq].
  apply chunk_id_text_inj in Heq as [? ?]. split; [done | lia].
Qed.

(** X10. A chunk identifier tells which stem and which position it was
    made from: two chunks with the same identifier come from files of the
    same stem and stand at the same position.  So when no two files of the
    folder share a stem, no two chunks of the corpus share an identifier. *)
Theorem chunk_ids_are_distinct ts pdf_files :
  NoDup (stem <$> pdf_files) →
  NoDup (chunk_id <$> corpus_chunks E ts pdf_files) ∧
  ∀ p q i j d1 d2,
    chunks_of E ts p !! i = Some d1 →
    chunks_of E ts q !! j = Some d2 →
    chunk_id d1 = chunk_id d2 →
    stem p = stem q ∧ i = j.
Proof.
  intros Hstems. split; [|intros p q i j d1 d2; apply same_chunk_id].
  unfold corpus_chunks.
  induction pdf_files as [|p rest IH]; [constructor|].
  rewrite fmap_cons in Hstems. apply NoDup_cons in Hstems as [Hp Hrest].
  rewrite fmap_cons. cbn [concat]. rewrite fmap_app. apply NoDup_app.
  split; [|split; [|by apply IH]].
  - apply NoDup_alt. intros i j id.
    rewrite !list_lookup_fmap.
    destruct (chunks_of E ts p !! i) as [d1|] eqn:Hi; [|done].
    destruct (chunks_of E ts p !! j) as [d2|] eqn:Hj; [|done].
    simpl. intros [= <-] [= Heq].
    by destruct (same_chunk_id ts p p i j d1 d2 Hi Hj).
  - intros id (d1 & -> & Hd1)%list_elem_of_fmap (d2 & Heq & Hd2)%list_elem_of_fmap.
    apply list_elem_of_lookup in Hd1 as [i Hi].
    apply elem_of_concat in Hd2 as (chunks & Hd2 & Hchunks).
    apply list_elem_of_fmap in Hchunks as (q & -> & Hq).
    apply list_elem_of_lookup in Hd2 as [j Hj].
    destruct (same_chunk_id ts p q i j d1 d2 Hi Hj Heq) as [Hstem _].
    apply Hp. rewrite Hstem. by apply list_elem_of_fmap_2.
Qed.

(** *** From ingestion to citation *)

Lemma tag_page_citation_key pdf_path i page :
  Chat.citation_key (tag_page pdf_path i page) = Some (name pdf_path, Z.of_nat (i + 1)).
Proof. unfold Chat.citation_key, tag_page. cbn [metadata]. by simplify_map_eq. Qed.

Lemma chunks_of_citation_key ts pdf_path i doc :
  chunks_of E ts pdf_path !! i = Some doc →
  Chat.citation_key doc = Some (name pdf_path, Z.of_nat (i + 1)).
Proof. intros [page ->]%chunks_of_lookup. apply tag_page_citation_key. Qed.

(** X11. What ingestion writes is what the chat reads.  Every chunk of
    the corpus carries the file name and the page number that
    [format_sources] looks up, so that none is cited as "Unknown" or
    "?": chunk number i (from 0) of a file is cited as
    "<name> (page <i+1>)".  Since the positions differ, the chunks of one
    file give one citation each. *)
Theorem ingested_chunks_are_cited ts pdf_files pdf_path :
  Chat.keyed (corpus_chunks E ts pdf_files) ∧
  (∀ i doc,
     chunks_of E ts pdf_path !! i = Some doc →
     Chat.citation_key doc = Some (name pdf_path, Z.of_nat (i + 1)) ∧
     Chat.source_info doc = name pdf_path +:+ " (page " +:+ pretty (i + 1) +:+ ")") ∧
  Chat.citations (chunks_of E ts pdf_path) = Chat.source_info <$> chunks_of E ts pdf_path.
Proof.
  split; [|split].
  - unfold Chat.keyed, corpus_chunks. apply Forall_forall. intros doc Hdoc.
    apply elem_of_concat in Hdoc as (chunks & Hdoc & Hchunks).
    apply list_elem_of_fmap in Hchunks as (p & -> & _).
    apply list_elem_of_lookup in Hdoc as [i Hi].
    rewrite (chunks_of_citation_key ts p i doc Hi). by eexists.
  - intros i doc Hdoc. pose proof (chunks_of_citation_key ts pdf_path i doc Hdoc) as Hkey.
    split; [done|]. rewrite (source_info_render doc _ Hkey).
    unfold Chat.render_citation. cbn [fst snd]. by rewrite pretty_Z_of_nat.
  - unfold Chat.citations.
    rewrite (collect_citations_first_seen _ [] ∅ []) by set_solver.
    cbn [app]. f_equal. apply first_seen_id.
    + apply NoDup_alt. intros i j text. rewrite !list_lookup_fmap.
      destruct (chunks_of E ts pdf_path !! i) as [d1|] eqn:Hi; [|done].
      destruct (chunks_of E ts pdf_path !! j) as [d2|] eqn:Hj; [|done].
      simpl. intros [= <-] [= Heq].
      rewrite (source_info_render d1 _ (chunks_of_citation_key ts pdf_path i d1 Hi)),
        (source_info_render d2 _ (chunks_of_citation_key ts pdf_path j d2 Hj)) in Heq.
      apply render_citation_inj in Heq. injection Heq as Heq. lia.
    + intros doc _ Hin. by apply elem_of_nil in Hin.
Qed.

End IngestChunks.

Section IngestOutcome.
Import Ingest.
Context (E : Externals).
Implicit Types (w : World).

Local Arguments String.app : simpl never.
Local Arguments pretty : simpl never.

(** *** What is sent and what is written *)

Lemma embedded_texts_app h1 h2 :
  embedded_texts (h1 ++ h2) = embedded_texts h1 ++ embedded_texts h2.
Proof. unfold embedded_texts. by rewrite omap_app, concat_app. Qed.

Lemma appended_records_app h1 h2 :
  appended_records (h1 ++ h2) = appended_records h1 ++ appended_records h2.
Proof. unfold appended_records. by rewrite omap_app, concat_app. Qed.

Lemma sent_by_loads pdf_files :
  embedded_texts (EvLoadPdf ∘ path_str <$> pdf_files) = [] ∧
  appended_records (EvLoadPdf ∘ path_str <$> pdf_files) = [].
Proof. by induction pdf_files. Qed.

Lemma sent_by_batches batches :
  embedded_texts (concat (batch_events <$> batches)) = page_content <$> concat batches ∧
  appended_records (concat (batch_events <$> batches)) = record_of <$> concat batches.
Proof.
  induction batches as [|batch rest [IH1 IH2]]; [done|].
  rewrite fmap_cons. cbn [concat]. rewrite !fmap_app.
  rewrite embedded_texts_app, appended_records_app, IH1, IH2.
  unfold embedded_texts, appended_records. simpl. by rewrite !app_nil_r.
Qed.

(** X13. When no load is interrupted, the embeddings client can be
    built, the directory made and the database persisted, and the gateway
    and the collection answer every call, each chunk of the corpus is
    sent to the embedding gateway once and written once, in the order of
    the corpus, and the store gains exactly the records that were handed
    to the collection. *)
Theorem each_chunk_embedded_once w cfg pdf_files ts :
  load_environment E = Returns cfg →
  (0 < batch_size cfg)%Z →
  docs_listing E "docs" = Some pdf_files →
  splitter_init E (chunk_size cfg) (chunk_overlap cfg) = Returns ts →
  loads_complete E ts pdf_files →
  storage_ready E cfg →
  reliable E →
  ∃ w' new,
    ingest_documents E w = (Ok tt, w') ∧
    trace w' = trace w ++ new ∧
    embedded_texts new = page_content <$> corpus_chunks E ts pdf_files ∧
    appended_records new = record_of <$> corpus_chunks E ts pdf_files ∧
    store w' = store w ++ appended_records new.
Proof.
  intros Henv Hpos Hls Hts Hloads Hready Hrel.
  destruct (ingest_documents_reliable E w cfg pdf_files ts)
    as (w' & batches & Hbatches & _ & Hrun & Hstore & Htrace); try done.
  destruct (process_documents_in_batches_positive (corpus_chunks E ts pdf_files)
              (batch_size cfg) Hpos) as (batches' & Hbatches' & Hconcat & _).
  assert (batches' = batches) as -> by congruence.
  destruct (sent_by_loads pdf_files) as [Hl1 Hl2].
  destruct (sent_by_batches batches) as [Hb1 Hb2].
  eexists w', _. split; [exact Hrun|]. split; [exact Htrace|].
  destruct batches as [|batch rest].
  - rewrite app_nil_r, Hl1, Hl2, Hstore, <- Hconcat. done.
  - rewrite !embedded_texts_app, !appended_records_app, Hl1, Hl2, Hb1, Hb2, Hstore, Hconcat.
    unfold embedded_texts, appended_records. simpl. by rewrite !app_nil_r.
Qed.

(** X14. Ingestion does not look at what the store already holds: when
    two runs over the same folder both go through (no load interrupted,
    client, directory and persisting in order, every call answered), the
    second writes every record again, so that the store holds each chunk
    of the corpus twice. *)
Theorem reingestion_duplicates w cfg pdf_files ts :
  load_environment E = Returns cfg →
  (0 < batch_size cfg)%Z →
  docs_listing E "docs" = Some pdf_files →
  splitter_init E (chunk_size cfg) (chunk_overlap cfg) = Returns ts →
  loads_complete E ts pdf_files →
  storage_ready E cfg →
  reliable E →
  ∃ w1 w2,
    ingest_documents E w = (Ok tt, w1) ∧
    ingest_documents E w1 = (Ok tt, w2) ∧
    store w1 = store w ++ (record_of <$> corpus_chunks E ts pdf_files) ∧
    store w2 = store w ++ (record_of <$> corpus_chunks E ts pdf_files)
               ++ (record_of <$> corpus_chunks E ts pdf_files).
Proof.
  intros Henv Hpos Hls Hts Hloads Hready Hrel.
  destruct (ingest_documents_reliable E w cfg pdf_files ts)
    as (w1 & _ & _ & _ & Hrun1 & Hstore1 & _); try done.
  destruct (ingest_documents_reliable E w1 cfg pdf_files ts)
    as (w2 & _ & _ & _ & Hrun2 & Hstore2 & _); try done.
  exists w1, w2. split; [done|]. split; [done|]. split; [done|].
  by rewrite Hstore2, Hstore1, <- app_assoc.
Qed.

(** *** Runs that a failure cuts short *)

(** Whatever the loader answers, the loop over the files loads some of
    the first files and stores nothing. *)
Lemma load_all_cut pdf_files ts acc w :
  ∃ r w' n,
    load_all E pdf_files ts acc w = (r, w') ∧
    store w' = store w ∧
    trace w' = trace w ++ (EvLoadPdf ∘ path_str <$> take n pdf_files) ∧
    match r with
    | Ok documents =>
        documents = acc ++ corpus_chunks E ts pdf_files ∧ length pdf_files ≤ n
    | Escape _ => True
    | Raise _ | Exit _ => False
    end.
Proof.
  revert acc w. induction pdf_files as [|pdf_path rest IH]; intros acc w.
  - exists (Ok acc), w, 0. unfold corpus_chunks. simpl. by rewrite !app_nil_r.
  - cbn [load_all].
    pose proof (load_and_split_pdf_run E pdf_path ts w) as Hload.
    assert (chunks_of E ts pdf_path ++ corpus_chunks E ts rest
            = corpus_chunks E ts (pdf_path :: rest)) as Hchunks by done.
    destruct (pdf_load_and_split E (path_str pdf_path) ts) as [pages|e|b].
    + erewrite bind_ok by exact Hload.
      edestruct IH as (r & w' & n & -> & Hstore & Htrace & Hr).
      exists r, w', (S n). split; [done|]. split; [done|].
      split; [rewrite Htrace; cbn [trace take fmap list_fmap]; by rewrite <- app_assoc|].
      destruct r as [documents| | |]; [|done..].
      destruct Hr as [-> Hn]. rewrite <- app_assoc, Hchunks. split; [done | simpl; lia].
    + erewrite bind_ok by exact Hload.
      edestruct IH as (r & w' & n & -> & Hstore & Htrace & Hr).
      exists r, w', (S n). split; [done|]. split; [done|].
      split; [rewrite Htrace; cbn [trace take fmap list_fmap]; by rewrite <- app_assoc|].
      destruct r as [documents| | |]; [|done..].
      destruct Hr as [-> Hn]. rewrite <- app_assoc, Hchunks. split; [done | simpl; lia].
    + erewrite bind_escape by exact Hload.
      eexists _, _, 1. split; [done|]. split; [done|]. split; [|done].
      cbn [trace take fmap list_fmap]. by rewrite take_0.
Qed.

(** Whatever the gateway and the collection answer, sending one batch
    makes an initial part of its two calls, and stores the batch whole or
    not at all. *)
Lemma send_batch_cut dir batch vs w :
  ∃ r w' h,
    match vs with
    | None => from_texts E (page_content <$> batch) (metadata <$> batch) "pdf_knowledge" dir
    | Some v => add_texts E (page_content <$> batch) (metadata <$> batch);; mret v
    end w = (r, w') ∧
    log w' = log w ∧
    trace w' = trace w ++ opening dir vs ++ h ∧
    h `prefix_of` batch_events batch ∧
    match r with
    | Ok v => v = opened dir vs ∧ h = batch_events batch ∧
              store w' = store w ++ (record_of <$> batch)
    | Raise _ | Escape _ => store w' = store w
    | Exit _ => False
    end.
Proof.
  assert (∀ w0,
    ∃ r w' h,
      add_texts E (page_content <$> batch) (metadata <$> batch) w0 = (r, w') ∧
      log w' = log w0 ∧
      trace w' = trace w0 ++ h ∧
      h `prefix_of` batch_events batch ∧
      match r with
      | Ok _ => h = batch_events batch ∧ store w' = store w0 ++ (record_of <$> batch)
      | Raise _ | Escape _ => store w' = store w0
      | Exit _ => False
      end) as Hadd.
  { intros w0. rewrite add_texts_run.
    destruct (embed_documents E (trace w0) (page_content <$> batch)) as [[]|e|b].
    - destruct (collection_upsert E _ _) as [[]|e|b];
        eexists _, _, (batch_events batch); by repeat split.
    - eexists _, _, [EvEmbed (page_content <$> batch)].
      split; [done|]. split; [done|]. split; [done|].
      split; [apply prefix_cons, prefix_nil | done].
    - eexists _, _, [EvEmbed (page_content <$> batch)].
      split; [done|]. split; [done|]. split; [done|].
      split; [apply prefix_cons, prefix_nil | done]. }
  destruct vs as [v|]; cbn [opening opened default].
  - destruct (Hadd w) as (r & w' & h & Hrun & Hlog & Htrace & Hpre & Hr).
    destruct r as [[]|e|n|b]; [| | done |].
    + erewrite bind_ok by exact Hrun. by exists (Ok v), w', h.
    + erewrite bind_raise by exact Hrun. by exists (Raise e), w', h.
    + erewrite bind_escape by exact Hrun. by exists (Escape b), w', h.
  - unfold from_texts. erewrite bind_ok by reflexivity.
    match goal with
    | |- context [(add_texts E _ _ ≫= _) ?w1] =>
        destruct (Hadd w1) as (r & w' & h & Hrun & Hlog & Htrace & Hpre & Hr)
    end.
    cbn [store trace log] in Hlog, Htrace, Hr.
    rewrite <- app_assoc in Htrace.
    destruct r as [[]|e|n|b]; [| | done |].
    + erewrite bind_ok by exact Hrun. by eexists (Ok _), w', h.
    + erewrite bind_raise by exact Hrun. by exists (Raise e), w', h.
    + erewrite bind_escape by exact Hrun. by exists (Escape b), w', h.
Qed.

(** Whatever the backend answers, the loop over the batches stores some
    of the first batches whole and makes an initial part of the calls of
    a complete run. *)
Lemma ingest_batches_cut dir batches i total vs w :
  ∃ r w' h k,
    ingest_batches E dir batches i total vs w = (r, w') ∧
    trace w' = trace w ++ h ∧
    h `prefix_of` opening dir vs ++ concat (batch_events <$> batches) ∧
    store w' = store w ++ (record_of <$> concat (take k batches)) ∧
    match r with
    | Ok v => v = handle_after dir vs batches ∧
              h = (if batches is [] then [] else opening dir vs)
                  ++ concat (batch_events <$> batches) ∧
              length batches ≤ k
    | Raise _ | Escape _ => True
    | Exit _ => False
    end.
Proof.
  revert i vs w. induction batches as [|batch rest IH]; intros i vs w.
  - exists (Ok vs), w, [], 0. simpl. rewrite !app_nil_r.
    split; [done|]. split; [done|]. split; [apply prefix_nil|]. done.
  - cbn [ingest_batches]. erewrite bind_ok by apply logging_run.
    match goal with
    | |- context [(_ ≫= _) ?w1] =>
        destruct (send_batch_cut dir batch vs w1)
          as (r1 & w1' & h1 & Hrun1 & _ & Htrace1 & Hpre1 & Hr1)
    end.
    cbn [logged store trace] in Htrace1, Hr1.
    assert (opening dir vs ++ h1
            `prefix_of` opening dir vs ++ concat (batch_events <$> batch :: rest)) as Hcut.
    { rewrite fmap_cons. cbn [concat]. by apply prefix_app, prefix_app_r. }
    destruct r1 as [v1|e1|n1|b1]; [| | done |].
    + destruct Hr1 as (-> & -> & Hstore1). erewrite bind_ok by exact Hrun1.
      destruct (IH (i + 1) (Some (opened dir vs)) w1')
        as (r & w' & h & k & Hrun & Htrace & Hpre & Hstore & Hr).
      cbn [opening] in Hpre, Hr.
      exists r, w', (opening dir vs ++ batch_events batch ++ h), (S k).
      split; [exact Hrun|]. split; [by rewrite Htrace, Htrace1, <- !app_assoc|].
      split; [|split].
      * rewrite fmap_cons. cbn [concat]. by apply prefix_app, prefix_app.
      * rewrite Hstore, Hstore1. cbn [take concat].
        by rewrite fmap_app, <- app_assoc.
      * destruct r as [v|e|n|b]; [|done..].
        destruct Hr as (-> & -> & Hk). split; [by destruct rest|].
        split; [|simpl; lia].
        rewrite fmap_cons. cbn [concat]. by destruct rest.
    + erewrite bind_raise by exact Hrun1.
      exists (Raise e1), w1', (opening dir vs ++ h1), 0.
      split; [done|]. split; [done|]. split; [done|]. by rewrite Hr1, app_nil_r.
    + erewrite bind_escape by exact Hrun1.
      exists (Escape b1), w1', (opening dir vs ++ h1), 0.
      split; [done|]. split; [done|]. split; [done|]. by rewrite Hr1, app_nil_r.
Qed.

(** The same for the part of the run that follows the chunking. *)
Lemma embed_and_store_cut cfg documents batches w :
  process_documents_in_batches documents (batch_size cfg) = Returns batches →
  ∃ r w' h k,
    embed_and_store E cfg documents w = (r, w') ∧
    trace w' = trace w ++ h ∧
    h `prefix_of` [EvMakedirs (persist_dir cfg);
                   EvOpenCollection "pdf_knowledge" (persist_dir cfg)]
                  ++ concat (batch_events <$> batches) ++ [EvPersist] ∧
    store w' = store w ++ (record_of <$> concat (take k batches)) ∧
    match r with
    | Ok _ => h = [EvMakedirs (persist_dir cfg);
                   EvOpenCollection "pdf_knowledge" (persist_dir cfg)]
                  ++ concat (batch_events <$> batches) ++ [EvPersist] ∧
              length batches ≤ k
    | Raise _ | Escape _ => True
    | Exit _ => False
    end.
Proof.
  intros Hbatches. unfold embed_and_store, create_embeddings.
  erewrite bind_ok by apply logging_run.
  destruct (openai_embeddings E (openai_api_key cfg) (embedding_model cfg)) as [[]|e|b].
  2:{ erewrite bind_raise by reflexivity. exists (Raise e). eexists _, [], 0.
      split; [done|]. cbn [logged trace store]. rewrite !app_nil_r.
      split; [done|]. split; [apply prefix_nil | done]. }
  2:{ erewrite bind_escape by reflexivity. exists (Escape b). eexists _, [], 0.
      split; [done|]. cbn [logged trace store]. rewrite !app_nil_r.
      split; [done|]. split; [apply prefix_nil | done]. }
  erewrite bind_ok by reflexivity. erewrite bind_ok by apply logging_run.
  erewrite bind_ok by reflexivity. cbn [logged trace store log].
  destruct (makedirs E (persist_dir cfg)) as [[]|e|b].
  2:{ erewrite bind_raise by reflexivity.
      exists (Raise e). eexists _, [EvMakedirs (persist_dir cfg)], 0.
      split; [done|]. cbn [trace store]. rewrite app_nil_r.
      split; [done|]. split; [apply prefix_cons, prefix_nil | done]. }
  2:{ erewrite bind_escape by reflexivity.
      exists (Escape b). eexists _, [EvMakedirs (persist_dir cfg)], 0.
      split; [done|]. cbn [trace store]. rewrite app_nil_r.
      split; [done|]. split; [apply prefix_cons, prefix_nil | done]. }
  erewrite bind_ok by reflexivity. rewrite Hbatches.
  erewrite bind_ok by reflexivity. erewrite bind_ok by apply logging_run.
  cbn [logged trace store log].
  match goal with
  | |- context [(ingest_batches E ?dir batches 0 ?total None ≫= _) ?w1] =>
      destruct (ingest_batches_cut dir batches 0 total None w1)
        as (r & w' & h & k & Hrun & Htrace & Hpre & Hstore & Hr)
  end.
  cbn [logged trace store opening] in Htrace, Hstore, Hpre, Hr.
  assert ([EvMakedirs (persist_dir cfg)] ++ h
          `prefix_of` [EvMakedirs (persist_dir cfg);
                       EvOpenCollection "pdf_knowledge" (persist_dir cfg)]
                      ++ concat (batch_events <$> batches) ++ [EvPersist]) as Hcut.
  { change ([EvMakedirs (persist_dir cfg)] ++ h
      `prefix_of` [EvMakedirs (persist_dir cfg)]
                  ++ ([EvOpenCollection "pdf_knowledge" (persist_dir cfg)]
                      ++ concat (batch_events <$> batches)) ++ [EvPersist]).
    by apply prefix_app, prefix_app_r. }
  destruct r as [v|e|n|b]; [| | done |].
  - destruct Hr as (-> & -> & Hk). erewrite bind_ok by exact Hrun.
    destruct batches as [|batch rest]; cbn [handle_after].
    + exists (Raise (AttributeError "'NoneType' object has no attribute 'persist'")).
      eexists _, [EvMakedirs (persist_dir cfg)], 0.
      split; [done|]. rewrite Htrace, Hstore, take_nil. simpl. rewrite !app_nil_r.
      split; [done|]. split; [apply prefix_cons, prefix_nil | done].
    + erewrite bind_ok by reflexivity. erewrite bind_ok by reflexivity.
      cbn [trace store log].
      assert (trace w' ++ [EvPersist]
              = trace w ++ [EvMakedirs (persist_dir cfg);
                            EvOpenCollection "pdf_knowledge" (persist_dir cfg)]
                        ++ concat (batch_events <$> batch :: rest) ++ [EvPersist]) as Hfull
        by (rewrite Htrace; by rewrite <- !app_assoc).
      destruct (persist E (trace w')) as [[]|e|b].
      * erewrite bind_ok by reflexivity. erewrite bind_ok by apply logging_run.
        rewrite logging_run.
        eexists (Ok tt), _, _, k. split; [done|]. cbn [trace store logged].
        split; [exact Hfull|]. by rewrite Hstore.
      * erewrite bind_raise by reflexivity.
        eexists (Raise e), _, _, k. split; [done|]. cbn [trace store].
        split; [exact Hfull|]. by rewrite Hstore.
      * erewrite bind_escape by reflexivity.
        eexists (Escape b), _, _, k. split; [done|]. cbn [trace store].
        split; [exact Hfull|]. by rewrite Hstore.
  - erewrite bind_raise by exact Hrun.
    exists (Raise e), w', ([EvMakedirs (persist_dir cfg)] ++ h), k.
    split; [done|]. rewrite Htrace, Hstore. by rewrite <- !app_assoc.
  - erewrite bind_escape by exact Hrun.
    exists (Escape b), w', ([EvMakedirs (persist_dir cfg)] ++ h), k.
    split; [done|]. rewrite Htrace, Hstore. by rewrite <- !app_assoc.
Qed.

(** The body of the [try], under a configuration, a listing, a splitter
    and a batching. *)
Lemma ingest_body_cut w cfg pdf_files ts batches :
  load_environment E = Returns cfg →
  docs_listing E "docs" = Some pdf_files →
  splitter_init E (chunk_size cfg) (chunk_overlap cfg) = Returns ts →
  process_documents_in_batches (corpus_chunks E ts pdf_files) (batch_size cfg)
  = Returns batches →
  ∃ r w' h k,
    ingest_body E w = (r, w') ∧
    trace w' = trace w ++ h ∧
    h `prefix_of` complete_history (persist_dir cfg) pdf_files batches ∧
    store w' = store w ++ (record_of <$> concat (take k batches)) ∧
    (r = Ok tt →
     corpus_chunks E ts pdf_files ≠ [] →
     h = complete_history (persist_dir cfg) pdf_files batches ∧ length batches ≤ k).
Proof.
  intros Henv Hls Hts Hbatches. unfold ingest_body, complete_history. rewrite Henv.
  erewrite bind_ok by reflexivity. erewrite bind_ok by apply logging_run.
  unfold find_pdf_files. rewrite Hls.
  erewrite bind_ok.
  2:{ erewrite bind_ok by apply logging_run. reflexivity. }
  destruct pdf_files as [|p rest].
  { eexists (Ok tt), _, [], 0. split; [done|]. cbn [logged logging modify trace store].
    rewrite !app_nil_r. split; [done|]. split; [apply prefix_nil|]. done. }
  rewrite Hts. erewrite bind_ok by reflexivity.
  match goal with
  | |- context [(load_all E ?files ts [] ≫= _) ?w1] =>
      destruct (load_all_cut files ts [] w1) as (r0 & w0 & n & Hload & Hstore0 & Htrace0 & Hr0)
  end.
  cbn [logged trace store] in Hstore0, Htrace0.
  destruct r0 as [documents|e|c|b]; [|done|done|].
  2:{ erewrite bind_escape by exact Hload.
      eexists (Escape b), w0, _, 0. split; [done|]. split; [exact Htrace0|].
      split; [|by rewrite Hstore0, app_nil_r].
      rewrite fmap_take. apply prefix_app_r, prefix_take. }
  destruct Hr0 as [-> Hn]. rewrite take_ge in Htrace0 by done.
  erewrite bind_ok by exact Hload. cbn [app] in *.
  destruct (corpus_chunks E ts (p :: rest)) as [|d ds] eqn:Hchunks.
  { eexists (Ok tt), _, _, 0. split; [done|]. cbn [logging modify trace store].
    split; [exact Htrace0|]. split; [by apply prefix_app_r|].
    split; [by rewrite Hstore0, app_nil_r | done]. }
  destruct (embed_and_store_cut cfg (d :: ds) batches w0 Hbatches)
    as (r & w' & h & k & -> & Htrace & Hpre & Hstore & Hr).
  exists r, w', ((EvLoadPdf ∘ path_str <$> p :: rest) ++ h), k.
  split; [done|]. split; [by rewrite Htrace, Htrace0, <- app_assoc|].
  split; [by apply prefix_app|]. split; [by rewrite Hstore, Hstore0|].
  intros -> _. destruct Hr as [-> Hk]. done.
Qed.

(** X15. Failures only cut a run short.  Whatever the loader, the
    gateway and the collection answer, the calls that a run makes are an
    initial part of the calls of a run in which nothing fails, and the
    store gains the records of some first batches, each of them whole: no
    batch is written in part, and none is written before an earlier one.
    A run that ends normally over a corpus with chunks has made all the
    calls and written all the batches. *)
Theorem failures_only_cut_short w cfg pdf_files ts batches :
  load_environment E = Returns cfg →
  docs_listing E "docs" = Some pdf_files →
  splitter_init E (chunk_size cfg) (chunk_overlap cfg) = Returns ts →
  process_documents_in_batches (corpus_chunks E ts pdf_files) (batch_size cfg)
  = Returns batches →
  ∃ h k,
    trace (ingest_documents E w).2 = trace w ++ h ∧
    h `prefix_of` complete_history (persist_dir cfg) pdf_files batches ∧
    store (ingest_documents E w).2 = store w ++ (record_of <$> concat (take k batches)) ∧
    ((ingest_documents E w).1 = Ok tt →
     corpus_chunks E ts pdf_files ≠ [] →
     h = complete_history (persist_dir cfg) pdf_files batches ∧ length batches ≤ k).
Proof.
  intros Henv Hls Hts Hbatches. rewrite ingest_documents_unfold.
  match goal with
  | |- context [ingest_body E ?w1] =>
      destruct (ingest_body_cut w1 cfg pdf_files ts batches Henv Hls Hts Hbatches)
        as (r & w' & h & k & -> & Htrace & Hpre & Hstore & Hr)
  end.
  cbn [logged trace store] in Htrace, Hstore.
  destruct r as [[]|e|n|b]; cbn [fst snd logged trace store];
    exists h, k; (split; [done|]); (split; [done|]); (split; [done|]);
    first [exact Hr | intros [=]].
Qed.

End IngestOutcome.

(** * More about the chat *)

Section ChatStart.
Import Chat.
Context (E : Externals).
Implicit Types (w : World) (m : list Turn).

Local Arguments String.app : simpl never.
Local Arguments pretty : simpl never.
Local Arguments repeat_str : simpl never.

Ltac run_handler :=
  cbv beta; do 6 (erewrite bind_ok by reflexivity; cbn [memory stdout log trace]).

Lemma print_welcome_run w :
  print_welcome w
  = (Ok tt, {| memory := memory w; stdout := stdout w ++ welcome;
               log := log w; trace := trace w |}).
Proof.
  unfold print_welcome, welcome.
  do 5 (erewrite bind_ok by reflexivity; cbn [memory stdout log trace]).
  unfold print, modify. cbn [memory stdout log trace]. by rewrite <- !app_assoc.
Qed.

Lemma initialize_vectorstore_ok cfg w :
  path_exists E (persist_dir cfg) = true →
  collection_count E (persist_dir cfg) ≠ 0 →
  initialize_vectorstore E cfg w
  = (Ok (Chroma "pdf_knowledge" (persist_dir cfg)),
     {| memory := memory w; stdout := stdout w;
        log := log w ++ [(INFO, "Loaded vector store with "
                                +:+ pretty (collection_count E (persist_dir cfg))
                                +:+ " document chunks")];
        trace := trace w ++ [EvOpenCollection "pdf_knowledge" (persist_dir cfg); EvCount] |}).
Proof.
  intros Hdir Hcount. unfold initialize_vectorstore. rewrite Hdir. cbn [negb].
  erewrite bind_ok by reflexivity. erewrite bind_ok by reflexivity.
  destruct (decide (collection_count E (persist_dir cfg) = 0)); [done|].
  erewrite bind_ok by reflexivity. unfold mret, M_ret, ret.
  cbn [memory stdout log trace]. by rewrite <- app_assoc.
Qed.

(** A start-up that succeeds hands over to the loop, with an empty
    memory, after the banner. *)
Lemma chat_loop_started inputs w cfg :
  load_environment E = Returns cfg →
  path_exists E (persist_dir cfg) = true →
  collection_count E (persist_dir cfg) ≠ 0 →
  chat_loop E inputs w
  = conversation E
      (ConversationalRetrievalChain (Chroma "pdf_knowledge" (persist_dir cfg))
         (retrieval_k cfg) true)
      inputs
      {| memory := Some [];
         stdout := stdout w ++ welcome;
         log := log w
                ++ [(INFO, "Starting RAG Chatbot...");
                    (INFO, "Environment configuration loaded");
                    (INFO, "Loaded vector store with "
                           +:+ pretty (collection_count E (persist_dir cfg))
                           +:+ " document chunks");
                    (INFO, "Conversational retrieval chain initialized")];
         trace := trace w ++ [EvOpenCollection "pdf_knowledge" (persist_dir cfg); EvCount] |}.
Proof.
  intros Henv Hdir Hcount. unfold chat_loop.
  erewrite bind_ok by apply logging_run_chat.
  match goal with
  | |- try_except ?body _ ?w1 = conversation E ?chain inputs ?w3 =>
      assert (body w1 = conversation E chain inputs w3) as Hbody
  end.
  { rewrite Henv. erewrite bind_ok by reflexivity.
    erewrite bind_ok by apply logging_run_chat. cbn [memory stdout log trace].
    erewrite bind_ok by (by apply initialize_vectorstore_ok). cbn [memory stdout log trace].
    erewrite bind_ok by reflexivity. cbn [memory stdout log trace].
    erewrite bind_ok by apply logging_run_chat. cbn [memory stdout log trace].
    erewrite bind_ok by apply print_welcome_run. cbn [memory stdout log trace].
    by rewrite <- !app_assoc. }
  unfold try_except. rewrite Hbody.
  match goal with
  | |- context [conversation E ?chain inputs ?w3] =>
      destruct (conversation_invariant E chain inputs eq_refl w3 [] eq_refl)
        as (r & w' & new & -> & [-> | [-> | (b & question & -> & _)]] & _)
  end; done.
Qed.

(** A start-up that raises ends the script with status 1, after the
    error and the troubleshooting steps. *)
Lemma chat_loop_env_fails inputs w e :
  load_environment E = Throws e →
  chat_loop E inputs w
  = (Exit 1,
     {| memory := memory w;
        stdout := stdout w ++ troubleshooting e;
        log := log w ++ [(INFO, "Starting RAG Chatbot...");
                         (ERROR, "Chat initialization failed: " +:+ exn_msg e)];
        trace := trace w |}).
Proof.
  intros Henv. unfold chat_loop. erewrite bind_ok by apply logging_run_chat.
  erewrite try_except_raise by (rewrite Henv; erewrite bind_raise by reflexivity; reflexivity).
  run_handler. unfold sys_exit, troubleshooting. cbn [memory stdout log trace].
  by rewrite <- !app_assoc.
Qed.

Lemma chat_loop_init_fails inputs w cfg e h :
  load_environment E = Returns cfg →
  (∀ w1, initialize_vectorstore E cfg w1
         = (Raise e, {| memory := memory w1; stdout := stdout w1; log := log w1;
                        trace := trace w1 ++ h |})) →
  chat_loop E inputs w
  = (Exit 1,
     {| memory := memory w;
        stdout := stdout w ++ troubleshooting e;
        log := log w ++ [(INFO, "Starting RAG Chatbot...");
                         (INFO, "Environment configuration loaded");
                         (ERROR, "Chat initialization failed: " +:+ exn_msg e)];
        trace := trace w ++ h |}).
Proof.
  intros Henv Hinit. unfold chat_loop. erewrite bind_ok by apply logging_run_chat.
  erewrite try_except_raise.
  2:{ rewrite Henv. erewrite bind_ok by reflexivity.
      erewrite bind_ok by apply logging_run_chat.
      erewrite bind_raise by apply Hinit. reflexivity. }
  run_handler. unfold sys_exit, troubleshooting. cbn [memory stdout log trace].
  by rewrite <- !app_assoc.
Qed.

Lemma initialize_vectorstore_no_database cfg w :
  path_exists E (persist_dir cfg) = false →
  initialize_vectorstore E cfg w
  = (Raise (FileNotFoundError
              ("Database directory '" +:+ persist_dir cfg +:+ "' not found. "
               +:+ "Please run ingest.py first to create the knowledge base.")),
     {| memory := memory w; stdout := stdout w; log := log w; trace := trace w ++ [] |}).
Proof.
  intros Hdir. unfold initialize_vectorstore. rewrite Hdir. cbn [negb].
  rewrite app_nil_r. by destruct w.
Qed.

(** X17. Without [OPENAI_API_KEY] the chat does not start: it prints
    the error and the troubleshooting steps and exits with status 1; the
    database is not looked for, no prompt is shown and nothing is read. *)
Theorem missing_key_aborts_chat inputs w :
  env_truthy (getenv E "OPENAI_API_KEY") = false →
  ∃ w',
    chat_loop E inputs w = (Exit 1, w') ∧
    memory w' = memory w ∧
    trace w' = trace w ∧
    stdout w'
    = stdout w
      ++ troubleshooting
           (ValueError "Missing required environment variables: ['OPENAI_API_KEY']").
Proof.
  intros Hkey. eexists. split.
  - apply chat_loop_env_fails. unfold load_environment. simpl. by rewrite Hkey.
  - done.
Qed.

(** X18. When the database directory does not exist the chat does not
    start: it tells to run [ingest.py] first and exits with status 1
    without opening a collection, showing a prompt or reading anything. *)
Theorem missing_database_aborts_chat inputs w cfg :
  load_environment E = Returns cfg →
  path_exists E (persist_dir cfg) = false →
  ∃ w',
    chat_loop E inputs w = (Exit 1, w') ∧
    memory w' = memory w ∧
    trace w' = trace w ∧
    stdout w'
    = stdout w
      ++ troubleshooting
           (FileNotFoundError
              ("Database directory '" +:+ persist_dir cfg +:+ "' not found. "
               +:+ "Please run ingest.py first to create the knowledge base.")).
Proof.
  intros Henv Hdir. eexists. split.
  - eapply (chat_loop_init_fails inputs w cfg _ []); [done|].
    intros w1. by apply initialize_vectorstore_no_database.
  - cbn [memory trace stdout]. by rewrite app_nil_r.
Qed.

(** *** What a session adds *)



















End ChatStart.

Section ChatPrompt.
Import Chat.
Context (E : Externals).
Implicit Types (w : World) (m : list Turn).

Local Arguments String.app : simpl never.

(** [strip] of a text made of white space only. *)
Lemma lstrip_blank (cs : list string) :
  Forall (λ c, is_space c = true) cs → lstrip cs = [].
Proof.
  induction cs as [|c cs IH]; [done|]. simpl.
  intros [Hc Hs]%Forall_cons. rewrite Hc. by apply IH.
Qed.

Lemma strip_blank s :
  Forall (λ c, is_space c = true) (utf8_chars s) → strip s = "".
Proof. intros Hs. unfold strip. by rewrite (lstrip_blank (utf8_chars s)). Qed.

(** The loop stops at an input that reads as an exit command. *)
Lemma conversation_stops chain next rest w user_input :
  (next = Line user_input ∨ (next = EOFError ∧ user_input = "exit")) →
  is_exit_command (strip user_input) = true →
  conversation E chain (next :: rest) w
  = (Ok tt, {| memory := memory w; stdout := stdout w ++ [goodbye];
               log := log w; trace := trace w ++ [EvPrompt] |}).
Proof.
  intros Hnext Hexit. cbn [conversation]. unfold iteration, get_user_input.
  destruct Hnext as [-> | [-> ->]].
  - erewrite bind_ok.
    2:{ erewrite bind_ok by reflexivity. reflexivity. }
    by rewrite Hexit.
  - erewrite bind_ok.
    2:{ erewrite bind_ok by reflexivity. reflexivity. }
    done.
Qed.

(** X21. An exit command ends the session at once.  When the line
    typed at the prompt, stripped of the white space around it (that of
    Unicode: a no-break space as well as a blank or a tab) and lowered, is
    [exit], [quit], [q] or empty, or when the input is at its end, the
    loop prints the goodbye and returns: the chain is not called, the
    memory is as it was, and what follows on the console is never read. *)
Theorem exit_command_ends_session chain next rest w :
  next = EOFError ∨
    (∃ s, next = Line s ∧ lower (strip s) ∈ ["exit"; "quit"; "q"; ""]) →
  ∃ w',
    conversation E chain (next :: rest) w = (Ok tt, w') ∧
    memory w' = memory w ∧
    stdout w' = stdout w ++ [goodbye] ∧
    trace w' = trace w ++ [EvPrompt].
Proof.
  intros [-> | (s & -> & Hs)]; eexists.
  - split; [apply (conversation_stops chain EOFError rest w "exit");
             [by right | reflexivity] | done].
  - split; [apply (conversation_stops chain (Line s) rest w s); [by left|] | done].
    unfold is_exit_command. by apply bool_decide_eq_true.
Qed.

(** X22. A line of white space only is an exit command too: pressing
    Enter at the prompt, with or without white space before it (any
    character that [str.isspace()] accepts, U+00A0 and U+3000 among
    them), ends the session. *)
Theorem blank_line_ends_session chain s rest w :
  Forall (λ c, is_space c = true) (utf8_chars s) →
  ∃ w',
    conversation E chain (Line s :: rest) w = (Ok tt, w') ∧
    memory w' = memory w ∧
    stdout w' = stdout w ++ [goodbye] ∧
    trace w' = trace w ++ [EvPrompt].
Proof.
  intros Hs. eexists.
  split; [apply (conversation_stops chain (Line s) rest w s); [by left|] | done].
  by rewrite strip_blank.
Qed.

(** X23. An interrupt at the prompt leaves the script with status 0,
    after a goodbye, at whatever point of the session it comes: the chain
    is not called, the memory is as it was, and since [sys.exit] is no
    [Exception] neither the handler of the loop nor that of the start-up
    turns it into a failure. *)
Theorem interrupt_exits_cleanly chain rest w :
  conversation E chain (KeyboardInterrupt :: rest) w
  = (Exit 0, {| memory := memory w;
                stdout := stdout w ++ [nl +:+ nl +:+ "👋 Goodbye!"];
                log := log w;
                trace := trace w ++ [EvPrompt] |}) ∧
  ∀ cfg,
    load_environment E = Returns cfg →
    path_exists E (persist_dir cfg) = true →
    collection_count E (persist_dir cfg) ≠ 0 →
    (chat_loop E (KeyboardInterrupt :: rest) w).1 = Exit 0 ∧
    memory (chat_loop E (KeyboardInterrupt :: rest) w).2 = Some [].
Proof.
  assert (∀ w0, conversation E chain (KeyboardInterrupt :: rest) w0
                = (Exit 0, {| memory := memory w0;
                              stdout := stdout w0 ++ [nl +:+ nl +:+ "👋 Goodbye!"];
                              log := log w0;
                              trace := trace w0 ++ [EvPrompt] |})) as Hint.
  { intros w0. cbn [conversation]. unfold iteration, get_user_input.
    erewrite bind_exit.
    2:{ erewrite bind_ok by reflexivity. erewrite bind_ok by reflexivity. reflexivity. }
    done. }
  split; [apply Hint|].
  intros cfg Henv Hdir Hcount.
  rewrite (chat_loop_started E _ w cfg) by done.
  cbn [conversation]. unfold iteration, get_user_input.
  erewrite bind_exit.
  2:{ erewrite bind_ok by reflexivity. erewrite bind_ok by reflexivity. reflexivity. }
  done.
Qed.

(** X24. Every question gets its answer or its error on the console.
    When the chain returns, the answer, the formatted sources, the
    response time and a rule are printed and the time is logged, and the
    query ends normally; when it raises an [Exception], the text of the
    error, a hint and the rule are printed, the error is logged, no source
    is shown, and the query ends normally too.  When the call is
    interrupted ([KeyboardInterrupt] is no [Exception]) the handler does
    not run: nothing is printed or logged and the interrupt leaves the
    query. *)
Theorem query_outcome_is_shown chain question w m :
  has_memory chain = true →
  memory w = Some m →
  ∃ w',
    match chain_run E m (trace w) question with
    | Returns r =>
        let response_time :=
          response_time_2f E (trace w ++ [EvChain question (Returns (answer r))]) in
        process_query E chain question w = (Ok tt, w') ∧
        stdout w'
        = stdout w ++ [nl +:+ "🤖 RAGbot: " +:+ answer r;
                       nl +:+ "📚 " +:+ format_sources (source_documents r);
                       "⏱️  Response time: " +:+ response_time +:+ "s";
                       repeat_str "-" 60] ∧
        log w' = log w ++ [(INFO, "Query processed in " +:+ response_time +:+ "s")]
    | Throws e =>
        process_query E chain question w = (Ok tt, w') ∧
        stdout w'
        = stdout w ++ [nl +:+ "❌ Sorry, I encountered an error: " +:+ exn_msg e;
                       "Please try rephrasing your question.";
                       repeat_str "-" 60] ∧
        log w' = log w ++ [(ERROR, "Error processing query: " +:+ exn_msg e)]
    | Interrupted b =>
        process_query E chain question w = (Escape b, w') ∧
        stdout w' = stdout w ∧
        log w' = log w
    end.
Proof.
  intros Hchain Hm. unfold process_query.
  pose proof (qa_chain_run E chain question w m Hchain Hm) as Hrun.
  destruct (chain_run E m (trace w) question) as [r|e|b].
  - erewrite try_except_ok.
    2:{ erewrite bind_ok by exact Hrun. erewrite bind_ok by reflexivity.
        cbn [memory stdout log trace].
        erewrite bind_ok by reflexivity. cbn [memory stdout log trace].
        reflexivity. }
    eexists. split; [reflexivity|]. cbn [memory stdout log trace].
    by rewrite <- !app_assoc.
  - erewrite try_except_raise by (erewrite bind_raise by exact Hrun; reflexivity).
    do 3 (erewrite bind_ok by reflexivity; cbn [memory stdout log trace]).
    eexists. split; [reflexivity|]. cbn [memory stdout log trace].
    by rewrite <- !app_assoc.
  - erewrite try_except_escape by (erewrite bind_escape by exact Hrun; reflexivity).
    eexists. split; [reflexivity|]. done.
Qed.

End ChatPrompt.

Section Citations.
Import Chat.
Implicit Types (doc : Document) (docs : list Document).

Local Arguments String.app : simpl never.

Lemma citations_first_seen docs :
  citations docs = source_info <$> first_seen source_info [] docs.
Proof.
  unfold citations. by rewrite (collect_citations_first_seen docs [] ∅ []) by set_solver.
Qed.

Lemma first_seen_app {A K} `{EqDecision K} (key : A → K) seen (l1 l2 : list A) :
  first_seen key seen (l1 ++ l2)
  = first_seen key seen l1 ++ first_seen key ((key <$> l1) ++ seen) l2.
Proof.
  revert seen. induction l1 as [|x l1 IH]; intros seen; simpl; [done|].
  case_decide as Hx.
  - rewrite IH. f_equal. apply first_seen_ext; [done|].
    intros y _. rewrite !elem_of_app, !elem_of_cons, !elem_of_app.
    split; [tauto|]. intros [->|?]; tauto.
  - rewrite IH. simpl. do 2 f_equal. apply first_seen_ext; [done|].
    intros y _. rewrite !elem_of_app, !elem_of_cons, !elem_of_app. tauto.
Qed.

(** X25. Whatever metadata the retrieved chunks carry, no citation
    comes twice, every chunk is cited and nothing else is: the citations
    are the texts of the chunks with the repetitions left out, in the
    order of first appearance, so there are at most as many as chunks. *)
Theorem citations_cover_sources docs :
  NoDup (citations docs) ∧
  (∀ text, text ∈ citations docs ↔ text ∈ source_info <$> docs) ∧
  citations docs `sublist_of` source_info <$> docs ∧
  length (citations docs) ≤ length docs.
Proof.
  rewrite citations_first_seen.
  assert (source_info <$> first_seen source_info [] docs `sublist_of` source_info <$> docs)
    as Hsub by apply fmap_sublist, first_seen_sublist.
  split; [apply first_seen_NoDup|]. split; [|split; [done|]].
  - intros text. split; [intros Hin; by eapply elem_of_sublist|].
    intros (doc & -> & Hdoc)%list_elem_of_fmap.
    destruct (first_seen_keys source_info [] docs doc Hdoc) as [Hin|Hin]; [|done].
    by apply elem_of_nil in Hin.
  - apply sublist_length in Hsub. rewrite !length_fmap in Hsub. by rewrite length_fmap.
Qed.

(** X26. A chunk without a file name is cited as "Unknown", one
    without a page number as page "?"; chunks that carry neither are all
    cited alike, so that any number of them gives the one citation
    "Unknown (page ?)". *)
Theorem unlabelled_chunks_cite_unknown doc docs :
  Forall (λ d, metadata d !! "filename" = None ∧ metadata d !! "page_number" = None)
         (doc :: docs) →
  format_sources (doc :: docs) = "Sources: " +:+ "Unknown (page ?)".
Proof.
  intros Hdocs.
  assert (∀ d, d ∈ doc :: docs → source_info d = "Unknown (page ?)") as Hinfo.
  { intros d Hd. apply (proj1 (Forall_forall _ _) Hdocs) in Hd as [Hf Hp].
    unfold source_info. by rewrite Hf, Hp. }
  unfold format_sources. change (collect_citations ?l [] ∅) with (citations l).
  rewrite citations_first_seen. cbn [first_seen].
  destruct (decide (source_info doc ∈ [])) as [Hin|_]; [by apply elem_of_nil in Hin|].
  assert (first_seen source_info [source_info doc] docs = []) as ->.
  { assert (∀ d, d ∈ docs → source_info d ∈ [source_info doc]) as Hseen.
    { intros d Hd. rewrite (Hinfo d), (Hinfo doc); [apply list_elem_of_here | | ].
      - apply list_elem_of_here.
      - by apply list_elem_of_further. }
    clear Hdocs Hinfo. induction docs as [|d docs IH]; [done|]. simpl.
    destruct (decide (source_info d ∈ [source_info doc])) as [_|Hout].
    - apply IH. intros d' Hd'. apply Hseen. by apply list_elem_of_further.
    - destruct Hout. apply Hseen, list_elem_of_here. }
  simpl. by rewrite (Hinfo doc) by apply list_elem_of_here.
Qed.

(** X27. A chunk whose source was already cited adds nothing: wherever
    it stands after a chunk with the same citation text, the formatted
    sources are the same with it and without it. *)
Theorem repeated_source_adds_nothing before doc after :
  source_info doc ∈ source_info <$> before →
  format_sources (before ++ doc :: after) = format_sources (before ++ after).
Proof.
  intros Hin.
  destruct before as [|d before]; [by apply elem_of_nil in Hin|].
  unfold format_sources. cbn [app]. change (collect_citations ?l [] ∅) with (citations l).
  rewrite !citations_first_seen. do 3 f_equal.
  change (d :: before ++ doc :: after) with ((d :: before) ++ doc :: after).
  change (d :: before ++ after) with ((d :: before) ++ after).
  rewrite !first_seen_app. f_equal. cbn [first_seen].
  rewrite app_nil_r. by rewrite decide_True.
Qed.

End Citations.

(** ** Runs that stop before the end *)

Section IngestStops.
Import Ingest.
Context (E : Externals).
Implicit Types (w : World).

Local Arguments String.app : simpl never.
Local Arguments pretty : simpl never.

(** The loop over the files stops at the file whose load is
    interrupted. *)
Lemma load_all_interrupted before pdf_path after ts acc w b :
  loads_complete E ts before →
  pdf_load_and_split E (path_str pdf_path) ts = Interrupted b →
  load_all E (before ++ pdf_path :: after) ts acc w
  = (Escape b,
     {| store := store w;
        trace := trace w ++ (EvLoadPdf ∘ path_str <$> before ++ [pdf_path]);
        log := log w ++ concat (load_lines E ts <$> before)
               ++ [(INFO, "Processing " +:+ name pdf_path +:+ "...")] |}).
Proof.
  intros Hbefore Hint. revert acc w.
  induction before as [|p before IH]; intros acc w.
  - cbn [app load_all]. erewrite bind_escape; [reflexivity|].
    rewrite load_and_split_pdf_run. unfold load_lines. rewrite Hint. done.
  - apply loads_complete_cons in Hbefore as [Hfirst Hrest].
    rewrite <- app_comm_cons. cbn [load_all].
    erewrite bind_ok.
    2:{ rewrite load_and_split_pdf_run.
        destruct (pdf_load_and_split E (path_str p) ts) as [pages|e|b'];
          [reflexivity | reflexivity | by destruct (Hfirst b')]. }
    rewrite IH by done. cbn [store trace log]. rewrite !fmap_cons. cbn [concat].
    by rewrite <- !app_assoc.
Qed.

Lemma add_texts_embed_interrupted batch w b :
  embed_documents E (trace w) (page_content <$> batch) = Interrupted b →
  add_texts E (page_content <$> batch) (metadata <$> batch) w
  = (Escape b, {| store := store w;
                 trace := trace w ++ [EvEmbed (page_content <$> batch)];
                 log := log w |}).
Proof. intros Hembed. by rewrite add_texts_run, Hembed. Qed.

Lemma add_texts_write_interrupted batch w b :
  embed_documents E (trace w) (page_content <$> batch) = Returns tt →
  collection_upsert E (trace w ++ [EvEmbed (page_content <$> batch)]) (record_of <$> batch)
    = Interrupted b →
  add_texts E (page_content <$> batch) (metadata <$> batch) w
  = (Escape b, {| store := store w;
                 trace := trace w ++ batch_events batch;
                 log := log w |}).
Proof. intros Hembed Hwrite. by rewrite add_texts_run, Hembed, Hwrite. Qed.

(** Sending a batch one of whose calls is interrupted. *)
Lemma send_batch_interrupted dir batch vs w b :
  batch_interrupted E dir (trace w) vs batch b →
  ∃ w',
    match vs with
    | None => from_texts E (page_content <$> batch) (metadata <$> batch) "pdf_knowledge" dir
    | Some v => add_texts E (page_content <$> batch) (metadata <$> batch);; mret v
    end w = (Escape b, w') ∧
    store w' = store w ∧ log w' = log w ∧
    (trace w' = trace w ++ opening dir vs ++ [EvEmbed (page_content <$> batch)] ∨
     trace w' = trace w ++ opening dir vs ++ batch_events batch).
Proof.
  intros [Hembed|[Hembed Hwrite]]; destruct vs as [v|]; simpl in *;
    rewrite ?app_nil_r in *.
  - eexists. split; [|split; [|split]].
    + erewrite bind_escape by (by apply add_texts_embed_interrupted). done.
    + done.
    + done.
    + by left.
  - eexists. split; [|split; [|split]].
    + unfold from_texts. erewrite bind_ok by reflexivity.
      erewrite bind_escape by (by apply add_texts_embed_interrupted). done.
    + done.
    + done.
    + left. simpl. by rewrite <- app_assoc.
  - eexists. split; [|split; [|split]].
    + erewrite bind_escape by (by apply add_texts_write_interrupted). done.
    + done.
    + done.
    + by right.
  - eexists. split; [|split; [|split]].
    + unfold from_texts. erewrite bind_ok by reflexivity.
      erewrite bind_escape by (by apply add_texts_write_interrupted). done.
    + done.
    + done.
    + right. simpl. by rewrite <- app_assoc.
Qed.

Lemma ingest_batches_interrupted dir batch rest i total vs w b :
  batch_interrupted E dir (trace w) vs batch b →
  ∃ w',
    ingest_batches E dir (batch :: rest) i total vs w = (Escape b, w') ∧
    store w' = store w ∧
    log w' = log w ++ [batch_line i total batch] ∧
    (trace w' = trace w ++ opening dir vs ++ [EvEmbed (page_content <$> batch)] ∨
     trace w' = trace w ++ opening dir vs ++ batch_events batch).
Proof.
  intros Hfail.
  set (w1 := {| store := store w; trace := trace w;
                log := log w ++ [batch_line i total batch] |}).
  destruct (send_batch_interrupted dir batch vs w1 b Hfail) as (w' & Hrun & Hstore & Hlog & Htrace).
  exists w'. split; [|by rewrite Hstore, Hlog].
  cbn [ingest_batches].
  erewrite bind_ok by reflexivity.
  erewrite bind_escape by exact Hrun. done.
Qed.

Lemma embed_and_store_interrupted cfg documents pre batch post b w :
  let dir := persist_dir cfg in
  let h0 := trace w ++ [EvMakedirs dir] in
  storage_opens E cfg →
  process_documents_in_batches documents (batch_size cfg) = Returns (pre ++ batch :: post) →
  batches_succeed E dir h0 None pre →
  batch_interrupted E dir (history_after dir h0 None pre) (handle_after dir None pre) batch b →
  ∃ lines w',
    embed_and_store E cfg documents w = (Escape b, w') ∧
    store w' = store w ++ (record_of <$> concat pre) ∧
    log w' = log w ++ lines ++ [batch_line (length pre) (length (pre ++ batch :: post)) batch] ∧
    (trace w' = history_after dir h0 None pre ++ opening dir (handle_after dir None pre)
                ++ [EvEmbed (page_content <$> batch)] ∨
     trace w' = history_after dir h0 None pre ++ opening dir (handle_after dir None pre)
                ++ batch_events batch).
Proof.
  intros dir h0 [Hclient Hdir] Hb Hok Hfail. unfold embed_and_store, create_embeddings.
  erewrite bind_ok by apply logging_run.
  rewrite Hclient. erewrite bind_ok by reflexivity.
  erewrite bind_ok by apply logging_run.
  erewrite bind_ok by reflexivity.
  rewrite Hdir. erewrite bind_ok by reflexivity.
  rewrite Hb. erewrite bind_ok by reflexivity. erewrite bind_ok by apply logging_run.
  set (total := length (pre ++ batch :: post)).
  match goal with
  | |- ∃ lines w', (ingest_batches _ _ _ _ _ _ ≫= _) ?w1 = _ ∧ _ => set (wb := w1)
  end.
  pose proof (ingest_batches_ok E dir pre 0 total None wb Hok) as Hpre.
  match type of Hpre with _ = (_, ?w2) => set (wp := w2) in * end.
  destruct (ingest_batches_interrupted dir batch post (0 + length pre) total
              (handle_after dir None pre) wp b Hfail)
    as (w' & Hrun & Hstore & Hlog & Htrace).
  exists ([(INFO, "Total documents to process: " +:+ pretty (length documents));
           (INFO, "Embeddings model initialized");
           (INFO, "Processing " +:+ pretty total +:+ " batches...")]
          ++ batch_lines 0 total pre), w'.
  split; [|split; [|split]].
  - erewrite bind_escape; [done|].
    rewrite ingest_batches_app. fold dir. rewrite Hpre. exact Hrun.
  - rewrite Hstore. done.
  - rewrite Hlog. subst wp wb. unfold logged. simpl. by rewrite <- !app_assoc.
  - exact Htrace.
Qed.

(** X29. A persist directory that cannot be made stops the run before
    the database is touched.  When [os.makedirs] raises an [Exception]
    [e] (as it does for an empty [PERSIST_DIR]), after the files were
    loaded and the embeddings client built, [ingest_documents] logs
    "Ingestion failed: ..." and raises that [e]: no collection is opened,
    nothing is embedded and nothing is written. *)
Theorem unmakeable_directory_aborts_ingestion w cfg pdf_files ts e :
  load_environment E = Returns cfg →
  docs_listing E "docs" = Some pdf_files →
  splitter_init E (chunk_size cfg) (chunk_overlap cfg) = Returns ts →
  loads_complete E ts pdf_files →
  corpus_chunks E ts pdf_files ≠ [] →
  openai_embeddings E (openai_api_key cfg) (embedding_model cfg) = Returns tt →
  makedirs E (persist_dir cfg) = Throws e →
  ∃ w',
    ingest_documents E w = (Raise e, w') ∧
    store w' = store w ∧
    trace w' = trace w ++ (EvLoadPdf ∘ path_str <$> pdf_files)
               ++ [EvMakedirs (persist_dir cfg)] ∧
    last (log w') = Some (ERROR, "Ingestion failed: " +:+ exn_msg e).
Proof.
  intros Henv Hls Hts Hloads Hchunks Hclient Hdir. rewrite ingest_documents_unfold.
  edestruct ingest_body_loads as [lines ->]; try done.
  unfold embed_and_store, create_embeddings.
  erewrite bind_ok by apply logging_run.
  rewrite Hclient. erewrite bind_ok by reflexivity.
  erewrite bind_ok by apply logging_run.
  erewrite bind_ok by reflexivity.
  rewrite Hdir. erewrite bind_raise by reflexivity.
  eexists. split; [reflexivity|]. cbn [store trace log logged].
  split; [done|]. split; [by rewrite <- app_assoc|]. by rewrite !last_app.
Qed.

(** X30. An interrupt during the load of a file ends the run.  A
    [KeyboardInterrupt] is no [Exception]: neither the handler of
    [load_and_split_pdf] nor that of [ingest_documents] catches it, so
    the file is not skipped and no error is logged; the interrupt leaves
    [ingest_documents], the files that follow are not loaded, and nothing
    is embedded or written.  The last line of the log is the
    "Processing ..." line of the interrupted file. *)
Theorem interrupted_load_ends_ingestion w cfg before pdf_path after ts b :
  load_environment E = Returns cfg →
  docs_listing E "docs" = Some (before ++ pdf_path :: after) →
  splitter_init E (chunk_size cfg) (chunk_overlap cfg) = Returns ts →
  loads_complete E ts before →
  pdf_load_and_split E (path_str pdf_path) ts = Interrupted b →
  ∃ w',
    ingest_documents E w = (Escape b, w') ∧
    store w' = store w ∧
    trace w' = trace w ++ (EvLoadPdf ∘ path_str <$> before ++ [pdf_path]) ∧
    last (log w') = Some (INFO, "Processing " +:+ name pdf_path +:+ "...").
Proof.
  intros Henv Hls Hts Hbefore Hint. rewrite ingest_documents_unfold.
  unfold ingest_body. rewrite Henv.
  erewrite bind_ok by reflexivity. erewrite bind_ok by apply logging_run.
  unfold find_pdf_files. rewrite Hls.
  erewrite bind_ok.
  2:{ erewrite bind_ok by apply logging_run. reflexivity. }
  destruct (before ++ pdf_path :: after) as [|p rest] eqn:Hfiles;
    [by destruct before|].
  rewrite Hts. erewrite bind_ok by reflexivity. rewrite <- Hfiles.
  erewrite bind_escape by (by apply load_all_interrupted).
  eexists. split; [reflexivity|]. cbn [store trace log logged].
  split; [done|]. split; [done|]. by rewrite !app_assoc, last_app.
Qed.

(** X31. An interrupt during a batch ends the run without a report.
    When the prior batches succeeded and the embedding call or the write
    of the next batch is interrupted, the interrupt leaves
    [ingest_documents]: no "Ingestion failed" line is logged (the log ends
    with the progress line of that batch), no call is made for a later
    batch, the database is not persisted, and the records of the prior
    batches stay in the store. *)
Theorem interrupted_batch_ends_ingestion w cfg pdf_files ts pre batch post b :
  load_environment E = Returns cfg →
  docs_listing E "docs" = Some pdf_files →
  splitter_init E (chunk_size cfg) (chunk_overlap cfg) = Returns ts →
  loads_complete E ts pdf_files →
  storage_opens E cfg →
  process_documents_in_batches (corpus_chunks E ts pdf_files) (batch_size cfg)
  = Returns (pre ++ batch :: post) →
  batches_succeed E (persist_dir cfg)
    (trace w ++ (EvLoadPdf ∘ path_str <$> pdf_files) ++ [EvMakedirs (persist_dir cfg)])
    None pre →
  batch_interrupted E (persist_dir cfg)
    (history_after (persist_dir cfg)
       (trace w ++ (EvLoadPdf ∘ path_str <$> pdf_files) ++ [EvMakedirs (persist_dir cfg)])
       None pre)
    (handle_after (persist_dir cfg) None pre) batch b →
  ∃ w' lines h,
    ingest_documents E w = (Escape b, w') ∧
    store w' = store w ++ (record_of <$> concat pre) ∧
    log w' = log w ++ lines
             ++ [batch_line (length pre) (length (pre ++ batch :: post)) batch] ∧
    trace w'
    = history_after (persist_dir cfg)
        (trace w ++ (EvLoadPdf ∘ path_str <$> pdf_files) ++ [EvMakedirs (persist_dir cfg)])
        None pre
      ++ opening (persist_dir cfg) (handle_after (persist_dir cfg) None pre) ++ h ∧
    (h = [EvEmbed (page_content <$> batch)] ∨ h = batch_events batch).
Proof.
  intros Henv Hls Hts Hloads Hopens Hbatches Hok Hint.
  assert (corpus_chunks E ts pdf_files ≠ []) as Hchunks.
  { eapply batches_nonempty; [exact Hbatches|]. by destruct pre. }
  rewrite ingest_documents_unfold.
  edestruct ingest_body_loads as [lines ->]; try done.
  rewrite app_assoc in Hok, Hint.
  match goal with
  | |- context [embed_and_store E cfg _ ?w1] =>
      destruct (embed_and_store_interrupted cfg (corpus_chunks E ts pdf_files)
                  pre batch post b w1 Hopens Hbatches Hok Hint)
        as (lines' & w' & -> & Hstore & Hlog & Htrace)
  end.
  cbn [store trace log logged] in *.
  exists w', ([(INFO, "Starting document ingestion process...")] ++ lines ++ lines').
  rewrite <- app_assoc in Htrace.
  destruct Htrace as [Htrace | Htrace]; eexists; (split; [reflexivity|]);
    (split; [done|]); (split; [by rewrite Hlog, <- !app_assoc|]);
    (split; [exact Htrace|]); [by left | by right].
Qed.

End IngestStops.

(** * The two scripts together *)

Section FirstBatch.
Import Ingest.
Context (E : Externals).

Lemma additive_after {A B} (c : M World A) (k : A → M World B) w :
  (∀ a, additive (k a)) → grows (c w).2 ((c ≫= k) w).2.
Proof.
  intros Hk. unfold mbind, M_bind, bind.
  destruct (c w) as [[a|e|n|b] w1]; simpl; [apply Hk | apply grows_refl..].
Qed.

(** The first batch opens the collection before anything else. *)
Lemma ingest_batches_opens dir batch rest i total w :
  ∃ h, trace (ingest_batches E dir (batch :: rest) i total None w).2
       = trace w ++ EvOpenCollection "pdf_knowledge" dir :: h.
Proof.
  cbn [ingest_batches]. erewrite bind_ok by apply logging_run.
  match goal with
  | |- context [(from_texts E ?t ?m ?c ?d ≫= ?k) ?w1] =>
      pose proof (additive_after (from_texts E t m c d) k w1) as (_ & Hall & _);
      [intros vs; apply additive_ingest_batches|];
      assert (trace w1 ++ [EvOpenCollection c d] `prefix_of` trace (from_texts E t m c d w1).2)
        as Hfirst
  end.
  { unfold from_texts. erewrite bind_ok by reflexivity.
    match goal with
    | |- _ `prefix_of` trace (?c ?w2).2 =>
        assert (additive c) as Hc
          by (apply additive_bind; [apply additive_add_texts | intros ?; apply additive_ret]);
        apply (Hc w2)
    end. }
  destruct (transitivity Hfirst Hall) as [h Hh]. exists h.
  rewrite Hh. cbn [logged trace]. by rewrite <- app_assoc.
Qed.

End FirstBatch.

Section Scripts.
Context (Ei : Ingest.Externals) (Ec : Chat.Externals).

(** X28. The two scripts read the same variables with the same
    defaults.  Run in one environment, they agree on the API key, on the
    embedding model and on the directory of the database, and the chat
    opens the collection [pdf_knowledge] in the very directory in which
    ingestion opens it before its first batch. *)
Theorem scripts_agree_on_collection ci cc :
  (∀ k, Ingest.getenv Ei k = Chat.getenv Ec k) →
  Ingest.load_environment Ei = Returns ci →
  Chat.load_environment Ec = Returns cc →
  Chat.openai_api_key cc = Ingest.openai_api_key ci ∧
  Chat.embedding_model cc = Ingest.embedding_model ci ∧
  Chat.persist_dir cc = Ingest.persist_dir ci ∧
  (∀ batch rest i total w,
     ∃ h, Ingest.trace (Ingest.ingest_batches Ei (Ingest.persist_dir ci) (batch :: rest)
                          i total None w).2
          = Ingest.trace w
            ++ Ingest.EvOpenCollection "pdf_knowledge" (Chat.persist_dir cc) :: h) ∧
  (∀ w, Chat.path_exists Ec (Chat.persist_dir cc) = true →
        ∃ h, Chat.trace (Chat.initialize_vectorstore Ec cc w).2
             = Chat.trace w
               ++ Chat.EvOpenCollection "pdf_knowledge" (Ingest.persist_dir ci) :: h).
Proof.
  intros Hsame Hi Hc.
  assert (Chat.openai_api_key cc = Ingest.openai_api_key ci ∧
          Chat.embedding_model cc = Ingest.embedding_model ci ∧
          Chat.persist_dir cc = Ingest.persist_dir ci) as (Hkey & Hmodel & Hdir).
  { unfold Ingest.load_environment, Chat.load_environment in Hi, Hc. simpl in Hi, Hc.
    rewrite <- Hsame in Hc.
    destruct (env_truthy (Ingest.getenv Ei "OPENAI_API_KEY")); simpl in Hi, Hc; [|done].
    destruct (Ingest.py_int Ei (getenv_default _ "CHUNK_SIZE" _)) as [cs| |];
      simpl in Hi; [|done..].
    destruct (Ingest.py_int Ei (getenv_default _ "CHUNK_OVERLAP" _)) as [co| |];
      simpl in Hi; [|done..].
    destruct (Ingest.py_int Ei (getenv_default _ "BATCH_SIZE" _)) as [bs| |];
      simpl in Hi; [|done..].
    destruct (Chat.py_int Ec _) as [k| |]; simpl in Hc; [|done..].
    injection Hi as <-. injection Hc as <-. simpl.
    unfold getenv_default. by rewrite !Hsame. }
  split; [done|]. split; [done|]. split; [done|]. split.
  - intros batch rest i total w. rewrite Hdir. apply ingest_batches_opens.
  - intros w Hexists. rewrite <- Hdir. unfold Chat.initialize_vectorstore.
    rewrite Hexists. cbn [negb].
    erewrite bind_ok by reflexivity. erewrite bind_ok by reflexivity.
    destruct (decide (Chat.collection_count Ec (Chat.persist_dir cc) = 0)).
    + eexists. unfold raise. cbn [snd Chat.trace]. by rewrite <- app_assoc.
    + erewrite bind_ok by reflexivity. eexists. unfold mret, M_ret, ret.
      cbn [snd Chat.trace]. by rewrite <- app_assoc.
Qed.

End Scripts.

(** * The properties on the samples *)

Module MoreIngestSamples.
Import Ingest Samples.

Lemma batch_is_slice_witness :
  ((0 < 2)%Z ∧
   process_documents_in_batches corpus_documents 2
   = Returns [first_batch; second_batch; third_batch]) ∧
  [first_batch; second_batch; third_batch] !! 2 = Some third_batch ∧
  [first_batch; second_batch; third_batch] !! 3 = None ∧
  length third_batch = 1.
Proof.
  assert (process_documents_in_batches corpus_documents 2
          = Returns [first_batch; second_batch; third_batch]) as Hbatches
    by (vm_compute; reflexivity).
  split; [by split|].
  destruct (batch_is_slice corpus_documents 2 [first_batch; second_batch; third_batch] 3
              ltac:(lia) Hbatches) as [Hlast _].
  destruct (batch_is_slice corpus_documents 2 [first_batch; second_batch; third_batch] 2
              ltac:(lia) Hbatches) as [_ Hlen].
  split; [reflexivity|]. split; [exact Hlast|].
  rewrite (Hlen third_batch eq_refl). reflexivity.
Defined.

Lemma missing_key_aborts_ingestion_witness :
  env_truthy (getenv keyless_backend "OPENAI_API_KEY") = false ∧
  ∃ w',
    ingest_documents keyless_backend fresh
    = (Raise (ValueError "Missing required environment variables: ['OPENAI_API_KEY']"), w') ∧
    store w' = [] ∧ trace w' = [].
Proof.
  split; [reflexivity|].
  destruct (missing_key_aborts_ingestion keyless_backend fresh eq_refl)
    as (w' & Hrun & Hstore & Htrace & _).
  by exists w'.
Defined.

Lemma unparsable_setting_aborts_ingestion_witness :
  (env_truthy (getenv bad_size_backend "OPENAI_API_KEY") = true ∧
   py_int bad_size_backend (getenv_default (getenv bad_size_backend) "CHUNK_SIZE" "1000")
   = Throws (ValueError "invalid literal for int() with base 10: 'large'")) ∧
  ∃ w',
    ingest_documents bad_size_backend fresh
    = (Raise (ValueError "invalid literal for int() with base 10: 'large'"), w') ∧
    store w' = [] ∧ trace w' = [].
Proof.
  split; [by split|].
  destruct (unparsable_setting_aborts_ingestion bad_size_backend fresh
              (ValueError "invalid literal for int() with base 10: 'large'")
              eq_refl (or_introl eq_refl))
    as (w' & Hrun & Hstore & Htrace & _).
  by exists w'.
Defined.

Lemma settings_default_witness :
  ∃ key,
    getenv default_backend "OPENAI_API_KEY" = Some key ∧
    load_environment default_backend
    = Returns {| openai_api_key := key;
                 embedding_model := "text-embedding-3-small";
                 persist_dir := "db";
                 chunk_size := 1000;
                 chunk_overlap := 200;
                 batch_size := 100 |}.
Proof.
  apply (settings_default default_backend 1000 200 100); reflexivity.
Defined.

Lemma missing_folder_aborts_ingestion_witness :
  (load_environment no_folder_backend = Returns small_config ∧
   docs_listing no_folder_backend "docs" = None) ∧
  ∃ w',
    ingest_documents no_folder_backend fresh
    = (Raise (FileNotFoundError "Documents directory 'docs' not found"), w') ∧
    store w' = [] ∧ trace w' = [].
Proof.
  assert (load_environment no_folder_backend = Returns small_config) as Henv
    by (vm_compute; reflexivity).
  split; [by split|].
  destruct (missing_folder_aborts_ingestion no_folder_backend fresh small_config
              Henv eq_refl) as (w' & Hrun & Hstore & Htrace & _).
  by exists w'.
Defined.

Lemma nothing_to_ingest_witness :
  (load_environment broken_only_backend = Returns small_config ∧
   docs_listing broken_only_backend "docs" = Some [broken_pdf] ∧
   corpus_chunks broken_only_backend small_splitter [broken_pdf] = []) ∧
  ∃ w',
    ingest_documents broken_only_backend fresh = (Ok tt, w') ∧
    store w' = [] ∧
    trace w' = [EvLoadPdf "docs/broken.pdf"] ∧
    last (log w') = Some (ERROR, "No documents were successfully processed").
Proof.
  assert (load_environment broken_only_backend = Returns small_config) as Henv
    by (vm_compute; reflexivity).
  split; [by repeat split|].
  destruct (nothing_to_ingest broken_only_backend fresh small_config [broken_pdf]
              Henv eq_refl) as (w' & Hrun & Hstore & Htrace & Hlog).
  { right. exists small_splitter. split; [done|]. split; [|done].
    apply IngestSamples.corpus_loads. }
  by exists w'.
Defined.

Lemma nonpositive_batch_size_aborts_witness :
  (∃ cfg ts w',
     load_environment zero_batch_backend = Returns cfg ∧
     batch_size cfg = 0%Z ∧
     corpus_chunks zero_batch_backend ts corpus ≠ [] ∧
     ingest_documents zero_batch_backend fresh
     = (Raise (ValueError "range() arg 3 must not be zero"), w') ∧
     store w' = [] ∧
     embed_calls (trace w') = 0) ∧
  (∃ cfg ts w',
     load_environment negative_batch_backend = Returns cfg ∧
     batch_size cfg = (-1)%Z ∧
     corpus_chunks negative_batch_backend ts corpus ≠ [] ∧
     ingest_documents negative_batch_backend fresh
     = (Raise (AttributeError "'NoneType' object has no attribute 'persist'"), w') ∧
     store w' = [] ∧
     embed_calls (trace w') = 0).
Proof.
  set (ts := {| ts_chunk_size := 1000; ts_chunk_overlap := 200 |}).
  split.
  - set (cfg := {| openai_api_key := "sk-test";
                   embedding_model := "text-embedding-3-small";
                   persist_dir := "db";
                   chunk_size := 1000; chunk_overlap := 200; batch_size := 0 |}).
    assert (load_environment zero_batch_backend = Returns cfg) as Henv
      by (vm_compute; reflexivity).
    assert (corpus_chunks zero_batch_backend ts corpus ≠ []) as Hchunks by done.
    destruct (nonpositive_batch_size_aborts zero_batch_backend fresh cfg corpus ts
                Henv eq_refl eq_refl
                (IngestSamples.corpus_loads _ _ _ _ _ _)
                (proj1 (IngestSamples.disk_ready _ _ _ _ cfg ltac:(done)))
                Hchunks ltac:(done))
      as (w' & Hrun & Hstore & Htrace).
    exists cfg, ts, w'. split; [done|]. split; [done|]. split; [done|].
    split; [exact Hrun|]. split; [exact Hstore|]. rewrite Htrace. reflexivity.
  - set (cfg := {| openai_api_key := "sk-test";
                   embedding_model := "text-embedding-3-small";
                   persist_dir := "db";
                   chunk_size := 1000; chunk_overlap := 200; batch_size := -1 |}).
    assert (load_environment negative_batch_backend = Returns cfg) as Henv
      by (vm_compute; reflexivity).
    assert (corpus_chunks negative_batch_backend ts corpus ≠ []) as Hchunks by done.
    destruct (nonpositive_batch_size_aborts negative_batch_backend fresh cfg corpus ts
                Henv eq_refl eq_refl
                (IngestSamples.corpus_loads _ _ _ _ _ _)
                (proj1 (IngestSamples.disk_ready _ _ _ _ cfg ltac:(done)))
                Hchunks ltac:(done))
      as (w' & Hrun & Hstore & Htrace).
    exists cfg, ts, w'. split; [done|]. split; [done|]. split; [done|].
    split; [exact Hrun|]. split; [exact Hstore|]. rewrite Htrace. reflexivity.
Defined.

Lemma tagging_keeps_pages_witness :
  pdf_load_and_split paged_backend (path_str fox_pdf) small_splitter
  = Returns [loader_page "The quick brown fox" 0; loader_page "jumps over" 0;
             loader_page "the lazy dog." 1] ∧
  ∃ chunks w',
    load_and_split_pdf paged_backend fox_pdf small_splitter fresh = (Ok chunks, w') ∧
    length chunks = 3 ∧
    page_content <$> chunks = ["The quick brown fox"; "jumps over"; "the lazy dog."] ∧
    ∀ chunk, chunks !! 1 = Some chunk →
             metadata chunk !! "page" = Some (VInt 0) ∧
             metadata chunk !! "source" = Some (VStr "docs/fox.pdf").
Proof.
  split; [reflexivity|].
  destruct (tagging_keeps_pages paged_backend fox_pdf small_splitter _ fresh eq_refl)
    as (chunks & w' & Hrun & _ & Hlen & Htexts & Hmeta & _).
  exists chunks, w'. split; [exact Hrun|]. split; [exact Hlen|]. split; [exact Htexts|].
  intros chunk Hchunk.
  destruct (Hmeta 1 chunk Hchunk) as (page & [= <-] & _ & Hkeys).
  split; (rewrite Hkeys; [reflexivity|]); unfold tag_keys;
    intros Hin; repeat (apply elem_of_cons in Hin as [?|Hin]; [done|]);
    by apply elem_of_nil in Hin.
Defined.

Lemma chunk_ids_are_distinct_witness :
  NoDup (stem <$> corpus) ∧
  NoDup (chunk_id <$> corpus_chunks sound_backend small_splitter corpus).
Proof.
  assert (NoDup (stem <$> corpus)) as Hstems.
  { apply NoDup_ListNoDup. repeat constructor; simpl; intuition discriminate. }
  split; [exact Hstems|].
  exact (proj1 (chunk_ids_are_distinct sound_backend small_splitter corpus Hstems)).
Defined.

Lemma ingested_chunks_are_cited_witness :
  chunks_of sound_backend small_splitter notes_pdf !! 1
  = Some (tag_page notes_pdf 1 (page "second note")) ∧
  Chat.source_info (tag_page notes_pdf 1 (page "second note"))
  = "notes.pdf" +:+ " (page " +:+ pretty 2 +:+ ")" ∧
  Chat.keyed (corpus_chunks sound_backend small_splitter corpus).
Proof.
  destruct (ingested_chunks_are_cited sound_backend small_splitter corpus notes_pdf)
    as (Hkeyed & Hcite & _).
  split; [reflexivity|]. split; [|exact Hkeyed].
  exact (proj2 (Hcite 1 _ eq_refl)).
Defined.

Lemma each_chunk_embedded_once_witness :
  (load_environment sound_backend = Returns small_config ∧
   (0 < batch_size small_config)%Z ∧
   docs_listing sound_backend "docs" = Some corpus ∧
   loads_complete sound_backend small_splitter corpus ∧
   storage_ready sound_backend small_config ∧
   reliable sound_backend) ∧
  ∃ w' new,
    ingest_documents sound_backend fresh = (Ok tt, w') ∧
    trace w' = new ∧
    embedded_texts new = page_content <$> corpus_documents ∧
    store w' = appended_records new.
Proof.
  assert (reliable sound_backend) as Hrel by (split; intros; reflexivity).
  assert (load_environment sound_backend = Returns small_config) as Henv
    by (vm_compute; reflexivity).
  assert (loads_complete sound_backend small_splitter corpus) as Hloads
    by apply IngestSamples.corpus_loads.
  assert (storage_ready sound_backend small_config) as Hready
    by (by apply IngestSamples.disk_ready).
  split; [by repeat split|].
  destruct (each_chunk_embedded_once sound_backend fresh small_config corpus small_splitter
              Henv eq_refl eq_refl eq_refl Hloads Hready Hrel)
    as (w' & new & Hrun & Htrace & Htexts & _ & Hstore).
  by exists w', new.
Defined.

Lemma reingestion_duplicates_witness :
  (load_environment sound_backend = Returns small_config ∧
   (0 < batch_size small_config)%Z ∧
   docs_listing sound_backend "docs" = Some corpus ∧
   loads_complete sound_backend small_splitter corpus ∧
   storage_ready sound_backend small_config ∧
   reliable sound_backend) ∧
  ∃ w1 w2,
    ingest_documents sound_backend fresh = (Ok tt, w1) ∧
    ingest_documents sound_backend w1 = (Ok tt, w2) ∧
    length (store w1) = 5 ∧
    length (store w2) = 10.
Proof.
  assert (reliable sound_backend) as Hrel by (split; intros; reflexivity).
  assert (load_environment sound_backend = Returns small_config) as Henv
    by (vm_compute; reflexivity).
  assert (loads_complete sound_backend small_splitter corpus) as Hloads
    by apply IngestSamples.corpus_loads.
  assert (storage_ready sound_backend small_config) as Hready
    by (by apply IngestSamples.disk_ready).
  split; [by repeat split|].
  destruct (reingestion_duplicates sound_backend fresh small_config corpus small_splitter
              Henv eq_refl eq_refl eq_refl Hloads Hready Hrel)
    as (w1 & w2 & Hrun1 & Hrun2 & Hstore1 & Hstore2).
  exists w1, w2. split; [exact Hrun1|]. split; [exact Hrun2|].
  rewrite Hstore1, Hstore2. split; vm_compute; reflexivity.
Defined.

Lemma failures_only_cut_short_witness :
  (load_environment failing_later = Returns small_config ∧
   docs_listing failing_later "docs" = Some corpus ∧
   process_documents_in_batches (corpus_chunks failing_later small_splitter corpus)
     (batch_size small_config)
   = Returns [first_batch; second_batch; third_batch]) ∧
  ∃ h k,
    trace (ingest_documents failing_later fresh).2 = h ∧
    h `prefix_of` complete_history "db" corpus [first_batch; second_batch; third_batch] ∧
    store (ingest_documents failing_later fresh).2
    = record_of <$> concat (take k [first_batch; second_batch; third_batch]).
Proof.
  assert (load_environment failing_later = Returns small_config) as Henv
    by (vm_compute; reflexivity).
  assert (process_documents_in_batches (corpus_chunks failing_later small_splitter corpus)
            (batch_size small_config)
          = Returns [first_batch; second_batch; third_batch]) as Hbatches
    by (vm_compute; reflexivity).
  split; [by repeat split|].
  destruct (failures_only_cut_short failing_later fresh small_config corpus small_splitter
              [first_batch; second_batch; third_batch] Henv eq_refl eq_refl Hbatches)
    as (h & k & Htrace & Hpre & Hstore & _).
  by exists h, k.
Defined.

Lemma unmakeable_directory_aborts_ingestion_witness :
  ∃ cfg,
    (load_environment no_dir_backend = Returns cfg ∧
     persist_dir cfg = "" ∧
     docs_listing no_dir_backend "docs" = Some corpus ∧
     makedirs no_dir_backend (persist_dir cfg)
     = Throws (FileNotFoundError "[Errno 2] No such file or directory: ''")) ∧
    ∃ w',
      ingest_documents no_dir_backend fresh
      = (Raise (FileNotFoundError "[Errno 2] No such file or directory: ''"), w') ∧
      store w' = [] ∧
      embed_calls (trace w') = 0 ∧
      open_calls (trace w') = 0.
Proof.
  set (cfg := {| openai_api_key := "sk-test";
                 embedding_model := "text-embedding-3-small";
                 persist_dir := "";
                 chunk_size := 20; chunk_overlap := 5; batch_size := 2 |}).
  assert (load_environment no_dir_backend = Returns cfg) as Henv
    by (vm_compute; reflexivity).
  exists cfg. split; [by repeat split|].
  destruct (unmakeable_directory_aborts_ingestion no_dir_backend fresh cfg corpus
              small_splitter (FileNotFoundError "[Errno 2] No such file or directory: ''")
              Henv eq_refl eq_refl (IngestSamples.corpus_loads _ _ _ _ _ _)
              ltac:(done) eq_refl eq_refl)
    as (w' & Hrun & Hstore & Htrace & _).
  exists w'. split; [exact Hrun|]. split; [exact Hstore|].
  rewrite Htrace. split; reflexivity.
Defined.

Lemma interrupted_load_ends_ingestion_witness :
  (load_environment interrupted_load = Returns small_config ∧
   docs_listing interrupted_load "docs" = Some ([fox_pdf; broken_pdf] ++ notes_pdf :: []) ∧
   pdf_load_and_split interrupted_load (path_str notes_pdf) small_splitter
   = Interrupted keyboard_interrupt) ∧
  ∃ w',
    ingest_documents interrupted_load fresh = (Escape keyboard_interrupt, w') ∧
    store w' = [] ∧
    trace w' = [EvLoadPdf "docs/fox.pdf"; EvLoadPdf "docs/broken.pdf";
                EvLoadPdf "docs/notes.pdf"].
Proof.
  assert (load_environment interrupted_load = Returns small_config) as Henv
    by (vm_compute; reflexivity).
  split; [by repeat split|].
  destruct (interrupted_load_ends_ingestion interrupted_load fresh small_config
              [fox_pdf; broken_pdf] notes_pdf [] small_splitter keyboard_interrupt
              Henv eq_refl eq_refl) as (w' & Hrun & Hstore & Htrace & _).
  { intros pdf_path b Hin.
    apply elem_of_cons in Hin as [->|Hin]; [done|].
    apply elem_of_cons in Hin as [->|Hin]; [done|].
    by apply elem_of_nil in Hin. }
  { reflexivity. }
  by exists w'.
Defined.

Lemma interrupted_batch_ends_ingestion_witness :
  (load_environment interrupted_embedding = Returns small_config ∧
   process_documents_in_batches (corpus_chunks interrupted_embedding small_splitter corpus)
     (batch_size small_config)
   = Returns ([first_batch] ++ second_batch :: [third_batch])) ∧
  ∃ w',
    ingest_documents interrupted_embedding fresh = (Escape keyboard_interrupt, w') ∧
    store w' = record_of <$> first_batch ∧
    embed_calls (trace w') = 2 ∧
    append_calls (trace w') = 1 ∧
    last (log w') = Some (batch_line 1 3 second_batch).
Proof.
  assert (load_environment interrupted_embedding = Returns small_config) as Henv
    by (vm_compute; reflexivity).
  assert (process_documents_in_batches
            (corpus_chunks interrupted_embedding small_splitter corpus)
            (batch_size small_config)
          = Returns ([first_batch] ++ second_batch :: [third_batch])) as Hbatches
    by (vm_compute; reflexivity).
  split; [by split|].
  destruct (interrupted_batch_ends_ingestion interrupted_embedding fresh small_config corpus
              small_splitter [first_batch] second_batch [third_batch] keyboard_interrupt
              Henv eq_refl eq_refl)
    as (w' & lines & h & Hrun & Hstore & Hlog & Htrace & Hh).
  { intros pdf_path b _. cbn [pdf_load_and_split interrupted_embedding with_calls].
    unfold corpus_loader. repeat case_decide; done. }
  { split; reflexivity. }
  { exact Hbatches. }
  { repeat split. }
  { left. reflexivity. }
  exists w'. split; [exact Hrun|]. split; [rewrite Hstore; vm_compute; reflexivity|].
  assert (h = [EvEmbed (page_content <$> second_batch)]) as ->.
  { assert (embed_calls (trace (ingest_documents interrupted_embedding fresh).2) = 2
            ∧ append_calls (trace (ingest_documents interrupted_embedding fresh).2) = 1)
      as [Hn Hm] by (vm_compute; split; reflexivity).
    rewrite Hrun in Hm. cbn [snd] in Hm. rewrite Htrace in Hm.
    destruct Hh as [-> | ->]; [done|]. vm_compute in Hm. discriminate Hm. }
  rewrite Htrace, Hlog.
  split; [vm_compute; reflexivity|]. split; [vm_compute; reflexivity|].
  by rewrite !app_assoc, last_app.
Defined.

End MoreIngestSamples.

Module MoreChatSamples.
Import Chat Samples.

Lemma missing_key_aborts_chat_witness :
  env_truthy (getenv (assistant_with env_no_key true 5) "OPENAI_API_KEY") = false ∧
  ∃ w',
    chat_loop (assistant_with env_no_key true 5) [Line "What does the fox jump over?"] offline
    = (Exit 1, w') ∧
    memory w' = None ∧
    trace w' = [].
Proof.
  split; [reflexivity|].
  destruct (missing_key_aborts_chat (assistant_with env_no_key true 5)
              [Line "What does the fox jump over?"] offline eq_refl)
    as (w' & Hrun & Hmem & Htrace & _).
  by exists w'.
Defined.

Lemma missing_database_aborts_chat_witness :
  (load_environment (assistant_with env_key_only false 5) = Returns chat_config ∧
   path_exists (assistant_with env_key_only false 5) (persist_dir chat_config) = false) ∧
  ∃ w',
    chat_loop (assistant_with env_key_only false 5) [Line "What does the fox jump over?"]
      offline = (Exit 1, w') ∧
    memory w' = None ∧
    trace w' = [] ∧
    stdout w'
    = troubleshooting
        (FileNotFoundError
           ("Database directory '" +:+ "db" +:+ "' not found. "
            +:+ "Please run ingest.py first to create the knowledge base.")).
Proof.
  assert (load_environment (assistant_with env_key_only false 5) = Returns chat_config)
    as Henv by (vm_compute; reflexivity).
  split; [by split|].
  destruct (missing_database_aborts_chat (assistant_with env_key_only false 5)
              [Line "What does the fox jump over?"] offline chat_config Henv eq_refl)
    as (w' & Hrun & Hmem & Htrace & Hout).
  by exists w'.
Defined.


Lemma exit_command_ends_session_witness :
  lower (strip (nbsp +:+ " QUIT" +:+ nbsp)) ∈ ["exit"; "quit"; "q"; ""] ∧
  ∃ w',
    conversation (assistant 7) sample_chain [Line (nbsp +:+ " QUIT" +:+ nbsp); Line "first"]
      ready
    = (Ok tt, w') ∧
    memory w' = Some [] ∧
    trace w' = [EvPrompt].
Proof.
  assert (lower (strip (nbsp +:+ " QUIT" +:+ nbsp)) ∈ ["exit"; "quit"; "q"; ""]) as Hquit.
  { replace (lower (strip (nbsp +:+ " QUIT" +:+ nbsp))) with "quit"
      by (vm_compute; reflexivity).
    apply list_elem_of_further, list_elem_of_here. }
  split; [exact Hquit|].
  destruct (exit_command_ends_session (assistant 7) sample_chain
              (Line (nbsp +:+ " QUIT" +:+ nbsp)) [Line "first"] ready)
    as (w' & Hrun & Hmem & _ & Htrace).
  { right. by eexists. }
  by exists w'.
Defined.

Lemma blank_line_ends_session_witness :
  Forall (λ c, is_space c = true) (utf8_chars (" " +:+ nbsp +:+ " ")) ∧
  ∃ w',
    conversation (assistant 7) sample_chain [Line (" " +:+ nbsp +:+ " "); Line "first"] ready
    = (Ok tt, w') ∧
    memory w' = Some [] ∧
    trace w' = [EvPrompt].
Proof.
  assert (Forall (λ c, is_space c = true) (utf8_chars (" " +:+ nbsp +:+ " "))) as Hblank
    by (vm_compute; repeat constructor).
  split; [exact Hblank|].
  destruct (blank_line_ends_session (assistant 7) sample_chain (" " +:+ nbsp +:+ " ")
              [Line "first"] ready Hblank) as (w' & Hrun & Hmem & _ & Htrace).
  by exists w'.
Defined.

Lemma interrupt_exits_cleanly_witness :
  (load_environment (assistant 7) = Returns chat_config ∧
   path_exists (assistant 7) (persist_dir chat_config) = true ∧
   collection_count (assistant 7) (persist_dir chat_config) ≠ 0) ∧
  (chat_loop (assistant 7) [KeyboardInterrupt; Line "first"] offline).1 = Exit 0 ∧
  memory (chat_loop (assistant 7) [KeyboardInterrupt; Line "first"] offline).2 = Some [].
Proof.
  assert (load_environment (assistant 7) = Returns chat_config) as Henv
    by (vm_compute; reflexivity).
  split; [by repeat split|].
  exact (proj2 (interrupt_exits_cleanly (assistant 7) sample_chain [Line "first"] offline)
           chat_config Henv eq_refl ltac:(done)).
Defined.

Lemma query_outcome_is_shown_witness :
  (has_memory sample_chain = true ∧ memory ready = Some []) ∧
  (∃ w',
     process_query (assistant 7) sample_chain "boom" ready = (Ok tt, w') ∧
     stdout w'
     = [nl +:+ "❌ Sorry, I encountered an error: " +:+ "upstream timeout";
        "Please try rephrasing your question.";
        repeat_str "-" 60] ∧
     log w' = [(ERROR, "Error processing query: " +:+ "upstream timeout")]) ∧
  (∃ w',
     process_query (assistant 7) sample_chain "wait" ready
     = (Escape keyboard_interrupt, w') ∧
     stdout w' = [] ∧
     log w' = []).
Proof.
  split; [by split|]. split.
  - destruct (query_outcome_is_shown (assistant 7) sample_chain "boom" ready []
                eq_refl eq_refl) as (w' & Hshown).
    exists w'. exact Hshown.
  - destruct (query_outcome_is_shown (assistant 7) sample_chain "wait" ready []
                eq_refl eq_refl) as (w' & Hshown).
    exists w'. exact Hshown.
Defined.

Lemma citations_cover_sources_witness :
  NoDup (citations retrieved) ∧
  ("a.txt (page 1)" ∈ source_info <$> retrieved → "a.txt (page 1)" ∈ citations retrieved) ∧
  length (citations retrieved) ≤ 3.
Proof.
  destruct (citations_cover_sources retrieved) as (Hnd & Hin & _ & Hlen).
  split; [exact Hnd|]. split; [apply Hin | exact Hlen].
Defined.

Lemma unlabelled_chunks_cite_unknown_witness :
  Forall (λ d, metadata d !! "filename" = None ∧ metadata d !! "page_number" = None)
         unlabelled ∧
  format_sources unlabelled = "Sources: " +:+ "Unknown (page ?)".
Proof.
  assert (Forall (λ d, metadata d !! "filename" = None ∧ metadata d !! "page_number" = None)
            unlabelled) as Hdocs by (repeat constructor).
  split; [exact Hdocs|].
  exact (unlabelled_chunks_cite_unknown (page "one") [page "two"; page "three"] Hdocs).
Defined.

Lemma repeated_source_adds_nothing_witness :
  source_info (cited "a.txt" 1) ∈ source_info <$> [cited "a.txt" 1; cited "b.txt" 2] ∧
  format_sources ([cited "a.txt" 1; cited "b.txt" 2] ++ cited "a.txt" 1 :: [cited "c.txt" 3])
  = format_sources ([cited "a.txt" 1; cited "b.txt" 2] ++ [cited "c.txt" 3]).
Proof.
  assert (source_info (cited "a.txt" 1)
          ∈ source_info <$> [cited "a.txt" 1; cited "b.txt" 2]) as Hin
    by apply list_elem_of_here.
  split; [exact Hin|].
  exact (repeated_source_adds_nothing [cited "a.txt" 1; cited "b.txt" 2] (cited "a.txt" 1)
           [cited "c.txt" 3] Hin).
Defined.

End MoreChatSamples.

Module ScriptSamples.
Import Samples.

Lemma scripts_agree_on_collection_witness :
  ((∀ k, Ingest.getenv default_backend k = Chat.getenv (assistant 7) k) ∧
   Chat.load_environment (assistant 7) = Returns chat_config) ∧
  ∃ ci,
    Ingest.load_environment default_backend = Returns ci ∧
    Chat.persist_dir chat_config = Ingest.persist_dir ci ∧
    Chat.embedding_model chat_config = Ingest.embedding_model ci.
Proof.
  assert (∀ k, Ingest.getenv default_backend k = Chat.getenv (assistant 7) k) as Hsame
    by (intros k; reflexivity).
  assert (Chat.load_environment (assistant 7) = Returns chat_config) as Hc
    by (vm_compute; reflexivity).
  split; [by split|].
  eexists. split; [vm_compute; reflexivity|].
  match goal with
  | |- Chat.persist_dir _ = Ingest.persist_dir ?ci ∧ _ =>
      destruct (scripts_agree_on_collection default_backend (assistant 7) ci chat_config
                  Hsame ltac:(vm_compute; reflexivity) Hc) as (_ & Hmodel & Hdir & _)
  end.
  by split.
Defined.

End ScriptSamples.
